(** * SIP calculator: the projection engine of [js/calculations.js]

    The engine is a handful of numeric JavaScript functions.  They are
    embedded here over an idealised JavaScript [number]: the finite doubles
    are replaced by the real numbers (arithmetic is exact: no rounding, no
    overflow and no underflow), and the three special values [Infinity],
    [-Infinity] and [NaN] are kept, so that division by zero and the
    comparisons with [NaN] behave as they do in the source.  The two zeros
    are identified (a zero divisor behaves as [+0]).  What is proved of the
    values the calculators return is therefore proved under exact
    arithmetic; the rounding of binary64 is modelled apart, in
    [Binary64], for the totals of two calculators. *)

From Stdlib Require Import Reals Lra Lia List String ZArith Bool Arith.
From Stdlib Require Import Ascii DecimalString.
Import ListNotations.

Open Scope R_scope.

(** ** JavaScript numbers *)

Inductive number : Type :=
| Num (x : R)
| PInf
| NInf
| NaN.

Coercion Num : R >-> number.

Declare Scope js_scope.
Delimit Scope js_scope with js.
Bind Scope js_scope with number.

Module JS.

Inductive sign := Neg | Zero | Pos.

Definition sgn (x : R) : sign :=
  if Rlt_dec 0 x then Pos else if Rlt_dec x 0 then Neg else Zero.

Definition add (a b : number) : number :=
  match a, b with
  | NaN, _ | _, NaN => NaN
  | Num x, Num y => Num (x + y)
  | PInf, NInf | NInf, PInf => NaN
  | PInf, _ | _, PInf => PInf
  | NInf, _ | _, NInf => NInf
  end.

Definition sub (a b : number) : number :=
  match a, b with
  | NaN, _ | _, NaN => NaN
  | Num x, Num y => Num (x - y)
  | PInf, PInf | NInf, NInf => NaN
  | PInf, _ | _, NInf => PInf
  | NInf, _ | _, PInf => NInf
  end.

Definition mul (a b : number) : number :=
  match a, b with
  | NaN, _ | _, NaN => NaN
  | Num x, Num y => Num (x * y)
  | Num x, PInf | PInf, Num x =>
      match sgn x with Pos => PInf | Neg => NInf | Zero => NaN end
  | Num x, NInf | NInf, Num x =>
      match sgn x with Pos => NInf | Neg => PInf | Zero => NaN end
  | PInf, PInf | NInf, NInf => PInf
  | PInf, NInf | NInf, PInf => NInf
  end.

Definition div (a b : number) : number :=
  match a, b with
  | NaN, _ | _, NaN => NaN
  | Num x, Num y =>
      if Req_dec_T y 0
      then match sgn x with Pos => PInf | Neg => NInf | Zero => NaN end
      else Num (x / y)
  | Num _, (PInf | NInf) => Num 0
  | PInf, Num y => if Rlt_dec y 0 then NInf else PInf
  | NInf, Num y => if Rlt_dec y 0 then PInf else NInf
  | (PInf | NInf), (PInf | NInf) => NaN
  end.

(** [a < b] and [a <= b]; every comparison with [NaN] is false. *)
Definition ltb (a b : number) : bool :=
  match a, b with
  | NaN, _ | _, NaN => false
  | Num x, Num y => if Rlt_dec x y then true else false
  | _, NInf => false
  | NInf, _ => true
  | PInf, _ => false
  | _, PInf => true
  end.

Definition leb (a b : number) : bool :=
  match a, b with
  | NaN, _ | _, NaN => false
  | Num x, Num y => if Rle_dec x y then true else false
  | NInf, _ => true
  | _, PInf => true
  | _, NInf => false
  | PInf, _ => false
  end.

(** Truthiness of a number: [0] and [NaN] are falsy. *)
Definition truthy (a : number) : bool :=
  match a with
  | Num x => if Req_dec_T x 0 then false else true
  | NaN => false
  | PInf | NInf => true
  end.

(** [a || b] on numbers. *)
Definition or (a b : number) : number := if truthy a then a else b.

Definition of_nat (n : nat) : number := Num (INR n).

Definition is_integer (y : R) : bool :=
  if Req_dec_T y (IZR (Zfloor y)) then true else false.

Definition is_odd_integer (y : R) : bool :=
  is_integer y && Z.odd (Zfloor y).

(** [Math.pow(base, exponent)], case by case as in the language
    definition of exponentiation; a positive finite base raised to a finite
    exponent is the real power [exp (exponent * ln base)]. *)
Definition Math_pow (base exponent : number) : number :=
  match exponent, base with
  | NaN, _ => NaN
  | Num y, _ =>
      match sgn y with
      | Zero => Num 1
      | Pos =>
          match base with
          | NaN => NaN
          | PInf => PInf
          | NInf => if is_odd_integer y then NInf else PInf
          | Num x =>
              match sgn x with
              | Zero => Num 0
              | Pos => Num (Rpower x y)
              | Neg => if is_integer y
                       then Num (powerRZ x (Zfloor y)) else NaN
              end
          end
      | Neg =>
          match base with
          | NaN => NaN
          | PInf | NInf => Num 0
          | Num x =>
              match sgn x with
              | Zero => PInf
              | Pos => Num (Rpower x y)
              | Neg => if is_integer y
                       then Num (powerRZ x (Zfloor y)) else NaN
              end
          end
      end
  | PInf, NaN | NInf, NaN => NaN
  | PInf, (PInf | NInf) => PInf
  | NInf, (PInf | NInf) => Num 0
  | PInf, Num x =>
      if Rlt_dec 1 (Rabs x) then PInf
      else if Req_dec_T (Rabs x) 1 then NaN else Num 0
  | NInf, Num x =>
      if Rlt_dec 1 (Rabs x) then Num 0
      else if Req_dec_T (Rabs x) 1 then NaN else PInf
  end.

(** [Math.ceil]. *)
Definition Math_ceil (a : number) : number :=
  match a with
  | Num x => Num (IZR (Zceil x))
  | _ => a
  end.

End JS.

Infix "+" := JS.add : js_scope.
Infix "-" := JS.sub : js_scope.
Infix "*" := JS.mul : js_scope.
Infix "/" := JS.div : js_scope.
Infix "<?" := JS.ltb (at level 70, no associativity) : js_scope.
Infix "<=?" := JS.leb (at level 70, no associativity) : js_scope.
Notation "a >? b" := (JS.ltb b a) (at level 70, no associativity) : js_scope.
Notation "# n" := (JS.of_nat n)
  (at level 9, n at level 9, format "# n") : js_scope.

(** ** Outcomes of a call

    A call returns a value, throws, or never returns. *)

Inductive outcome (A : Type) : Type :=
| Return (a : A)
| Throw (e : string)
| Diverge.

Arguments Return {A} a.
Arguments Throw {A} e.
Arguments Diverge {A}.

Definition bind {A B : Type} (m : outcome A) (k : A -> outcome B)
  : outcome B :=
  match m with
  | Return a => k a
  | Throw e => Throw e
  | Diverge => Diverge
  end.

Notation "x <- m ;; k" := (bind m (fun x => k))
  (at level 61, m at next level, right associativity).

(** Number of iterations of [for (let i = 1; i <= bound; i++)]: the counter
    takes the values 1, 2, ... and the body runs once for each of them that
    is at most [bound].  A finite bound gives [floor bound] iterations (none
    when it is below 1), a [NaN] or [-Infinity] bound gives none, and with
    [Infinity] the loop never ends. *)
Definition iterations (bound : number) : outcome nat :=
  match bound with
  | Num x => Return (Z.to_nat (Zfloor x))
  | PInf => Diverge
  | NInf | NaN => Return 0%nat
  end.

(** The loop itself: the body is folded over the counter values
    [1 .. iterations bound], in increasing order. *)
Definition for_upto {St : Type} (bound : number)
           (body : nat -> St -> St) (init : St) : outcome St :=
  n <- iterations bound ;;
  Return (fold_left (fun s i => body i s) (seq 1 n) init).

(** The same loop run test by test from the counter value [i], for at most
    [fuel] tests of its condition; [None] when the fuel runs out.  The
    lemma [for_upto_steps] below shows that [for_upto] is what this run
    produces. *)
Fixpoint for_steps {St : Type} (fuel i : nat) (bound : number)
         (body : nat -> St -> St) (s : St) : option St :=
  match fuel with
  | O => None
  | S fuel' =>
      if JS.leb (JS.of_nat i) bound
      then for_steps fuel' (S i) bound body (body i s)
      else Some s
  end.

(** ** Data model *)

(** An element of the array given to the Flexible calculator, seen through
    [parseFloat]: either a number or a string with a numeric prefix
    ([Numeric x], read as [x]), or anything [parseFloat] cannot read, such
    as a blank field, a non-numeric string or [undefined] ([NonNumeric]). *)
Inductive entry : Type :=
| Numeric (x : number)
| NonNumeric.

Definition parseFloat (e : entry) : number :=
  match e with
  | Numeric x => x
  | NonNumeric => NaN
  end.

(** One element of [yearlyBreakdown].  [monthlyAmount] is set by the
    Step-up calculator only and [yearlyInvestment] by the Flexible one. *)
Module Row.
Record t : Type := mk {
  year : nat;
  investment : number;
  value : number;
  returns : number;
  monthlyAmount : option number;
  yearlyInvestment : option number
}.
End Row.

(** The [returns] of a row, under a name of its own beside the [returns] of
    a result. *)
Definition rowReturns : Row.t -> number := Row.returns.

(** The object returned by the three calculators.  The properties that only
    some of them set are optional.  The display label [category] of the
    source object is text for the page and is left out: it is built from
    the category string, which cannot fail (for a call without a category
    see [calculateRegularSIP_call]). *)
Record result : Type := mkResult {
  type : string;
  totalInvestment : number;
  futureValue : number;
  returns : number;
  inflationAdjustedValue : number;
  realReturns : number;
  effectiveRate : number;
  annualRate : number;
  yearlyBreakdown : list Row.t;
  monthlyAmount : option number;
  initialAmount : option number;
  stepUpPercent : option number;
  monthlyAmounts : option (list entry);
  averageMonthlyAmount : option number;
  years : number;
  months : number
}.

(** The object returned by [calculateGoalBasedSIP]. *)
Module GoalSIP.
Record t : Type := mk {
  goalAmount : number;
  requiredMonthlyAmount : number;
  totalInvestment : number;
  returns : number;
  effectiveRate : number;
  annualRate : number;
  years : number;
  months : number;
  category : string
}.
End GoalSIP.

(** The argument of [compareAllSIPTypes]; an absent property is [None]. *)
Module Params.
Record t : Type := mk {
  monthlyAmount : number;
  years : number;
  stepUpPercent : option number;
  inflationRate : option number
}.
End Params.

(** ** Rate table *)

Definition returnRates : list (string * number) :=
  [("large"%string, Num 0.10); ("mid"%string, Num 0.12);
   ("small"%string, Num 0.15)].

(** The own properties of an object literal, searched by key. *)
Fixpoint get {A : Type} (obj : list (string * A)) (key : string) : option A :=
  match obj with
  | [] => None
  | (k, v) :: rest => if String.eqb k key then Some v else get rest key
  end.

(** The properties every object literal inherits from [Object.prototype]:
    its methods and the accessor [__proto__]. *)
Definition Object_prototype : list string :=
  ["constructor"; "hasOwnProperty"; "isPrototypeOf"; "propertyIsEnumerable";
   "toLocaleString"; "toString"; "valueOf"; "__proto__";
   "__defineGetter__"; "__defineSetter__"; "__lookupGetter__";
   "__lookupSetter__"]%string.

Definition inherited (key : string) : bool :=
  existsb (String.eqb key) Object_prototype.

(** What [obj[key]] finds in an object literal: an own property, else a
    property inherited from [Object.prototype] (a function, or the
    prototype object itself for [__proto__]), else [undefined]. *)
Inductive property (A : Type) : Type :=
| Own (a : A)
| Inherited
| Undefined.

Arguments Own {A} a.
Arguments Inherited {A}.
Arguments Undefined {A}.

Definition lookup {A : Type} (obj : list (string * A)) (key : string)
  : property A :=
  match get obj key with
  | Some a => Own a
  | None => if inherited key then Inherited else Undefined
  end.

(** [v || d], read as a number.  An inherited function or object is truthy,
    so that [||] keeps it; the calculators use the result in arithmetic
    only ([/ 12] and [* 100]), where it converts to [NaN]. *)
Definition or_default (v : property number) (d : number) : number :=
  match v with
  | Own x => JS.or x d
  | Inherited => NaN
  | Undefined => d
  end.

(** The annual rate of a category, [returnRates[category] || 0.12]. *)
Definition rateOf (category : string) : number :=
  or_default (lookup returnRates category) 0.12.

(** Default value of a destructured property. *)
Definition default_to (v : option number) (d : number) : number :=
  match v with
  | Some x => x
  | None => d
  end.

Open Scope js_scope.

(** ** Effective annual rate *)

Definition calculateEffectiveRate (totalValue totalInvestment years : number)
  : number :=
  if (totalInvestment <=? 0) || (years <=? 0) then 0
  else (JS.Math_pow (totalValue / totalInvestment) (1 / years) - 1) * 100.

(** ** Regular SIP *)

Definition calculateRegularSIP (monthlyAmount years : number)
           (category : string) (inflationRate : number) : outcome result :=
  let months := years * 12 in
  let annualRate := or_default (lookup returnRates category) 0.12 in
  let monthlyRate := annualRate / 12 in
  let futureValue :=
    monthlyAmount
    * ((JS.Math_pow (1 + monthlyRate) months - 1) / monthlyRate)
    * (1 + monthlyRate) in
  let totalInvestment := monthlyAmount * months in
  let returns := futureValue - totalInvestment in
  let '(inflationAdjustedValue, realReturns) :=
    if inflationRate >? 0 then
      let inflationFactor := JS.Math_pow (1 + inflationRate / 100) years in
      let inflationAdjustedValue := futureValue / inflationFactor in
      (inflationAdjustedValue, inflationAdjustedValue - totalInvestment)
    else (futureValue, returns) in
  let effectiveRate :=
    calculateEffectiveRate futureValue totalInvestment years in
  yearlyBreakdown <-
    for_upto years
      (fun year yearlyBreakdown =>
         let monthsCompleted := #year * 12 in
         let cumulativeInvestment := monthlyAmount * monthsCompleted in
         let cumulativeValue :=
           monthlyAmount
           * ((JS.Math_pow (1 + monthlyRate) monthsCompleted - 1) / monthlyRate)
           * (1 + monthlyRate) in
         yearlyBreakdown ++
           [Row.mk year cumulativeInvestment cumulativeValue
                   (cumulativeValue - cumulativeInvestment) None None])
      [] ;;
  Return {|
    type := "Regular SIP";
    totalInvestment := totalInvestment;
    futureValue := futureValue;
    returns := returns;
    inflationAdjustedValue := inflationAdjustedValue;
    realReturns := realReturns;
    effectiveRate := effectiveRate;
    annualRate := annualRate * 100;
    yearlyBreakdown := yearlyBreakdown;
    monthlyAmount := Some monthlyAmount;
    initialAmount := None;
    stepUpPercent := None;
    monthlyAmounts := None;
    averageMonthlyAmount := None;
    years := years;
    months := months
  |}.

(** ** Step-up SIP *)

Definition calculateStepUpSIP
           (initialAmount years stepUpPercent inflationRate : number)
  : outcome result :=
  let months := years * 12 in
  let annualRate : number := 0.15 in
  let monthlyRate := annualRate / 12 in
  let stepUpDecimal := stepUpPercent / 100 in
  (* month by month; the state is
     (totalInvestment, futureValue, currentAmount) *)
  totals <-
    for_upto months
      (fun month '(totalInvestment, futureValue, currentAmount) =>
         let monthsRemaining := months - #month + 1 in
         let futureValue :=
           futureValue
           + currentAmount * JS.Math_pow (1 + monthlyRate) monthsRemaining in
         let totalInvestment := totalInvestment + currentAmount in
         let currentAmount :=
           if (month mod 12 =? 0)%nat && (#month <? months)
           then currentAmount * (1 + stepUpDecimal)
           else currentAmount in
         (totalInvestment, futureValue, currentAmount))
      (Num 0, Num 0, initialAmount) ;;
  let '(totalInvestment, futureValue, _) := totals in
  let returns := futureValue - totalInvestment in
  let '(inflationAdjustedValue, realReturns) :=
    if inflationRate >? 0 then
      let inflationFactor := JS.Math_pow (1 + inflationRate / 100) years in
      let inflationAdjustedValue := futureValue / inflationFactor in
      (inflationAdjustedValue, inflationAdjustedValue - totalInvestment)
    else (futureValue, returns) in
  let effectiveRate :=
    calculateEffectiveRate futureValue totalInvestment years in
  (* year-wise breakdown; the state is
     (cumulativeInvestment, cumulativeValue, yearlyAmount, yearlyBreakdown) *)
  breakdown <-
    for_upto years
      (fun year '(cumulativeInvestment, cumulativeValue, yearlyAmount,
                  yearlyBreakdown) =>
         let '(cumulativeInvestment, cumulativeValue) :=
           fold_left
             (fun '(cumulativeInvestment, cumulativeValue) month =>
                let totalMonthsFromStart := ((year - 1) * 12 + month)%nat in
                if #totalMonthsFromStart <=? months then
                  let monthsRemaining :=
                    months - #totalMonthsFromStart + 1 in
                  (cumulativeInvestment + yearlyAmount,
                   cumulativeValue
                   + yearlyAmount
                     * JS.Math_pow (1 + monthlyRate) monthsRemaining)
                else (cumulativeInvestment, cumulativeValue))
             (seq 1 12) (cumulativeInvestment, cumulativeValue) in
         let yearlyBreakdown :=
           yearlyBreakdown ++
             [Row.mk year cumulativeInvestment cumulativeValue
                     (cumulativeValue - cumulativeInvestment)
                     (Some yearlyAmount) None] in
         let yearlyAmount :=
           if #year <? years then yearlyAmount * (1 + stepUpDecimal)
           else yearlyAmount in
         (cumulativeInvestment, cumulativeValue, yearlyAmount,
          yearlyBreakdown))
      (Num 0, Num 0, initialAmount, []) ;;
  let '(_, _, _, yearlyBreakdown) := breakdown in
  Return {|
    type := "Step-up SIP";
    totalInvestment := totalInvestment;
    futureValue := futureValue;
    returns := returns;
    inflationAdjustedValue := inflationAdjustedValue;
    realReturns := realReturns;
    effectiveRate := effectiveRate;
    annualRate := annualRate * 100;
    yearlyBreakdown := yearlyBreakdown;
    monthlyAmount := None;
    initialAmount := Some initialAmount;
    stepUpPercent := Some stepUpPercent;
    monthlyAmounts := None;
    averageMonthlyAmount := None;
    years := years;
    months := months
  |}.

(** ** Flexible SIP *)

(** [arr.forEach((x, index) => ...)]: the callback sees the elements in
    order, each with its index. *)
Definition forEach {A St : Type} (arr : list A) (f : A -> nat -> St -> St)
           (init : St) : St :=
  fold_left (fun s '(index, x) => f x index s)
            (combine (seq 0 (List.length arr)) arr) init.

(** [arr[i]]; out of range it is [undefined], which [parseFloat] cannot
    read. *)
Definition at_index (arr : list entry) (i : nat) : entry :=
  nth i arr NonNumeric.

Definition calculateFlexibleSIP (monthlyAmounts : list entry)
           (inflationRate : number) : outcome result :=
  let months := List.length monthlyAmounts in
  let years := #months / 12 in
  let annualRate : number := 0.12 in
  let monthlyRate := annualRate / 12 in
  (* month by month; the state is (totalInvestment, futureValue) *)
  let '(totalInvestment, futureValue) :=
    forEach monthlyAmounts
      (fun amount index '(totalInvestment, futureValue) =>
         let monthlyAmount := JS.or (parseFloat amount) 0 in
         let monthsRemaining := #months - #index in
         if monthlyAmount >? 0 then
           (totalInvestment + monthlyAmount,
            futureValue
            + monthlyAmount * JS.Math_pow (1 + monthlyRate) monthsRemaining)
         else (totalInvestment, futureValue))
      (Num 0, Num 0) in
  let returns := futureValue - totalInvestment in
  let '(inflationAdjustedValue, realReturns) :=
    if inflationRate >? 0 then
      let inflationFactor := JS.Math_pow (1 + inflationRate / 100) years in
      let inflationAdjustedValue := futureValue / inflationFactor in
      (inflationAdjustedValue, inflationAdjustedValue - totalInvestment)
    else (futureValue, returns) in
  let effectiveRate :=
    calculateEffectiveRate futureValue totalInvestment years in
  (* year-wise breakdown; the state is
     (cumulativeInvestment, cumulativeValue, yearlyBreakdown) *)
  breakdown <-
    for_upto (JS.Math_ceil years)
      (fun year '(cumulativeInvestment, cumulativeValue, yearlyBreakdown) =>
         let startMonth := ((year - 1) * 12)%nat in
         let endMonth := Nat.min (year * 12) months in
         let '(cumulativeInvestment, cumulativeValue, yearlyInvestment) :=
           fold_left
             (fun '(cumulativeInvestment, cumulativeValue, yearlyInvestment)
                  month =>
                let monthlyAmount :=
                  JS.or (parseFloat (at_index monthlyAmounts month)) 0 in
                let monthsRemaining := #months - #month in
                if monthlyAmount >? 0 then
                  (cumulativeInvestment + monthlyAmount,
                   cumulativeValue
                   + monthlyAmount
                     * JS.Math_pow (1 + monthlyRate) monthsRemaining,
                   yearlyInvestment + monthlyAmount)
                else (cumulativeInvestment, cumulativeValue,
                      yearlyInvestment))
             (seq startMonth (endMonth - startMonth))
             (cumulativeInvestment, cumulativeValue, Num 0) in
         (cumulativeInvestment, cumulativeValue,
          yearlyBreakdown ++
            [Row.mk year cumulativeInvestment cumulativeValue
                    (cumulativeValue - cumulativeInvestment)
                    None (Some yearlyInvestment)]))
      (Num 0, Num 0, []) ;;
  let '(_, _, yearlyBreakdown) := breakdown in
  let averageMonthlyAmount := totalInvestment / #months in
  Return {|
    type := "Flexible SIP";
    totalInvestment := totalInvestment;
    futureValue := futureValue;
    returns := returns;
    inflationAdjustedValue := inflationAdjustedValue;
    realReturns := realReturns;
    effectiveRate := effectiveRate;
    annualRate := annualRate * 100;
    yearlyBreakdown := yearlyBreakdown;
    monthlyAmount := None;
    initialAmount := None;
    stepUpPercent := None;
    monthlyAmounts := Some monthlyAmounts;
    averageMonthlyAmount := Some averageMonthlyAmount;
    years := years;
    months := #months
  |}.

(** ** Goal-based SIP *)

Definition calculateGoalBasedSIP (goalAmount years : number)
           (category : string) : GoalSIP.t :=
  let months := years * 12 in
  let annualRate := or_default (lookup returnRates category) 0.12 in
  let monthlyRate := annualRate / 12 in
  let factor :=
    ((JS.Math_pow (1 + monthlyRate) months - 1) / monthlyRate)
    * (1 + monthlyRate) in
  let requiredMonthlyAmount := goalAmount / factor in
  let totalInvestment := requiredMonthlyAmount * months in
  let returns := goalAmount - totalInvestment in
  let effectiveRate :=
    calculateEffectiveRate goalAmount totalInvestment years in
  {| GoalSIP.goalAmount := goalAmount;
     GoalSIP.requiredMonthlyAmount := requiredMonthlyAmount;
     GoalSIP.totalInvestment := totalInvestment;
     GoalSIP.returns := returns;
     GoalSIP.effectiveRate := effectiveRate;
     GoalSIP.annualRate := annualRate * 100;
     GoalSIP.years := years;
     GoalSIP.months := months;
     GoalSIP.category := category |}.

(** ** Comparison of all SIP types *)

(** [Array(len).fill(v)]: an array of [len] copies of [v]; [Array] throws a
    [RangeError] unless [len] is an integer between 0 and 2^32 - 1. *)
Definition Array_fill {A : Type} (len : number) (v : A) : outcome (list A) :=
  match len with
  | Num x =>
      if JS.is_integer x && (0 <=? Zfloor x)%Z && (Zfloor x <? 2 ^ 32)%Z
      then Return (repeat v (Z.to_nat (Zfloor x)))
      else Throw "RangeError: Invalid array length"
  | _ => Throw "RangeError: Invalid array length"
  end.

Definition compareAllSIPTypes (baseParams : Params.t)
  : outcome (list result) :=
  let monthlyAmount := Params.monthlyAmount baseParams in
  let years := Params.years baseParams in
  let stepUpPercent := default_to (Params.stepUpPercent baseParams) 10 in
  let inflationRate := default_to (Params.inflationRate baseParams) 0 in
  let results : list result := [] in
  (* Regular SIP for all categories *)
  results <-
    fold_left
      (fun acc category =>
         results <- acc ;;
         result <-
           calculateRegularSIP monthlyAmount years category inflationRate ;;
         Return (results ++ [result]))
      ["large"; "mid"; "small"]%string (Return results) ;;
  (* Step-up SIP *)
  stepUpResult <-
    calculateStepUpSIP monthlyAmount years stepUpPercent inflationRate ;;
  let results := results ++ [stepUpResult] in
  (* Flexible SIP (simulated with regular amounts) *)
  flexibleAmounts <- Array_fill (years * 12) (Numeric monthlyAmount) ;;
  flexibleResult <- calculateFlexibleSIP flexibleAmounts inflationRate ;;
  let results := results ++ [flexibleResult] in
  Return results.

(** ** Tax implications *)

(** [Math.max(a, b)]: [NaN] when either argument is [NaN]. *)
Definition Math_max (a b : number) : number :=
  match a, b with
  | NaN, _ | _, NaN => NaN
  | _, _ => if a <? b then b else a
  end.

(** The object returned by [calculateTaxImplications]. *)
Module Tax.
Record t : Type := mk {
  grossReturns : number;
  taxableAmount : number;
  taxRate : number;
  taxAmount : number;
  postTaxReturns : number;
  fundType : string;
  isLongTerm : bool
}.
End Tax.

(** [fundType] is optional and defaults to ['equity']. *)
Definition calculateTaxImplications (returns years : number)
           (fundType : option string) : Tax.t :=
  let fundType :=
    match fundType with Some s => s | None => "equity"%string end in
  let '(taxableAmount, taxRate) :=
    if String.eqb fundType "equity" then
      if years >? 1 then
        (* long-term capital gains for equity, 1 lakh exempt *)
        (Math_max 0 (returns - 100000), Num 0.10)
      else
        (* short-term capital gains for equity *)
        (returns, Num 0.15)
    else
      (* debt funds *)
      if years >? 3 then (returns, Num 0.30) else (returns, Num 0.30) in
  let taxAmount := taxableAmount * taxRate in
  let postTaxReturns := returns - taxAmount in
  {| Tax.grossReturns := returns;
     Tax.taxableAmount := taxableAmount;
     Tax.taxRate := taxRate * 100;
     Tax.taxAmount := taxAmount;
     Tax.postTaxReturns := postTaxReturns;
     Tax.fundType := fundType;
     Tax.isLongTerm :=
       (String.eqb fundType "equity" && (years >? 1))
       || (String.eqb fundType "debt" && (years >? 3)) |}.

(** ** Compound interest *)

(** [compoundingFrequency] is optional and defaults to 12. *)
Definition calculateCompoundInterest (principal rate time : number)
           (compoundingFrequency : option number) : number :=
  let compoundingFrequency := default_to compoundingFrequency 12 in
  principal
  * JS.Math_pow (1 + rate / compoundingFrequency) (compoundingFrequency * time).

(** ** Form validation ([js/validation.js]) *)

(** A value of the form as the validation sees it: the empty string, [null]
    or [undefined] ([Empty]), or any other value, which is then read with
    [parseFloat] as an [entry] is. *)
Inductive formValue : Type :=
| Empty
| Filled (e : entry).

Definition isEmpty (v : formValue) : bool :=
  match v with
  | Empty => true
  | Filled _ => false
  end.

(** [parseFloat] of a form value; nothing can be read from an empty one. *)
Definition parseValue (v : formValue) : number :=
  match v with
  | Empty => NaN
  | Filled e => parseFloat e
  end.

(** What the Flexible calculator finds at that place of the array. *)
Definition toEntry (v : formValue) : entry :=
  match v with
  | Empty => NonNumeric
  | Filled e => e
  end.

Definition isNaN (a : number) : bool :=
  match a with
  | NaN => true
  | _ => false
  end.

Module Rule.
Record t : Type := mk {
  required : bool;
  min : option number;
  max : option number;
  message : string
}.
End Rule.

Definition validationRules : list (string * Rule.t) :=
  [("monthlyAmount",
    Rule.mk true (Some (Num 500)) (Some (Num 1000000))
            "Monthly amount must be between ₹500 and ₹10,00,000");
   ("years",
    Rule.mk true (Some (Num 1)) (Some (Num 50))
            "Investment period must be between 1 and 50 years");
   ("stepUpPercent",
    Rule.mk true (Some (Num 1)) (Some (Num 50))
            "Step-up percentage must be between 1% and 50%");
   ("flexibleMonths",
    Rule.mk true (Some (Num 6)) (Some (Num 600))
            "Investment period must be between 6 and 600 months");
   ("inflationRate",
    Rule.mk false (Some (Num 0)) (Some (Num 20))
            "Inflation rate must be between 0% and 20%");
   ("goalAmount",
    Rule.mk false (Some (Num 0)) (Some (Num 100000000))
            "Goal amount must be less than ₹10 crores")]%string.

(** [name.replace(/([A-Z])/g, ' $1').toLowerCase()] on an ASCII name: a
    space goes before every capital letter, which is then lowered. *)
Definition isUpper (c : ascii) : bool :=
  (65 <=? nat_of_ascii c)%nat && (nat_of_ascii c <=? 90)%nat.

Fixpoint spacedLower (s : string) : string :=
  match s with
  | EmptyString => EmptyString
  | String c rest =>
      if isUpper c
      then String " " (String (ascii_of_nat (nat_of_ascii c + 32))
                              (spacedLower rest))
      else String c (spacedLower rest)
  end.

(** The object returned by [validateField]; [message] is absent when the
    field has no rule. *)
Module Field.
Record t : Type := mk {
  isValid : bool;
  message : option string
}.
End Field.

(** An inherited function or object read as a rule: none of [required],
    [min], [max] and [message] is defined in it. *)
Definition inheritedRule : Rule.t := Rule.mk false None None EmptyString.

(** [validationRules[fieldName]], [None] when it is [undefined]. *)
Definition ruleOf (fieldName : string) : option Rule.t :=
  match lookup validationRules fieldName with
  | Own rule => Some rule
  | Inherited => Some inheritedRule
  | Undefined => None
  end.

(** Every rule of the table has a message, and a rule without a message
    has no bounds either, so that the fallback texts of
    [rule.message || ...] are never built. *)
Definition validateField (fieldName : string) (value : formValue) : Field.t :=
  match ruleOf fieldName with
  | None => Field.mk true None
  | Some rule =>
      (* check if required *)
      if Rule.required rule && isEmpty value then
        Field.mk false (Some (spacedLower fieldName ++ " is required")%string)
      (* skip further validation if not required and empty *)
      else if negb (Rule.required rule) && isEmpty value then
        Field.mk true (Some ""%string)
      else
        let numValue := parseValue value in
        if isNaN numValue then
          Field.mk false (Some "Please enter a valid number"%string)
        else if match Rule.min rule with
                | Some min => numValue <? min
                | None => false
                end
        then Field.mk false (Some (Rule.message rule))
        else if match Rule.max rule with
                | Some max => numValue >? max
                | None => false
                end
        then Field.mk false (Some (Rule.message rule))
        else Field.mk true (Some ""%string)
  end.

(** The object returned by [validateFlexibleAmounts]; an element of
    [invalidMonths] is a month number with its message. *)
Module Amounts.
Record t : Type := mk {
  isValid : bool;
  message : string;
  invalidMonths : list (nat * string)
}.
End Amounts.

(** Decimal text of a month number. *)
Definition monthText (n : nat) : string :=
  NilEmpty.string_of_uint (Nat.to_uint n).

(** [amounts] is [None] when the property is absent. *)
Definition validateFlexibleAmounts (amounts : option (list formValue))
  : Amounts.t :=
  match amounts with
  | None | Some [] =>
      Amounts.mk false "Please enter at least one monthly amount"%string []
  | Some amounts =>
      (* the state is (invalidMonths, hasValidAmount) *)
      let '(invalidMonths, hasValidAmount) :=
        forEach amounts
          (fun amount index '(invalidMonths, hasValidAmount) =>
             let numAmount := parseValue amount in
             if negb (isEmpty amount) then
               if isNaN numAmount then
                 (invalidMonths ++ [((index + 1)%nat, "Invalid number"%string)],
                  hasValidAmount)
               else if numAmount <? 0 then
                 (invalidMonths
                    ++ [((index + 1)%nat, "Amount cannot be negative"%string)],
                  hasValidAmount)
               else if numAmount >? 1000000 then
                 (invalidMonths
                    ++ [((index + 1)%nat,
                         "Amount too large (max ₹10,00,000)"%string)],
                  hasValidAmount)
               else if numAmount >? 0 then (invalidMonths, true)
               else (invalidMonths, hasValidAmount)
             else (invalidMonths, hasValidAmount))
          ([], false) in
      if negb hasValidAmount then
        Amounts.mk false
          "Please enter at least one valid investment amount"%string
          invalidMonths
      else if (0 <? List.length invalidMonths)%nat then
        Amounts.mk false
          ("Please fix errors in months: "
           ++ String.concat ", " (map (fun m => monthText (fst m))
                                      invalidMonths))%string
          invalidMonths
      else Amounts.mk true ""%string invalidMonths
  end.

(** The form data: [sipType], the fields of the three forms and the two
    advanced fields; a field the form does not hold is [Empty], and
    [investmentCategory] is [None] when the form holds no category. *)
Module Form.
Record t : Type := mk {
  sipType : string;
  monthlyAmount : formValue;
  years : formValue;
  investmentCategory : option string;
  stepupMonthlyAmount : formValue;
  stepupYears : formValue;
  stepUpPercent : formValue;
  flexibleMonths : formValue;
  flexibleAmounts : option (list formValue);
  inflationRate : formValue;
  goalAmount : formValue
}.
End Form.

(** The object returned by [validateForm]; [errors] lists the properties
    set on the [errors] object, in the order they are set. *)
Module Validation.
Record t : Type := mk {
  isValid : bool;
  errors : list (string * option string)
}.
End Validation.

(** One field check of [validateForm]: on failure the result becomes
    invalid and the message is stored under [key]. *)
Definition checkField (fieldName key : string) (value : formValue)
           (result : Validation.t) : Validation.t :=
  let validation := validateField fieldName value in
  if negb (Field.isValid validation) then
    Validation.mk false
                  (Validation.errors result
                     ++ [(key, Field.message validation)])
  else result.

Definition validateForm (formData : Form.t) : Validation.t :=
  let result := Validation.mk true [] in
  let sipType := Form.sipType formData in
  let result :=
    if String.eqb sipType "regular" then
      let result :=
        checkField "monthlyAmount" "monthlyAmount"
                   (Form.monthlyAmount formData) result in
      checkField "years" "years" (Form.years formData) result
    else result in
  let result :=
    if String.eqb sipType "stepup" then
      let result :=
        checkField "monthlyAmount" "stepupMonthlyAmount"
                   (Form.stepupMonthlyAmount formData) result in
      let result :=
        checkField "years" "stepupYears" (Form.stepupYears formData)
                   result in
      checkField "stepUpPercent" "stepUpPercent"
                 (Form.stepUpPercent formData) result
    else result in
  let result :=
    if String.eqb sipType "flexible" then
      let result :=
        checkField "flexibleMonths" "flexibleMonths"
                   (Form.flexibleMonths formData) result in
      let amountsValidation :=
        validateFlexibleAmounts (Form.flexibleAmounts formData) in
      if negb (Amounts.isValid amountsValidation) then
        Validation.mk false
                      (Validation.errors result
                         ++ [("flexibleAmounts"%string,
                              Some (Amounts.message amountsValidation))])
      else result
    else result in
  (* advanced field validations *)
  let result :=
    if negb (isEmpty (Form.inflationRate formData)) then
      checkField "inflationRate" "inflationRate"
                 (Form.inflationRate formData) result
    else result in
  let result :=
    if negb (isEmpty (Form.goalAmount formData)) then
      checkField "goalAmount" "goalAmount" (Form.goalAmount formData) result
    else result in
  result.

(** ** The calculation behind the form ([js/main.js]) *)

(** [calculateRegularSIP] called with a category that may be [undefined].
    The rate lookup then reads the key "undefined", and the calculation
    runs as for that name until the returned object is built, where the
    label [category.charAt(0)] throws a [TypeError]. *)
Definition calculateRegularSIP_call (monthlyAmount years : number)
           (category : option string) (inflationRate : number)
  : outcome result :=
  match category with
  | Some category =>
      calculateRegularSIP monthlyAmount years category inflationRate
  | None =>
      _ <- calculateRegularSIP monthlyAmount years "undefined"
                               inflationRate ;;
      Throw "TypeError: Cannot read properties of undefined"
  end.

(** The value [performCalculation] computes in its [try] block and stores
    as the current calculation.  The display of the result is not modelled;
    [Throw] stands for an error that the [catch] block reports to the
    user. *)
Definition performCalculation (formData : Form.t) : outcome result :=
  let sipType := Form.sipType formData in
  let inflationRate := JS.or (parseValue (Form.inflationRate formData)) 0 in
  if String.eqb sipType "regular" then
    calculateRegularSIP_call (parseValue (Form.monthlyAmount formData))
                             (parseValue (Form.years formData))
                             (Form.investmentCategory formData)
                             inflationRate
  else if String.eqb sipType "stepup" then
    calculateStepUpSIP (parseValue (Form.stepupMonthlyAmount formData))
                       (parseValue (Form.stepupYears formData))
                       (parseValue (Form.stepUpPercent formData))
                       inflationRate
  else if String.eqb sipType "flexible" then
    match Form.flexibleAmounts formData with
    | Some amounts => calculateFlexibleSIP (map toEntry amounts) inflationRate
    | None =>
        Throw "TypeError: Cannot read properties of undefined"
    end
  else Throw "Calculation failed".

(** ** Double-precision arithmetic

    The calculators are read above over exact numbers.  Where the source
    computes one quantity along two paths, the two doubles can differ in
    their last digits; to exhibit that, the operations are given here with
    the rounding of binary64 (to nearest, ties to even), and the totals of
    the Step-up and of the Regular calculator are read over them. *)

Module Binary64.

(** A finite double [mantissa * 2^exponent]: zero, or a mantissa of 53 bits
    (up to sign) with an exponent in the normal range. *)
Record float : Type := mk { mantissa : Z; exponent : Z }.

(** A double, or [None] for a result this model does not cover: a
    subnormal or an infinite one, or [NaN]. *)
Definition double : Type := option float.

Definition zero : double := Some (mk 0 0).

(** [a / (d * 2^e)] as a fraction of two integers. *)
Definition scale (a d e : Z) : Z * Z :=
  if (0 <=? e)%Z then (a, d * 2 ^ e)%Z else (a * 2 ^ (- e), d)%Z.

(** The exponent [e] that brings [a / d] into the range of a 53-bit
    mantissa: [2^52 <= a / (d * 2^e) < 2^53]. *)
Definition binade (a d : Z) : Z :=
  let e0 := (Z.log2 a - Z.log2 d - 52)%Z in
  let '(N, D) := scale a d e0 in
  if (N / D <? 2 ^ 52)%Z then (e0 - 1)%Z else e0.

(** The integer nearest to [N / D]; of two that are equally near, the even
    one. *)
Definition nearest (N D : Z) : Z :=
  let q := (N / D)%Z in
  let r := (N mod D)%Z in
  if (D <? 2 * r)%Z || ((D =? 2 * r)%Z && Z.odd q) then (q + 1)%Z else q.

(** The double nearest to the rational [n / d]. *)
Definition round (n d : Z) : double :=
  if (d <=? 0)%Z then None
  else if (n =? 0)%Z then zero
  else
    let a := Z.abs n in
    let e := binade a d in
    let '(N, D) := scale a d e in
    let m := nearest N D in
    let '(m, e) :=
      if (m =? 2 ^ 53)%Z then (2 ^ 52, e + 1)%Z else (m, e) in
    if (-1074 <=? e)%Z && (e <=? 971)%Z
    then Some (mk (Z.sgn n * m) e) else None.

(** The value of a double as a fraction. *)
Definition numerator (x : float) : Z :=
  if (0 <=? exponent x)%Z then (mantissa x * 2 ^ exponent x)%Z
  else mantissa x.

Definition denominator (x : float) : Z :=
  if (0 <=? exponent x)%Z then 1%Z else (2 ^ (- exponent x))%Z.

Definition lift2 (f : float -> float -> double) (x y : double) : double :=
  match x, y with
  | Some a, Some b => f a b
  | _, _ => None
  end.

Definition add : double -> double -> double :=
  lift2 (fun x y =>
           round (numerator x * denominator y + numerator y * denominator x)
                 (denominator x * denominator y)).

Definition sub : double -> double -> double :=
  lift2 (fun x y =>
           round (numerator x * denominator y - numerator y * denominator x)
                 (denominator x * denominator y)).

Definition mul : double -> double -> double :=
  lift2 (fun x y =>
           round (numerator x * numerator y)
                 (denominator x * denominator y)).

(** A division by zero is not finite: [round] gives [None]. *)
Definition div : double -> double -> double :=
  lift2 (fun x y =>
           round (Z.sgn (numerator y) * numerator x * denominator y)
                 (denominator x * Z.abs (numerator y))).

(** [Math.pow] for a whole exponent.  The language leaves the precision of
    [Math.pow] to the implementation; it is taken as correctly rounded, as
    the other operations are. *)
Definition pow (x : double) (n : nat) : double :=
  match x with
  | Some x => round (numerator x ^ Z.of_nat n) (denominator x ^ Z.of_nat n)
  | None => None
  end.

(** A whole number, and the decimal literal [n / d]. *)
Definition of_Z (z : Z) : double := round z 1.

Definition literal (n d : Z) : double := round n d.

(** Comparison of a double with the rational [n / d], for [0 < d]. *)
Definition compare_rational (x : double) (n d : Z) : option comparison :=
  match x with
  | Some x => Some (numerator x * d ?= n * denominator x)%Z
  | None => None
  end.

(** The totals [(totalInvestment, futureValue)] of [calculateStepUpSIP] for
    a whole number of years, so that the month count and the months that
    remain are whole numbers. *)
Definition calculateStepUpSIP (initialAmount : double) (years : nat)
           (stepUpPercent : double) : double * double :=
  let months := (years * 12)%nat in
  let annualRate := literal 15 100 in
  let monthlyRate := div annualRate (of_Z 12) in
  let stepUpDecimal := div stepUpPercent (of_Z 100) in
  let '(totalInvestment, futureValue, _) :=
    fold_left
      (fun '(totalInvestment, futureValue, currentAmount) month =>
         let monthsRemaining := (months - month + 1)%nat in
         let futureValue :=
           add futureValue
               (mul currentAmount
                    (pow (add (of_Z 1) monthlyRate) monthsRemaining)) in
         let totalInvestment := add totalInvestment currentAmount in
         let currentAmount :=
           if (month mod 12 =? 0)%nat && (month <? months)%nat
           then mul currentAmount (add (of_Z 1) stepUpDecimal)
           else currentAmount in
         (totalInvestment, futureValue, currentAmount))
      (seq 1 months) (zero, zero, initialAmount) in
  (totalInvestment, futureValue).

(** The totals of [calculateRegularSIP] at the annual rate [annualRate],
    for a whole number of years. *)
Definition calculateRegularSIP (monthlyAmount : double) (years : nat)
           (annualRate : double) : double * double :=
  let months := (years * 12)%nat in
  let monthlyRate := div annualRate (of_Z 12) in
  let futureValue :=
    mul (mul monthlyAmount
             (div (sub (pow (add (of_Z 1) monthlyRate) months) (of_Z 1))
                  monthlyRate))
        (add (of_Z 1) monthlyRate) in
  let totalInvestment := mul monthlyAmount (of_Z (Z.of_nat months)) in
  (totalInvestment, futureValue).

End Binary64.

(** ** Loop bodies

    The bodies of the month loops, named so that the loops can be reasoned
    about; the calculators above unfold to these. *)

(** One step of the [forEach] of the Flexible calculator, on the state
    [(totalInvestment, futureValue)]. *)
Definition flexibleMonth (months : nat) (st : number * number)
           (ie : nat * entry) : number * number :=
  let '(index, amount) := ie in
  let '(totalInvestment, futureValue) := st in
  let monthlyAmount := JS.or (parseFloat amount) 0 in
  let monthsRemaining := #months - #index in
  if monthlyAmount >? 0 then
    (totalInvestment + monthlyAmount,
     futureValue
     + monthlyAmount * JS.Math_pow (1 + Num 0.12 / 12) monthsRemaining)
  else (totalInvestment, futureValue).

(** One month of the year-wise loop of the Flexible calculator, on the
    state [(cumulativeInvestment, cumulativeValue, yearlyInvestment)]. *)
Definition flexibleYearMonth (monthlyAmounts : list entry)
  : number * number * number -> nat -> number * number * number :=
  fun '(cumulativeInvestment, cumulativeValue, yearlyInvestment) month =>
  let months := List.length monthlyAmounts in
  let monthlyAmount := JS.or (parseFloat (at_index monthlyAmounts month)) 0 in
  let monthsRemaining := #months - #month in
  if monthlyAmount >? 0 then
    (cumulativeInvestment + monthlyAmount,
     cumulativeValue
     + monthlyAmount * JS.Math_pow (1 + Num 0.12 / 12) monthsRemaining,
     yearlyInvestment + monthlyAmount)
  else (cumulativeInvestment, cumulativeValue, yearlyInvestment).

(** One year of that loop, on the state
    [(cumulativeInvestment, cumulativeValue, yearlyBreakdown)]. *)
Definition flexibleYear (monthlyAmounts : list entry) (year : nat)
           (st : number * number * list Row.t)
  : number * number * list Row.t :=
  let '(cumulativeInvestment, cumulativeValue, yearlyBreakdown) := st in
  let months := List.length monthlyAmounts in
  let startMonth := ((year - 1) * 12)%nat in
  let endMonth := Nat.min (year * 12) months in
  let '(cumulativeInvestment, cumulativeValue, yearlyInvestment) :=
    fold_left (flexibleYearMonth monthlyAmounts)
              (seq startMonth (endMonth - startMonth))
              (cumulativeInvestment, cumulativeValue, Num 0) in
  (cumulativeInvestment, cumulativeValue,
   yearlyBreakdown ++
     [Row.mk year cumulativeInvestment cumulativeValue
             (cumulativeValue - cumulativeInvestment)
             None (Some yearlyInvestment)]).

(** One month of the month loop of the Step-up calculator, on the state
    [(totalInvestment, futureValue, currentAmount)]. *)
Definition stepUpMonth (months stepUpDecimal : number) (month : nat)
  : number * number * number -> number * number * number :=
  fun '(totalInvestment, futureValue, currentAmount) =>
  let monthsRemaining := months - #month + 1 in
  let futureValue :=
    futureValue
    + currentAmount * JS.Math_pow (1 + Num 0.15 / 12) monthsRemaining in
  let totalInvestment := totalInvestment + currentAmount in
  let currentAmount :=
    if (month mod 12 =? 0)%nat && (#month <? months)
    then currentAmount * (1 + stepUpDecimal)
    else currentAmount in
  (totalInvestment, futureValue, currentAmount).

(** One month of the year-wise loop of the Step-up calculator, on the
    state [(cumulativeInvestment, cumulativeValue)]. *)
Definition stepUpYearMonth (months yearlyAmount : number) (year : nat)
  : number * number -> nat -> number * number :=
  fun '(cumulativeInvestment, cumulativeValue) month =>
  let totalMonthsFromStart := ((year - 1) * 12 + month)%nat in
  if #totalMonthsFromStart <=? months then
    let monthsRemaining := months - #totalMonthsFromStart + 1 in
    (cumulativeInvestment + yearlyAmount,
     cumulativeValue
     + yearlyAmount * JS.Math_pow (1 + Num 0.15 / 12) monthsRemaining)
  else (cumulativeInvestment, cumulativeValue).

(** One year of that loop, on the state
    [(cumulativeInvestment, cumulativeValue, yearlyAmount,
      yearlyBreakdown)]. *)
Definition stepUpYear (years stepUpDecimal : number) (year : nat)
  : number * number * number * list Row.t
    -> number * number * number * list Row.t :=
  fun '(cumulativeInvestment, cumulativeValue, yearlyAmount,
        yearlyBreakdown) =>
  let months := years * 12 in
  let '(cumulativeInvestment, cumulativeValue) :=
    fold_left (stepUpYearMonth months yearlyAmount year) (seq 1 12)
              (cumulativeInvestment, cumulativeValue) in
  let yearlyBreakdown :=
    yearlyBreakdown ++
      [Row.mk year cumulativeInvestment cumulativeValue
              (cumulativeValue - cumulativeInvestment)
              (Some yearlyAmount) None] in
  let yearlyAmount :=
    if #year <? years then yearlyAmount * (1 + stepUpDecimal)
    else yearlyAmount in
  (cumulativeInvestment, cumulativeValue, yearlyAmount, yearlyBreakdown).

(** The step of the Flexible month loop for the element at index [m]. *)
Definition flexibleMonthAt (monthlyAmounts : list entry)
           (st : number * number) (m : nat) : number * number :=
  flexibleMonth (List.length monthlyAmounts) st (m, at_index monthlyAmounts m).

(** * Reference quantities

    The closed forms the calculators are compared with, over the reals. *)

(** The annual rate the table gives for a category, as a real number. *)
Definition annualRateOf (category : string) : R :=
  if String.eqb "large" category then 0.10
  else if String.eqb "mid" category then 0.12
  else if String.eqb "small" category then 0.15
  else 0.12.

(** The periodic rate: the annual rate of the table divided by 12. *)
Definition monthlyRateOf (category : string) : R :=
  (annualRateOf category / 12)%R.

(** The annuity-due factor [((1+r)^n - 1)/r * (1+r)]. *)
Definition annuityFactor (r : R) (n : nat) : R :=
  (((1 + r) ^ n - 1) / r * (1 + r))%R.

(** Sum of a list of numbers. *)
Fixpoint sum (l : list number) : number :=
  match l with
  | [] => Num 0
  | x :: rest => x + sum rest
  end.

(** What a Flexible entry contributes: its value when it reads as a number
    greater than 0, and nothing otherwise. *)
Definition contribution (e : entry) : number :=
  match e with
  | Numeric x => if x >? 0 then x else Num 0
  | NonNumeric => Num 0
  end.

(** Total contributed by a Flexible plan. *)
Definition flexibleTotal (amounts : list entry) : number :=
  sum (map contribution amounts).

(** Value of a Flexible plan at periodic rate [r]: each contribution grows
    for the number of periods that remain, its own included, which is the
    length of the list from that entry on. *)
Fixpoint flexibleValue (r : R) (amounts : list entry) : number :=
  match amounts with
  | [] => Num 0
  | e :: rest =>
      contribution e * Num ((1 + r) ^ List.length amounts)
      + flexibleValue r rest
  end.

(** The sum of [A * (1+r)^(n-i+1)] for [i = 1 .. m]: what the first [m]
    of [n] periods contribute to the final value. *)
Definition periodSumUpTo (A r : R) (n m : nat) : R :=
  fold_right (fun i acc => (A * (1 + r) ^ (n - i + 1) + acc)%R) 0%R (seq 1 m).

(** The period-by-period sum of [A * (1+r)^(n-i+1)] for [i = 1 .. n]. *)
Definition periodSum (A r : R) (n : nat) : R := periodSumUpTo A r n n.

(** A result is consistent with its year-wise breakdown, for a plan of
    [periodCount] periods, when the breakdown has [ceil (periodCount / 12)]
    rows and the cumulative investment of the last row is the
    [totalInvestment] of the result. *)
Definition timelineConsistent (periodCount : nat) (res : result) : Prop :=
  List.length (yearlyBreakdown res)
  = Z.to_nat (Zceil (INR periodCount / 12))
  /\ exists rows row,
      yearlyBreakdown res = rows ++ [row]
      /\ Row.investment row = totalInvestment res.

(** What [validateFlexibleAmounts] objects to in an amount, if anything:
    the message it records for the month. *)
Definition amountProblem (amount : formValue) : option string :=
  if isEmpty amount then None
  else if isNaN (parseValue amount) then Some "Invalid number"%string
  else if parseValue amount <? 0
       then Some "Amount cannot be negative"%string
  else if parseValue amount >? 1000000
       then Some "Amount too large (max ₹10,00,000)"%string
  else None.

(** Whether an amount counts as a valid investment amount. *)
Definition amountCounts (amount : formValue) : bool :=
  match amountProblem amount with
  | Some _ => false
  | None => negb (isEmpty amount) && (parseValue amount >? 0)
  end.

(** The months [validateFlexibleAmounts] objects to, numbered from
    [index + 1] on, each with its message. *)
Fixpoint problemMonths (index : nat) (amounts : list formValue)
  : list (nat * string) :=
  match amounts with
  | [] => []
  | amount :: rest =>
      match amountProblem amount with
      | Some message =>
          ((index + 1)%nat, message) :: problemMonths (S index) rest
      | None => problemMonths (S index) rest
      end
  end.

(** * Properties *)

(** ** Evaluation of the number operations *)

Section NumberFacts.

Lemma sgn_pos (x : R) : (0 < x)%R -> JS.sgn x = JS.Pos.
Proof.
  intros H. unfold JS.sgn. destruct (Rlt_dec 0 x); [reflexivity | lra].
Qed.

Lemma sgn_neg (x : R) : (x < 0)%R -> JS.sgn x = JS.Neg.
Proof.
  intros H. unfold JS.sgn.
  destruct (Rlt_dec 0 x); [lra |].
  destruct (Rlt_dec x 0); [reflexivity | lra].
Qed.

Lemma sgn_zero : JS.sgn 0 = JS.Zero.
Proof.
  unfold JS.sgn.
  destruct (Rlt_dec 0 0); [lra |].
  destruct (Rlt_dec 0 0); [lra | reflexivity].
Qed.

Lemma div_Num (x y : R) : y <> 0%R -> Num x / Num y = Num (x / y).
Proof.
  intros H. unfold JS.div. destruct (Req_dec_T y 0); [contradiction | reflexivity].
Qed.

Lemma div_pos_zero (x : R) : (0 < x)%R -> Num x / Num 0 = PInf.
Proof.
  intros H. unfold JS.div.
  destruct (Req_dec_T 0 0); [| congruence].
  now rewrite sgn_pos.
Qed.

Lemma div_zero_zero : Num 0 / Num 0 = NaN.
Proof.
  unfold JS.div.
  destruct (Req_dec_T 0 0); [| congruence].
  now rewrite sgn_zero.
Qed.

Lemma ltb_Num (x y : R) : (Num x <? Num y) = true <-> (x < y)%R.
Proof.
  unfold JS.ltb. destruct (Rlt_dec x y); split; intros; try easy.
Qed.

Lemma leb_Num (x y : R) : (Num x <=? Num y) = true <-> (x <= y)%R.
Proof.
  unfold JS.leb. destruct (Rle_dec x y); split; intros; try easy.
Qed.

Lemma ltb_Num_true (x y : R) : (x < y)%R -> (Num x <? Num y) = true.
Proof. apply ltb_Num. Qed.

Lemma ltb_Num_false (x y : R) : (y <= x)%R -> (Num x <? Num y) = false.
Proof.
  intros H. unfold JS.ltb. destruct (Rlt_dec x y); [lra | reflexivity].
Qed.

Lemma leb_Num_true (x y : R) : (x <= y)%R -> (Num x <=? Num y) = true.
Proof. apply leb_Num. Qed.

Lemma leb_Num_false (x y : R) : (y < x)%R -> (Num x <=? Num y) = false.
Proof.
  intros H. unfold JS.leb. destruct (Rle_dec x y); [lra | reflexivity].
Qed.

Lemma truthy_Num (x : R) : x <> 0%R -> JS.truthy (Num x) = true.
Proof.
  intros H. unfold JS.truthy. destruct (Req_dec_T x 0); [contradiction | reflexivity].
Qed.

Lemma mul_NaN_r (a : number) : a * NaN = NaN.
Proof. destruct a; reflexivity. Qed.

Lemma div_NaN_r (a : number) : a / NaN = NaN.
Proof. destruct a; reflexivity. Qed.

Lemma sub_NaN_r (a : number) : a - NaN = NaN.
Proof. destruct a; reflexivity. Qed.

Lemma truthy_zero : JS.truthy (Num 0) = false.
Proof.
  unfold JS.truthy. destruct (Req_dec_T 0 0); [reflexivity | congruence].
Qed.

(** A positive base: [Math.pow] is the real power. *)
Lemma Math_pow_pos (x y : R) :
  (0 < x)%R -> JS.Math_pow (Num x) (Num y) = Num (Rpower x y).
Proof.
  intros Hx. unfold JS.Math_pow, JS.sgn.
  destruct (Rlt_dec 0 y).
  - destruct (Rlt_dec 0 x); [reflexivity | lra].
  - destruct (Rlt_dec y 0).
    + destruct (Rlt_dec 0 x); [reflexivity | lra].
    + assert (y = 0%R) as -> by lra. now rewrite Rpower_O.
Qed.

(** A positive base and a natural exponent: the iterated product. *)
Lemma Math_pow_nat (x : R) (n : nat) :
  (0 < x)%R -> JS.Math_pow (Num x) (Num (INR n)) = Num (x ^ n).
Proof.
  intros Hx. rewrite Math_pow_pos by assumption. now rewrite Rpower_pow.
Qed.

Lemma Zfloor_INR (n : nat) : Zfloor (INR n) = Z.of_nat n.
Proof. rewrite INR_IZR_INZ. apply ZfloorZ. Qed.

Lemma iterations_nat (n : nat) : iterations (Num (INR n)) = Return n.
Proof. unfold iterations. now rewrite Zfloor_INR, Nat2Z.id. Qed.

Lemma iterations_floor (x : R) (n : nat) :
  (INR n <= x < INR n + 1)%R -> iterations (Num x) = Return n.
Proof.
  intros H. unfold iterations.
  rewrite (Zfloor_eq (Z.of_nat n)); [now rewrite Nat2Z.id |].
  now rewrite <- INR_IZR_INZ.
Qed.

Lemma fold_left_app_one {A B : Type} (f : A -> B -> A) (l : list B)
      (b : B) (a : A) :
  fold_left f (l ++ [b]) a = f (fold_left f l a) b.
Proof. now rewrite fold_left_app. Qed.

End NumberFacts.

(** Finite numbers add, subtract and multiply as the reals do. *)
Ltac js_arith := cbn [JS.add JS.sub JS.mul JS.of_nat] in *.

(** ** The counting loop, test by test *)

Lemma for_steps_run {St : Type} (bound : number) (body : nat -> St -> St)
      (m : nat) :
  forall (i : nat) (s : St) (fuel : nat),
    (forall j, (i <= j < i + m)%nat -> (#j <=? bound) = true) ->
    (#(i + m) <=? bound) = false ->
    (m < fuel)%nat ->
    for_steps fuel i bound body s
    = Some (fold_left (fun s i => body i s) (seq i m) s).
Proof.
  induction m as [| m IH]; intros i s fuel Hin Hout Hfuel;
    (destruct fuel as [| fuel]; [lia |]); cbn [for_steps seq fold_left].
  - rewrite Nat.add_0_r in Hout. now rewrite Hout.
  - rewrite (Hin i) by lia. apply IH; [| | lia].
    + intros j Hj. apply Hin. lia.
    + now replace (S i + m)%nat with (i + S m)%nat by lia.
Qed.

Lemma for_steps_forever {St : Type} (body : nat -> St -> St) (fuel : nat) :
  forall (i : nat) (s : St), for_steps fuel i PInf body s = None.
Proof.
  induction fuel as [| fuel IH]; intros i s; [reflexivity |].
  cbn [for_steps JS.leb JS.of_nat]. apply IH.
Qed.

(** [for_upto] returns what the run of the loop returns once the fuel
    suffices, and diverges exactly when no fuel suffices; it never
    throws. *)
Lemma for_upto_steps {St : Type} (bound : number) (body : nat -> St -> St)
      (init : St) :
  match for_upto bound body init with
  | Return s =>
      exists fuel, forall fuel',
          (fuel <= fuel')%nat -> for_steps fuel' 1 bound body init = Some s
  | Diverge => forall fuel, for_steps fuel 1 bound body init = None
  | Throw _ => False
  end.
Proof.
  unfold for_upto. destruct bound as [x | | |]; cbn [iterations bind].
  - set (n := Z.to_nat (Zfloor x)).
    exists (S n). intros fuel' Hfuel.
    pose proof (Zfloor_bound x) as [Hlo Hhi].
    apply for_steps_run; [| | lia].
    + intros j Hj. unfold JS.of_nat. apply leb_Num_true.
      assert (Hjn : (Z.of_nat j <= Zfloor x)%Z) by lia.
      apply IZR_le in Hjn. rewrite <- INR_IZR_INZ in Hjn. lra.
    + unfold JS.of_nat. apply leb_Num_false.
      assert (Hn : (Zfloor x < Z.of_nat (1 + n))%Z) by lia.
      apply IZR_lt in Hn. rewrite <- INR_IZR_INZ in Hn.
      apply Rlt_le_trans with (IZR (Zfloor x) + 1)%R; [lra |].
      assert (Hn' : (Zfloor x + 1 <= Z.of_nat (1 + n))%Z) by lia.
      apply IZR_le in Hn'. rewrite plus_IZR, <- INR_IZR_INZ in Hn'. lra.
  - intros fuel. apply for_steps_forever.
  - exists 1%nat. intros fuel' Hfuel.
    destruct fuel' as [| fuel']; [lia | reflexivity].
  - exists 1%nat. intros fuel' Hfuel.
    destruct fuel' as [| fuel']; [lia | reflexivity].
Qed.

(** ** The rate table *)

Lemma lookup_own {A : Type} (obj : list (string * A)) (key : string)
      (a : A) :
  get obj key = Some a -> lookup obj key = Own a.
Proof. unfold lookup. now intros ->. Qed.

Lemma lookup_inherited {A : Type} (obj : list (string * A)) (key : string) :
  get obj key = None -> inherited key = true -> lookup obj key = Inherited.
Proof. unfold lookup. now intros -> ->. Qed.

Lemma lookup_undefined {A : Type} (obj : list (string * A)) (key : string) :
  get obj key = None -> inherited key = false -> lookup obj key = Undefined.
Proof. unfold lookup. now intros -> ->. Qed.

(** No category of the table is an inherited name. *)
Lemma inherited_not_own (category : string) :
  inherited category = true -> get returnRates category = None.
Proof.
  unfold inherited, Object_prototype. cbn [existsb].
  intros H. repeat (apply orb_prop in H; destruct H as [H | H]);
    try (apply String.eqb_eq in H; subst category; reflexivity).
  discriminate H.
Qed.

Lemma rate_lookup (category : string) :
  inherited category = false ->
  or_default (lookup returnRates category) 0.12 = Num (annualRateOf category).
Proof.
  intros Hc.
  unfold annualRateOf, lookup, returnRates, get, or_default. rewrite Hc.
  destruct (String.eqb "large" category);
    [unfold JS.or; rewrite truthy_Num by lra; reflexivity |].
  destruct (String.eqb "mid" category);
    [unfold JS.or; rewrite truthy_Num by lra; reflexivity |].
  destruct (String.eqb "small" category);
    [unfold JS.or; rewrite truthy_Num by lra; reflexivity |].
  reflexivity.
Qed.

Lemma rate_inherited (category : string) :
  inherited category = true ->
  or_default (lookup returnRates category) 0.12 = NaN.
Proof.
  intros Hc.
  now rewrite (lookup_inherited _ _ (inherited_not_own _ Hc) Hc).
Qed.

Lemma annualRateOf_cases (category : string) :
  annualRateOf category = 0.10%R \/ annualRateOf category = 0.12%R
  \/ annualRateOf category = 0.15%R.
Proof.
  unfold annualRateOf.
  destruct (String.eqb "large" category); [now left |].
  destruct (String.eqb "mid" category); [now right; left |].
  destruct (String.eqb "small" category); [now right; right | now right; left].
Qed.

Lemma annualRateOf_pos (category : string) : (0 < annualRateOf category)%R.
Proof. destruct (annualRateOf_cases category) as [-> | [-> | ->]]; lra. Qed.

Lemma monthlyRateOf_pos (category : string) : (0 < monthlyRateOf category)%R.
Proof.
  unfold monthlyRateOf. pose proof (annualRateOf_pos category). lra.
Qed.

(** ** Regular SIP: what the returned object holds *)

(** The year-wise row of the Regular calculator for a completed year. *)
Lemma regular_breakdown_map (f : nat -> Row.t) (l : list nat) (acc : list Row.t) :
  fold_left (fun s i => s ++ [f i]) l acc = acc ++ map f l.
Proof.
  revert acc. induction l as [| i l IH]; intros acc; simpl.
  - now rewrite app_nil_r.
  - rewrite IH. now rewrite <- app_assoc.
Qed.

Lemma monthlyRate_eval (category : string) :
  inherited category = false ->
  or_default (lookup returnRates category) 0.12 / 12
  = Num (monthlyRateOf category).
Proof.
  intros Hc. rewrite rate_lookup by assumption.
  unfold monthlyRateOf. apply div_Num. lra.
Qed.

(** A category whose periodic rate is a real number is not an inherited
    name, and the rate is the one of the table. *)
Lemma monthlyRate_inv (category : string) (r : R) :
  rateOf category / 12 = Num r ->
  inherited category = false /\ r = monthlyRateOf category.
Proof.
  unfold rateOf. intros H.
  destruct (inherited category) eqn:Hc.
  - rewrite rate_inherited in H by assumption. discriminate H.
  - split; [reflexivity |].
    rewrite monthlyRate_eval in H by assumption. now injection H.
Qed.


Lemma calculateRegularSIP_fields (amount yrs : number)
      (category : string) (inflationRate : number) (res : result) :
  calculateRegularSIP amount yrs category inflationRate = Return res ->
  let r := rateOf category / 12 in
  totalInvestment res = amount * (yrs * 12)
  /\ futureValue res
     = amount * ((JS.Math_pow (1 + r) (yrs * 12) - 1) / r) * (1 + r)
  /\ effectiveRate res
     = calculateEffectiveRate (futureValue res) (totalInvestment res) yrs
  /\ years res = yrs
  /\ annualRate res = rateOf category * 100
  /\ months res = yrs * 12
  /\ exists n,
      iterations yrs = Return n
      /\ yearlyBreakdown res
         = map (fun year =>
                  let cumulativeInvestment := amount * (#year * 12) in
                  let cumulativeValue :=
                    amount
                    * ((JS.Math_pow (1 + r) (#year * 12) - 1) / r) * (1 + r) in
                  Row.mk year cumulativeInvestment cumulativeValue
                         (cumulativeValue - cumulativeInvestment) None None)
               (seq 1 n).
Proof.
  unfold calculateRegularSIP, for_upto, rateOf.
  destruct (inflationRate >? 0);
    (destruct (iterations yrs) as [n | e |] eqn:Hn; cbn [bind];
     try (intros H; discriminate H));
    rewrite regular_breakdown_map; intros [= <-];
    cbn [totalInvestment futureValue effectiveRate years annualRate months
         yearlyBreakdown];
    do 6 (split; [reflexivity |]); exists n; split; reflexivity.
Qed.

Lemma calculateRegularSIP_returns (monthlyAmount : number) (y : R)
      (category : string) (inflationRate : number) :
  exists res,
    calculateRegularSIP monthlyAmount (Num y) category inflationRate
    = Return res.
Proof.
  unfold calculateRegularSIP, for_upto, iterations. cbn [bind].
  destruct (inflationRate >? 0); eexists; reflexivity.
Qed.

Lemma calculateRegularSIP_returns_field (amount yrs : number)
      (category : string) (inflationRate : number) (res : result) :
  calculateRegularSIP amount yrs category inflationRate = Return res ->
  returns res = futureValue res - totalInvestment res.
Proof.
  unfold calculateRegularSIP.
  destruct (inflationRate >? 0);
    (destruct (for_upto yrs _ _); cbn [bind];
     try (intros H; discriminate H));
    intros [= <-]; reflexivity.
Qed.

(** With a category that names an inherited property the rate is [NaN],
    and so are the value and the returns. *)
Lemma regular_inherited (amount yrs : number) (category : string)
      (inflationRate : number) (res : result) :
  inherited category = true ->
  calculateRegularSIP amount yrs category inflationRate = Return res ->
  annualRate res = NaN /\ futureValue res = NaN /\ returns res = NaN.
Proof.
  intros Hc Hres.
  destruct (calculateRegularSIP_fields _ _ _ _ _ Hres)
    as (_ & Hfv & _ & _ & Har & _).
  unfold rateOf in Hfv, Har. rewrite rate_inherited in Hfv, Har by assumption.
  cbn [JS.div JS.add JS.mul] in Hfv, Har.
  rewrite div_NaN_r, !mul_NaN_r in Hfv.
  split; [exact Har |]. split; [exact Hfv |].
  rewrite (calculateRegularSIP_returns_field _ _ _ _ _ Hres), Hfv.
  reflexivity.
Qed.

Lemma goal_inherited (T yrs : number) (category : string) :
  inherited category = true ->
  GoalSIP.annualRate (calculateGoalBasedSIP T yrs category) = NaN
  /\ GoalSIP.requiredMonthlyAmount (calculateGoalBasedSIP T yrs category)
     = NaN
  /\ GoalSIP.totalInvestment (calculateGoalBasedSIP T yrs category) = NaN
  /\ GoalSIP.returns (calculateGoalBasedSIP T yrs category) = NaN.
Proof.
  intros Hc. unfold calculateGoalBasedSIP. cbv zeta.
  cbn [GoalSIP.annualRate GoalSIP.requiredMonthlyAmount
       GoalSIP.totalInvestment GoalSIP.returns].
  rewrite rate_inherited by assumption.
  cbn [JS.div JS.add JS.mul]. rewrite !div_NaN_r.
  cbn [JS.mul]. rewrite sub_NaN_r.
  repeat split; reflexivity.
Qed.

Lemma monthlyRateOf_mid : monthlyRateOf "mid" = 0.01%R.
Proof.
  unfold monthlyRateOf, annualRateOf. cbn [String.eqb Ascii.eqb Bool.eqb].
  lra.
Qed.

Lemma regular_eval (A y : R) (n : nat) (category : string)
      (inflationRate : number) :
  inherited category = false ->
  (y * 12 = INR n)%R ->
  exists res,
    calculateRegularSIP (Num A) (Num y) category inflationRate = Return res
    /\ futureValue res
       = Num (A * (((1 + monthlyRateOf category) ^ n - 1)
                   / monthlyRateOf category)
              * (1 + monthlyRateOf category))
    /\ totalInvestment res = Num (A * INR n).
Proof.
  intros Hc Hn.
  destruct (calculateRegularSIP_returns (Num A) y category inflationRate)
    as [res Hres].
  exists res. split; [assumption |].
  destruct (calculateRegularSIP_fields _ _ _ _ _ Hres) as (Hti & Hfv & _).
  pose proof (monthlyRateOf_pos category) as Hr.
  unfold rateOf in Hfv. rewrite monthlyRate_eval in Hfv by assumption.
  rewrite Hfv, Hti. js_arith. rewrite Hn.
  rewrite Math_pow_nat by lra. js_arith.
  rewrite div_Num by lra. js_arith. split; reflexivity.
Qed.

(** ** C1: the closed form of the Regular calculator *)

(** C1 (amended).  For a per-period amount [A > 0], a period count
    [n = years * 12] that is a positive integer and a category whose
    periodic rate [r = annualRate / 12] is a number with [r > 0], the
    Regular calculator returns [futureValue = A * ((1+r)^n - 1)/r * (1+r)]
    and [totalInvestment = A * n].  For A = 10000, years = 10 and the "mid"
    category (r = 0.01, n = 120) it returns [totalInvestment = 1200000] and
    [futureValue = 10000 * ((1.01^120 - 1)/0.01) * 1.01], a value between
    2323390 and 2323391. *)
Theorem C1_regular_closed_form :
  (forall (A y r : R) (n : nat) (category : string) (inflationRate : number),
      (0 < A)%R -> (0 < n)%nat -> (y * 12 = INR n)%R ->
      rateOf category / 12 = Num r -> (0 < r)%R ->
      exists res,
        calculateRegularSIP (Num A) (Num y) category inflationRate
        = Return res
        /\ futureValue res = Num (A * (((1 + r) ^ n - 1) / r) * (1 + r))
        /\ totalInvestment res = Num (A * INR n))
  /\ exists res,
      calculateRegularSIP 10000 10 "mid" 0 = Return res
      /\ totalInvestment res = Num 1200000
      /\ futureValue res = Num (10000 * ((1.01 ^ 120 - 1) / 0.01) * 1.01)
      /\ (2323390 < 10000 * ((1.01 ^ 120 - 1) / 0.01) * 1.01 < 2323391)%R.
Proof.
  split.
  - intros A y r n category inflationRate _ _ Hn Hrate _.
    destruct (monthlyRate_inv _ _ Hrate) as [Hc ->].
    now apply regular_eval.
  - destruct (regular_eval 10000 10 120 "mid" 0 eq_refl)
      as (res & Hres & Hfv & Hti).
    { rewrite INR_IZR_INZ. simpl. lra. }
    exists res. split; [assumption |].
    rewrite Hfv, Hti, monthlyRateOf_mid.
    split; [f_equal; rewrite INR_IZR_INZ; simpl; lra |].
    split; [f_equal; lra | lra].
Qed.

Lemma C1_regular_closed_form_witness :
  (0 < 500)%R /\ (0 < 12)%nat /\ (1 * 12 = INR 12)%R
  /\ rateOf "small" / 12 = Num 0.0125 /\ (0 < 0.0125)%R
  /\ exists res,
      calculateRegularSIP 500 1 "small" 0 = Return res
      /\ futureValue res
         = Num (500 * (((1 + 0.0125) ^ 12 - 1) / 0.0125) * (1 + 0.0125))
      /\ totalInvestment res = Num (500 * INR 12).
Proof.
  assert (H1 : (0 < 500)%R) by lra.
  assert (H2 : (0 < 12)%nat) by lia.
  assert (H3 : (1 * 12 = INR 12)%R) by (rewrite INR_IZR_INZ; simpl; lra).
  assert (H4 : rateOf "small" / 12 = Num 0.0125).
  { unfold rateOf. rewrite monthlyRate_eval by reflexivity.
    unfold monthlyRateOf, annualRateOf. cbn [String.eqb Ascii.eqb Bool.eqb].
    f_equal. lra. }
  assert (H5 : (0 < 0.0125)%R) by lra.
  split; [exact H1 |]. split; [exact H2 |]. split; [exact H3 |].
  split; [exact H4 |]. split; [exact H5 |].
  exact (proj1 C1_regular_closed_form 500%R 1%R 0.0125%R 12%nat
               "small"%string (Num 0) H1 H2 H3 H4 H5).
Defined.

(** The value the Regular calculator returns for A = 10000, years = 10 and
    the "mid" category is more than 4000 away from 2319007. *)
Lemma C1_regular_value_counterexample :
  exists res v,
    calculateRegularSIP 10000 10 "mid" 0 = Return res
    /\ futureValue res = Num v
    /\ (4000 < Rabs (v - 2319007))%R.
Proof.
  destruct (regular_eval 10000 10 120 "mid" 0 eq_refl)
    as (res & Hres & Hfv & _).
  { rewrite INR_IZR_INZ. simpl. lra. }
  exists res. eexists. split; [assumption |]. split; [exact Hfv |].
  rewrite monthlyRateOf_mid.
  rewrite Rabs_right; lra.
Qed.

(** ** The annuity factor *)

Lemma annuityFactor_lower (r : R) (n : nat) :
  (0 < r)%R -> (INR n * (1 + r) <= annuityFactor r n)%R.
Proof.
  intros Hr. unfold annuityFactor.
  pose proof (poly n r Hr) as Hb.
  assert (Hq : (INR n <= ((1 + r) ^ n - 1) / r)%R).
  { apply Rmult_le_reg_r with r; [assumption |].
    unfold Rdiv. rewrite Rmult_assoc, Rinv_l by lra. lra. }
  apply Rmult_le_compat_r; lra.
Qed.

Lemma annuityFactor_pos (r : R) (n : nat) :
  (0 < r)%R -> (0 < n)%nat -> (0 < annuityFactor r n)%R.
Proof.
  intros Hr Hn.
  pose proof (annuityFactor_lower r n Hr) as Hl.
  assert (0 < INR n)%R by (apply lt_0_INR; assumption).
  nra.
Qed.

(** ** Goal-based SIP: the required amount *)

Lemma goal_eval (T y : R) (n : nat) (category : string) :
  inherited category = false ->
  (y * 12 = INR n)%R -> (0 < n)%nat ->
  GoalSIP.requiredMonthlyAmount (calculateGoalBasedSIP (Num T) (Num y) category)
  = Num (T / annuityFactor (monthlyRateOf category) n).
Proof.
  intros Hc Hy Hn.
  unfold calculateGoalBasedSIP. cbn [GoalSIP.requiredMonthlyAmount].
  rewrite monthlyRate_eval by assumption.
  pose proof (monthlyRateOf_pos category) as Hr.
  pose proof (annuityFactor_pos _ _ Hr Hn) as Hf.
  js_arith. rewrite Hy, Math_pow_nat by lra. js_arith.
  rewrite div_Num by lra. js_arith.
  fold (annuityFactor (monthlyRateOf category) n).
  apply div_Num. lra.
Qed.

(** ** C2: the Goal solver inverts the Regular calculator *)




(** ** C9: growth of the Regular calculator *)




(** ** The effective rate in the returned objects *)



Lemma calculateFlexibleSIP_effectiveRate
      (amounts : list entry) (inflationRate : number) (res : result) :
  calculateFlexibleSIP amounts inflationRate = Return res ->
  effectiveRate res
  = calculateEffectiveRate (futureValue res) (totalInvestment res) (years res).
Proof.
  unfold calculateFlexibleSIP.
  destruct (forEach amounts _ _) as [ti fv].
  destruct (inflationRate >? 0);
    (destruct (for_upto _ _ _) as [[[ci cv] yb] | e |]; cbn [bind];
     try (intros H; discriminate H));
    intros [= <-]; reflexivity.
Qed.

Lemma calculateRegularSIP_effectiveRate
      (amount yrs : number) (category : string) (inflationRate : number)
      (res : result) :
  calculateRegularSIP amount yrs category inflationRate = Return res ->
  effectiveRate res
  = calculateEffectiveRate (futureValue res) (totalInvestment res) (years res).
Proof.
  intros H.
  destruct (calculateRegularSIP_fields _ _ _ _ _ H) as (_ & _ & He & Hy & _).
  now rewrite Hy.
Qed.

Lemma calculateEffectiveRate_guard (totalValue ti yrs : number) :
  (ti <=? 0) = true \/ (yrs <=? 0) = true ->
  calculateEffectiveRate totalValue ti yrs = Num 0.
Proof.
  unfold calculateEffectiveRate. intros [-> | ->]; [reflexivity |].
  now rewrite orb_true_r.
Qed.

(** ** C6: the effective-rate estimator *)



(** ** C8: the Goal solver on a zero period count *)

Lemma goal_factor_zero_years (category : string) :
  (JS.Math_pow (1 + Num (monthlyRateOf category)) (Num 0 * 12) - 1)
  / Num (monthlyRateOf category) * (1 + Num (monthlyRateOf category))
  = Num 0.
Proof.
  pose proof (monthlyRateOf_pos category) as Hr.
  js_arith. rewrite Math_pow_pos by lra.
  replace (0 * 12)%R with 0%R by lra. rewrite Rpower_O by lra.
  js_arith. rewrite div_Num by lra. js_arith.
  f_equal. unfold Rdiv. replace (1 - 1)%R with 0%R by lra.
  now rewrite !Rmult_0_l.
Qed.

Lemma goal_zero_years (T : R) (category : string) :
  inherited category = false ->
  (0 < T)%R ->
  let goal := calculateGoalBasedSIP (Num T) (Num 0) category in
  GoalSIP.months goal = Num 0
  /\ GoalSIP.requiredMonthlyAmount goal = PInf
  /\ GoalSIP.totalInvestment goal = NaN
  /\ GoalSIP.returns goal = NaN
  /\ GoalSIP.effectiveRate goal = Num 0.
Proof.
  intros Hc HT goal. subst goal. unfold calculateGoalBasedSIP.
  cbn [GoalSIP.months GoalSIP.requiredMonthlyAmount GoalSIP.totalInvestment
       GoalSIP.returns GoalSIP.effectiveRate].
  rewrite monthlyRate_eval by assumption. rewrite goal_factor_zero_years.
  rewrite div_pos_zero by assumption.
  assert (Hm : Num 0 * 12 = Num 0) by (js_arith; f_equal; lra).
  rewrite Hm.
  assert (Hti : PInf * Num 0 = NaN) by (cbn [JS.mul]; now rewrite sgn_zero).
  rewrite Hti. cbn [JS.sub].
  repeat (split; [reflexivity |]).
  apply calculateEffectiveRate_guard. right. apply leb_Num_true. lra.
Qed.

(** C8 (amended).  The Goal solver has no guard of its own.  Its periodic
    rate comes from the rate table, with the "mid" fallback.  For every
    category that is not the name of a property inherited from
    [Object.prototype] the rate is positive, so that the division by the
    rate is not a division by zero; on a zero period count the annuity
    factor is 0 and, for a target [T > 0], the solver divides by it:
    [requiredMonthlyAmount] is [Infinity], [totalInvestment] and [returns]
    are [NaN].  For an inherited name the rate is [NaN], and so are
    [requiredMonthlyAmount], [totalInvestment] and [returns].  In both cases
    only [effectiveRate] is 0, through the guard of the effective-rate
    estimator. *)
Theorem C8_goal_zero_periods (T : R) (category : string) :
  (0 < T)%R ->
  let goal := calculateGoalBasedSIP (Num T) (Num 0) category in
  GoalSIP.months goal = Num 0
  /\ GoalSIP.effectiveRate goal = Num 0
  /\ (inherited category = false ->
      (0 < monthlyRateOf category)%R
      /\ GoalSIP.annualRate goal = Num (annualRateOf category * 100)
      /\ GoalSIP.requiredMonthlyAmount goal = PInf
      /\ GoalSIP.totalInvestment goal = NaN
      /\ GoalSIP.returns goal = NaN)
  /\ (inherited category = true ->
      GoalSIP.annualRate goal = NaN
      /\ GoalSIP.requiredMonthlyAmount goal = NaN
      /\ GoalSIP.totalInvestment goal = NaN
      /\ GoalSIP.returns goal = NaN).
Proof.
  intros HT goal.
  assert (Hm : GoalSIP.months goal = Num 0).
  { subst goal. unfold calculateGoalBasedSIP. cbn [GoalSIP.months].
    js_arith. f_equal. lra. }
  split; [exact Hm |].
  split.
  { subst goal. unfold calculateGoalBasedSIP. cbn [GoalSIP.effectiveRate].
    apply calculateEffectiveRate_guard. right. apply leb_Num_true. lra. }
  split.
  - intros Hc. split; [apply monthlyRateOf_pos |].
    split.
    { subst goal. unfold calculateGoalBasedSIP. cbn [GoalSIP.annualRate].
      rewrite rate_lookup by assumption. reflexivity. }
    destruct (goal_zero_years T category Hc HT) as (_ & H1 & H2 & H3 & _).
    repeat split; assumption.
  - intros Hc. subst goal. now apply goal_inherited.
Qed.

Lemma C8_goal_zero_periods_witness :
  (0 < 500000)%R
  /\ GoalSIP.requiredMonthlyAmount (calculateGoalBasedSIP (Num 500000) (Num 0) "small")
     = PInf
  /\ GoalSIP.requiredMonthlyAmount
       (calculateGoalBasedSIP (Num 500000) (Num 0) "toString")
     = NaN.
Proof.
  assert (H : (0 < 500000)%R) by lra.
  split; [exact H |]. split.
  - destruct (C8_goal_zero_periods 500000%R "small"%string H)
      as (_ & _ & Hown & _).
    exact (proj1 (proj2 (proj2 (Hown eq_refl)))).
  - destruct (C8_goal_zero_periods 500000%R "toString"%string H)
      as (_ & _ & _ & Hinh).
    exact (proj1 (proj2 (Hinh eq_refl))).
Defined.

(** For the target 100000 over 0 years in the "mid" category the Goal
    solver reports no zero or other finite sentinel: the required amount is
    [Infinity] and the total investment is [NaN]. *)
Lemma C8_goal_no_guard_counterexample :
  GoalSIP.months (calculateGoalBasedSIP (Num 100000) (Num 0) "mid") = Num 0
  /\ GoalSIP.requiredMonthlyAmount
       (calculateGoalBasedSIP (Num 100000) (Num 0) "mid") = PInf
  /\ GoalSIP.totalInvestment
       (calculateGoalBasedSIP (Num 100000) (Num 0) "mid") = NaN
  /\ GoalSIP.returns (calculateGoalBasedSIP (Num 100000) (Num 0) "mid") = NaN.
Proof.
  destruct (goal_zero_years 100000 "mid" eq_refl)
    as (H1 & H2 & H3 & H4 & _); [lra |].
  repeat split; assumption.
Qed.


(** ** Flexible SIP: the month loop *)

Lemma add_zero_r (a : number) : a + Num 0 = a.
Proof. destruct a; cbn [JS.add]; try reflexivity. f_equal. lra. Qed.

Lemma add_zero_l (a : number) : Num 0 + a = a.
Proof. destruct a; cbn [JS.add]; try reflexivity. f_equal. lra. Qed.

Lemma add_assoc (a b c : number) : a + (b + c) = a + b + c.
Proof. destruct a, b, c; cbn [JS.add]; try reflexivity. f_equal. lra. Qed.

Lemma or_zero_positive (x : number) :
  (JS.or x 0 >? 0) = (x >? 0) /\ ((x >? 0) = true -> JS.or x 0 = x).
Proof.
  unfold JS.or, JS.truthy.
  destruct x as [x | | |]; try (split; reflexivity).
  - destruct (Req_dec_T x 0) as [-> | Hx]; split; reflexivity.
  - split; [| discriminate].
    cbn [JS.ltb]. apply ltb_Num_false. lra.
Qed.

Lemma contribution_parse (e : entry) :
  contribution e
  = if JS.or (parseFloat e) 0 >? 0 then JS.or (parseFloat e) 0 else Num 0.
Proof.
  destruct e as [x |]; cbn [contribution parseFloat].
  - destruct (or_zero_positive x) as [H1 H2]. rewrite H1.
    destruct (x >? 0); [now rewrite H2 | reflexivity].
  - destruct (or_zero_positive NaN) as [H1 _]. now rewrite H1.
Qed.

Lemma flexibleRate_eval : Num 0.12 / 12 = Num (0.12 / 12).
Proof. apply div_Num. lra. Qed.

Lemma flexibleMonth_contribution (months index k : nat) (ti fv : number)
      (e : entry) :
  (index + k = months)%nat ->
  flexibleMonth months (ti, fv) (index, e)
  = (ti + contribution e,
     fv + contribution e * Num ((1 + 0.12 / 12) ^ k)).
Proof.
  intros Hk. unfold flexibleMonth.
  rewrite contribution_parse, flexibleRate_eval.
  destruct (JS.or (parseFloat e) 0 >? 0).
  - do 2 f_equal. js_arith. rewrite <- minus_INR by lia.
    replace (months - index)%nat with k by lia.
    rewrite Math_pow_nat by lra. reflexivity.
  - js_arith. rewrite add_zero_r.
    replace (0 * (1 + 0.12 / 12) ^ k)%R with 0%R by ring.
    now rewrite add_zero_r.
Qed.

Lemma flexible_fold (months : nat) (l : list entry) :
  forall (s : nat) (ti fv : number),
    (s + List.length l = months)%nat ->
    fold_left (flexibleMonth months) (combine (seq s (List.length l)) l) (ti, fv)
    = (ti + flexibleTotal l, fv + flexibleValue (0.12 / 12) l).
Proof.
  induction l as [| e l IH]; intros s ti fv Hs.
  - cbn. now rewrite !add_zero_r.
  - cbn [List.length seq combine fold_left].
    rewrite (flexibleMonth_contribution months s (S (List.length l)))
      by (cbn [List.length] in Hs; lia).
    rewrite IH by (cbn [List.length] in Hs; lia).
    unfold flexibleTotal. cbn [map sum flexibleValue List.length].
    now rewrite !add_assoc.
Qed.


(** ** Flexible SIP: what the returned object holds *)

Lemma flexible_iterations (n : nat) :
  iterations (JS.Math_ceil (#n / 12))
  = Return (Z.to_nat (Zceil (INR n / 12))).
Proof.
  unfold JS.of_nat. rewrite div_Num by lra.
  cbn [JS.Math_ceil iterations]. now rewrite ZfloorZ.
Qed.

Lemma calculateFlexibleSIP_eval (amounts : list entry)
      (inflationRate : number) :
  exists res,
    calculateFlexibleSIP amounts inflationRate = Return res
    /\ totalInvestment res = flexibleTotal amounts
    /\ futureValue res = flexibleValue (0.12 / 12) amounts
    /\ years res = Num (INR (List.length amounts) / 12)
    /\ averageMonthlyAmount res
       = Some (flexibleTotal amounts / #(List.length amounts))
    /\ yearlyBreakdown res
       = snd (fold_left (fun s year => flexibleYear amounts year s)
                        (seq 1 (Z.to_nat
                                  (Zceil (INR (List.length amounts) / 12))))
                        (Num 0, Num 0, [])).
Proof.
  unfold calculateFlexibleSIP, forEach, for_upto.
  rewrite flexible_iterations. cbn [bind].
  change (fold_left _ (combine (seq 0 (List.length amounts)) amounts)
                    (Num 0, Num 0))
    with (fold_left (flexibleMonth (List.length amounts))
                    (combine (seq 0 (List.length amounts)) amounts)
                    (Num 0, Num 0)).
  rewrite flexible_fold by reflexivity. rewrite !add_zero_l.
  change (fold_left _ (seq 1 ?n) (Num 0, Num 0, []))
    with (fold_left (fun s year => flexibleYear amounts year s)
                    (seq 1 n) (Num 0, Num 0, [])).
  destruct (fold_left (fun s year => flexibleYear amounts year s) _ _)
    as [[ci cv] yb] eqn:Hyb.
  assert (Hy : #(List.length amounts) / 12
               = Num (INR (List.length amounts) / 12))
    by (unfold JS.of_nat; apply div_Num; lra).
  destruct (inflationRate >? 0); eexists; (split; [reflexivity |]);
    cbn [totalInvestment futureValue years averageMonthlyAmount
         yearlyBreakdown snd];
    repeat (split; [first [reflexivity | exact Hy] |]); reflexivity.
Qed.

(** ** C7: entries the Flexible calculator skips *)

Lemma contribution_skipped (e : entry) :
  e = NonNumeric \/ e = Numeric NaN
  \/ (exists x, e = Numeric (Num x) /\ (x <= 0)%R) ->
  contribution e = Num 0.
Proof.
  intros [-> | [-> | (x & -> & Hx)]]; cbn [contribution];
    try reflexivity.
  now rewrite ltb_Num_false.
Qed.

Lemma flexible_all_skipped (r : R) (amounts : list entry) :
  Forall (fun e => contribution e = Num 0) amounts ->
  flexibleTotal amounts = Num 0 /\ flexibleValue r amounts = Num 0.
Proof.
  unfold flexibleTotal.
  induction 1 as [| e l He _ [IHt IHv]]; [split; reflexivity |].
  cbn [map sum flexibleValue]. rewrite He, IHt, IHv. js_arith.
  split; f_equal; ring.
Qed.

(** C7.  The Flexible calculator returns for every list;
    [totalInvestment] is the sum of the contributions of the entries and
    [futureValue] the sum of the contributions compounded over the periods
    that remain, where an entry that is non-numeric or blank, [NaN], zero or
    negative contributes nothing and an entry [x > 0] contributes [x].  A
    plan whose entries are all of the skipped kind, in particular all zero,
    has [futureValue = 0], [totalInvestment = 0] and [effectiveRate = 0]. *)
Theorem C7_flexible_skipped_entries :
  (forall amounts inflationRate,
      exists res,
        calculateFlexibleSIP amounts inflationRate = Return res
        /\ totalInvestment res = sum (map contribution amounts)
        /\ futureValue res = flexibleValue (0.12 / 12) amounts)
  /\ (forall e,
         e = NonNumeric \/ e = Numeric NaN
         \/ (exists x, e = Numeric (Num x) /\ (x <= 0)%R) ->
         contribution e = Num 0
         /\ (JS.or (parseFloat e) 0 >? 0) = false)
  /\ (forall x, (0 < x)%R -> contribution (Numeric (Num x)) = Num x)
  /\ (forall amounts inflationRate,
         Forall (fun e => e = NonNumeric \/ e = Numeric NaN
                          \/ exists x, e = Numeric (Num x) /\ (x <= 0)%R)
                amounts ->
         exists res,
           calculateFlexibleSIP amounts inflationRate = Return res
           /\ futureValue res = Num 0
           /\ totalInvestment res = Num 0
           /\ effectiveRate res = Num 0).
Proof.
  split; [| split; [| split]].
  - intros amounts inflationRate.
    destruct (calculateFlexibleSIP_eval amounts inflationRate)
      as (res & Hres & Hti & Hfv & _).
    exists res. now repeat split.
  - intros e He. split; [now apply contribution_skipped |].
    destruct He as [-> | [-> | (x & -> & Hx)]]; cbn [parseFloat].
    + destruct (or_zero_positive NaN) as [-> _]. reflexivity.
    + destruct (or_zero_positive NaN) as [-> _]. reflexivity.
    + destruct (or_zero_positive (Num x)) as [-> _]. now apply ltb_Num_false.
  - intros x Hx. cbn [contribution]. now rewrite ltb_Num_true.
  - intros amounts inflationRate Hall.
    destruct (calculateFlexibleSIP_eval amounts inflationRate)
      as (res & Hres & Hti & Hfv & _).
    destruct (flexible_all_skipped (0.12 / 12) amounts) as [Ht Hv].
    { eapply Forall_impl; [| exact Hall].
      intros e He. now apply contribution_skipped. }
    exists res. split; [assumption |].
    rewrite Hv in Hfv. rewrite Ht in Hti.
    split; [assumption |]. split; [assumption |].
    rewrite (calculateFlexibleSIP_effectiveRate _ _ _ Hres), Hti.
    apply calculateEffectiveRate_guard. left. apply leb_Num_true. lra.
Qed.

Lemma C7_flexible_skipped_entries_witness :
  Forall (fun e => e = NonNumeric \/ e = Numeric NaN
                   \/ exists x, e = Numeric (Num x) /\ (x <= 0)%R)
         [Numeric (Num 0); NonNumeric; Numeric (Num (-250))]
  /\ exists res,
      calculateFlexibleSIP [Numeric (Num 0); NonNumeric; Numeric (Num (-250))]
                           0
      = Return res
      /\ futureValue res = Num 0
      /\ totalInvestment res = Num 0
      /\ effectiveRate res = Num 0.
Proof.
  assert (H : Forall (fun e => e = NonNumeric \/ e = Numeric NaN
                               \/ exists x, e = Numeric (Num x) /\ (x <= 0)%R)
                     [Numeric (Num 0); NonNumeric; Numeric (Num (-250))]).
  { apply Forall_cons;
      [right; right; exists 0%R; split; [reflexivity | lra] |].
    apply Forall_cons; [left; reflexivity |].
    apply Forall_cons; [| apply Forall_nil].
    right. right. exists (-250)%R. split; [reflexivity | lra]. }
  split; [exact H |].
  exact (proj2 (proj2 (proj2 C7_flexible_skipped_entries)) _ (Num 0) H).
Defined.

(** The two-period scenario: contributions [1000, 1000] at 12% a year give
    [totalInvestment = 2000] and [futureValue = 2030.1]. *)
Example flexible_two_periods :
  exists res,
    calculateFlexibleSIP [Numeric (Num 1000); Numeric (Num 1000)] 0
    = Return res
    /\ totalInvestment res = Num 2000
    /\ futureValue res = Num 2030.1.
Proof.
  destruct (calculateFlexibleSIP_eval
              [Numeric (Num 1000); Numeric (Num 1000)] 0)
    as (res & Hres & Hti & Hfv & _).
  exists res. split; [assumption |].
  rewrite Hti, Hfv. unfold flexibleTotal.
  cbn [map sum flexibleValue contribution List.length].
  rewrite !ltb_Num_true by lra. js_arith.
  split; f_equal; lra.
Qed.

(** ** C10: the Flexible calculator on an empty list *)

Lemma Zceil_zero_months : Z.to_nat (Zceil (INR 0 / 12)) = 0%nat.
Proof.
  rewrite (Zceil_eq 0); [reflexivity |]. cbn [INR]. lra.
Qed.

(** C10 (amended).  On an empty list the Flexible calculator returns
    [totalInvestment = 0], [futureValue = 0], [effectiveRate = 0] and an
    empty year-wise breakdown, while the reported average is the quotient
    [totalInvestment / months = 0 / 0], which no guard protects and which is
    [NaN] rather than 0. *)
Theorem C10_flexible_empty (inflationRate : number) :
  exists res,
    calculateFlexibleSIP [] inflationRate = Return res
    /\ months res = Num 0
    /\ totalInvestment res = Num 0
    /\ futureValue res = Num 0
    /\ effectiveRate res = Num 0
    /\ yearlyBreakdown res = []
    /\ averageMonthlyAmount res = Some (totalInvestment res / months res)
    /\ averageMonthlyAmount res = Some NaN.
Proof.
  destruct (calculateFlexibleSIP_eval [] inflationRate)
    as (res & Hres & Hti & Hfv & Hy & Havg & Hyb).
  assert (Hm : months res = Num 0).
  { revert Hres. unfold calculateFlexibleSIP.
    destruct (forEach _ _ _) as [ti fv].
    destruct (for_upto _ _ _) as [[[ci cv] yb] | e |]; cbn [bind];
      try (destruct (inflationRate >? 0); intros H; discriminate H).
    destruct (inflationRate >? 0); intros [= <-]; reflexivity. }
  exists res. split; [assumption |]. split; [assumption |].
  cbn [List.length] in *. rewrite Zceil_zero_months in Hyb.
  unfold flexibleTotal in *. cbn [map sum flexibleValue fold_left seq snd] in *.
  split; [assumption |]. split; [assumption |].
  split.
  { rewrite (calculateFlexibleSIP_effectiveRate _ _ _ Hres), Hti.
    apply calculateEffectiveRate_guard. left. apply leb_Num_true. lra. }
  split; [assumption |].
  rewrite Havg, Hti, Hm. split; [reflexivity |].
  unfold JS.of_nat. cbn [INR]. now rewrite div_zero_zero.
Qed.

(** The quotient of the empty Flexible plan is not the only division of
    the calculators that no guard protects: for the target 100000 over 0
    years the Goal solver divides the target by an annuity factor that is 0,
    and the required amount it reports is [Infinity]. *)
Lemma C10_goal_division_counterexample :
  (JS.Math_pow (1 + Num (monthlyRateOf "mid")) (Num 0 * 12) - 1)
  / Num (monthlyRateOf "mid") * (1 + Num (monthlyRateOf "mid"))
  = Num 0
  /\ GoalSIP.requiredMonthlyAmount
       (calculateGoalBasedSIP (Num 100000) (Num 0) "mid")
     = Num 100000 / Num 0
  /\ Num 100000 / Num 0 = PInf.
Proof.
  split; [apply goal_factor_zero_years |].
  split.
  - unfold calculateGoalBasedSIP. cbn [GoalSIP.requiredMonthlyAmount].
    now rewrite monthlyRate_eval, goal_factor_zero_years.
  - apply div_pos_zero. lra.
Qed.


(** ** Step-up SIP: what the returned object holds *)

Lemma calculateStepUpSIP_eval (amount : number) (y : R)
      (percent inflationRate : number) :
  exists res,
    calculateStepUpSIP amount (Num y) percent inflationRate = Return res
    /\ (totalInvestment res, futureValue res)
       = fst (fold_left (fun s month =>
                           stepUpMonth (Num y * 12) (percent / 100) month s)
                        (seq 1 (Z.to_nat (Zfloor (y * 12))))
                        (Num 0, Num 0, amount))
    /\ yearlyBreakdown res
       = snd (fold_left (fun s year =>
                           stepUpYear (Num y) (percent / 100) year s)
                        (seq 1 (Z.to_nat (Zfloor y)))
                        (Num 0, Num 0, amount, []))
    /\ years res = Num y.
Proof.
  unfold calculateStepUpSIP, for_upto.
  cbn [JS.mul iterations bind].
  change (fold_left _ (seq 1 (Z.to_nat (Zfloor (y * 12))))
                    (Num 0, Num 0, amount))
    with (fold_left (fun s month =>
                       stepUpMonth (Num (y * 12)) (percent / 100) month s)
                    (seq 1 (Z.to_nat (Zfloor (y * 12))))
                    (Num 0, Num 0, amount)).
  destruct (fold_left _ (seq 1 (Z.to_nat (Zfloor (y * 12)))) _)
    as [[ti fv] cur].
  change (fold_left _ (seq 1 (Z.to_nat (Zfloor y)))
                    (Num 0, Num 0, amount, []))
    with (fold_left (fun s year =>
                       stepUpYear (Num y) (percent / 100) year s)
                    (seq 1 (Z.to_nat (Zfloor y)))
                    (Num 0, Num 0, amount, [])).
  destruct (fold_left _ (seq 1 (Z.to_nat (Zfloor y))) _)
    as [[[ci cv] ya] yb].
  destruct (inflationRate >? 0); eexists; (split; [reflexivity |]);
    cbn [totalInvestment futureValue years yearlyBreakdown fst snd];
    repeat split; reflexivity.
Qed.

(** ** C3: the comparison *)

Lemma is_integer_INR (n : nat) : JS.is_integer (INR n) = true.
Proof.
  unfold JS.is_integer. rewrite Zfloor_INR, <- INR_IZR_INZ.
  destruct (Req_dec_T (INR n) (INR n)); [reflexivity | congruence].
Qed.

Lemma Array_fill_nat {A : Type} (n : nat) (v : A) :
  (Z.of_nat n < 2 ^ 32)%Z ->
  Array_fill (Num (INR n)) v = Return (repeat v n).
Proof.
  intros Hn. unfold Array_fill.
  rewrite is_integer_INR, Zfloor_INR, Nat2Z.id.
  destruct (Z.leb_spec 0 (Z.of_nat n)); [| lia].
  destruct (Z.ltb_spec (Z.of_nat n) (2 ^ 32)); [reflexivity | lia].
Qed.

Lemma compareAllSIPTypes_inv (baseParams : Params.t) (results : list result) :
  compareAllSIPTypes baseParams = Return results ->
  let amount := Params.monthlyAmount baseParams in
  let yrs := Params.years baseParams in
  let percent := default_to (Params.stepUpPercent baseParams) 10 in
  let inflation := default_to (Params.inflationRate baseParams) 0 in
  exists large mid small stepUp flexible amounts,
    results = [large; mid; small; stepUp; flexible]
    /\ calculateRegularSIP amount yrs "large" inflation = Return large
    /\ calculateRegularSIP amount yrs "mid" inflation = Return mid
    /\ calculateRegularSIP amount yrs "small" inflation = Return small
    /\ calculateStepUpSIP amount yrs percent inflation = Return stepUp
    /\ Array_fill (yrs * 12) (Numeric amount) = Return amounts
    /\ calculateFlexibleSIP amounts inflation = Return flexible.
Proof.
  unfold compareAllSIPTypes. cbn [fold_left bind].
  destruct (calculateRegularSIP _ _ "large" _) as [large | |] eqn:H1;
    cbn [bind]; try discriminate.
  destruct (calculateRegularSIP _ _ "mid" _) as [mid | |] eqn:H2;
    cbn [bind]; try discriminate.
  destruct (calculateRegularSIP _ _ "small" _) as [small | |] eqn:H3;
    cbn [bind]; try discriminate.
  destruct (calculateStepUpSIP _ _ _ _) as [stepUp | |] eqn:H4;
    cbn [bind]; try discriminate.
  destruct (Array_fill _ _) as [amounts | |] eqn:H5;
    cbn [bind]; try discriminate.
  destruct (calculateFlexibleSIP _ _) as [flexible | |] eqn:H6;
    cbn [bind]; try discriminate.
  intros [= <-]. cbn [app].
  exists large, mid, small, stepUp, flexible, amounts.
  repeat split; assumption.
Qed.

Lemma compareAllSIPTypes_returns (amount : number) (k : nat)
      (percent inflation : option number) :
  (Z.of_nat (k * 12) < 2 ^ 32)%Z ->
  exists results,
    compareAllSIPTypes (Params.mk amount #k percent inflation)
    = Return results.
Proof.
  intros Hk. unfold compareAllSIPTypes, JS.of_nat.
  cbn [fold_left bind Params.monthlyAmount Params.years
       Params.stepUpPercent Params.inflationRate].
  set (infl := default_to inflation 0).
  set (pct := default_to percent 10).
  destruct (calculateRegularSIP_returns amount (INR k) "large" infl)
    as [r1 ->].
  destruct (calculateRegularSIP_returns amount (INR k) "mid" infl)
    as [r2 ->].
  destruct (calculateRegularSIP_returns amount (INR k) "small" infl)
    as [r3 ->].
  destruct (calculateStepUpSIP_eval amount (INR k) pct infl)
    as (r4 & -> & _).
  cbn [bind JS.mul].
  replace (INR k * 12)%R with (INR (k * 12))
    by (rewrite mult_INR, (INR_IZR_INZ 12); simpl; lra).
  rewrite Array_fill_nat by assumption. cbn [bind].
  destruct (calculateFlexibleSIP_eval
              (repeat (Numeric amount) (k * 12)) infl) as (r5 & -> & _).
  cbn [bind]. eexists; reflexivity.
Qed.

(** C3 (amended).  Whenever the comparison returns, it returns exactly 5
    results, in this order: the Regular results for "large", "mid" and
    "small", the Step-up result (with 10 as the default step-up percentage)
    and the Flexible result for the array holding the same amount for each
    of the [years * 12] periods.  It does return for every non-negative
    integer year count whose period count is a valid array length. *)
Theorem C3_comparator_five_results :
  (forall (baseParams : Params.t) (results : list result),
      compareAllSIPTypes baseParams = Return results ->
      let amount := Params.monthlyAmount baseParams in
      let yrs := Params.years baseParams in
      let percent := default_to (Params.stepUpPercent baseParams) 10 in
      let inflation := default_to (Params.inflationRate baseParams) 0 in
      List.length results = 5%nat
      /\ exists large mid small stepUp flexible amounts,
          results = [large; mid; small; stepUp; flexible]
          /\ calculateRegularSIP amount yrs "large" inflation = Return large
          /\ calculateRegularSIP amount yrs "mid" inflation = Return mid
          /\ calculateRegularSIP amount yrs "small" inflation = Return small
          /\ calculateStepUpSIP amount yrs percent inflation = Return stepUp
          /\ Array_fill (yrs * 12) (Numeric amount) = Return amounts
          /\ calculateFlexibleSIP amounts inflation = Return flexible)
  /\ (forall (amount : number) (k : nat) (percent inflation : option number),
         (Z.of_nat (k * 12) < 2 ^ 32)%Z ->
         Array_fill (#k * 12) (Numeric amount)
         = Return (repeat (Numeric amount) (k * 12))
         /\ exists results,
             compareAllSIPTypes (Params.mk amount #k percent inflation)
             = Return results).
Proof.
  split.
  - intros baseParams results Hres amount yrs percent inflation.
    destruct (compareAllSIPTypes_inv _ _ Hres)
      as (r1 & r2 & r3 & r4 & r5 & amounts & -> & H).
    split; [reflexivity |].
    exists r1, r2, r3, r4, r5, amounts. split; [reflexivity | exact H].
  - intros amount k percent inflation Hk. split.
    + unfold JS.of_nat. cbn [JS.mul].
      replace (INR k * 12)%R with (INR (k * 12))
        by (rewrite mult_INR, (INR_IZR_INZ 12); simpl; lra).
      now apply Array_fill_nat.
    + now apply compareAllSIPTypes_returns.
Qed.

Lemma C3_comparator_five_results_witness :
  (Z.of_nat (10 * 12) < 2 ^ 32)%Z
  /\ exists results,
      compareAllSIPTypes (Params.mk (Num 10000) #10 None None)
      = Return results
      /\ List.length results = 5%nat.
Proof.
  assert (H : (Z.of_nat (10 * 12) < 2 ^ 32)%Z) by (vm_compute; reflexivity).
  split; [exact H |].
  destruct (proj2 (proj2 C3_comparator_five_results (Num 10000) 10%nat
                         None None H)) as [results Hres].
  exists results. split; [exact Hres |].
  exact (proj1 (proj1 C3_comparator_five_results _ _ Hres)).
Defined.

(** For the amount 10000 over 10 years the comparison returns a list whose
    length is not 6. *)
Lemma C3_comparator_count_counterexample :
  exists results,
    compareAllSIPTypes (Params.mk (Num 10000) #10 None None) = Return results
    /\ List.length results <> 6%nat.
Proof.
  destruct (compareAllSIPTypes_returns (Num 10000) 10 None None)
    as [results Hres]; [vm_compute; reflexivity |].
  exists results. split; [exact Hres |].
  destruct (compareAllSIPTypes_inv _ _ Hres)
    as (r1 & r2 & r3 & r4 & r5 & amounts & -> & _).
  cbn [List.length]. lia.
Qed.


(** ** The period-by-period sum and its closed form *)

Lemma fold_right_plus_acc (g : nat -> R) (l : list nat) (c : R) :
  fold_right (fun i acc => (g i + acc)%R) c l
  = (fold_right (fun i acc => (g i + acc)%R) 0%R l + c)%R.
Proof.
  induction l as [| i l IH]; cbn [fold_right]; [lra |].
  rewrite IH. lra.
Qed.

Lemma periodSumUpTo_S (A r : R) (n m : nat) :
  periodSumUpTo A r n (S m)
  = (periodSumUpTo A r n m + A * (1 + r) ^ (n - S m + 1))%R.
Proof.
  unfold periodSumUpTo. rewrite seq_S, fold_right_app.
  cbn [fold_right]. rewrite fold_right_plus_acc.
  replace (1 + m)%nat with (S m) by lia. lra.
Qed.

Lemma periodSumUpTo_closed (A r : R) (n m : nat) :
  r <> 0%R -> (m <= n)%nat ->
  periodSumUpTo A r n m
  = (A * (1 + r) ^ (n - m + 1) * (((1 + r) ^ m - 1) / r))%R.
Proof.
  intros Hr. induction m as [| m IH]; intros Hm.
  - unfold periodSumUpTo. cbn [seq fold_right pow]. field. assumption.
  - rewrite periodSumUpTo_S, IH by lia.
    replace (n - m + 1)%nat with (S (n - S m + 1)) by lia.
    cbn [pow]. field. assumption.
Qed.

Lemma periodSum_closed (A r : R) (n : nat) :
  r <> 0%R ->
  periodSum A r n = (A * (((1 + r) ^ n - 1) / r) * (1 + r))%R.
Proof.
  intros Hr. unfold periodSum.
  rewrite periodSumUpTo_closed by (assumption || lia).
  replace (n - n + 1)%nat with 1%nat by lia. cbn [pow]. field. assumption.
Qed.

(** ** Step-up SIP without escalation *)

Lemma stepUpRate_eval : Num 0.15 / 12 = Num (0.15 / 12).
Proof. apply div_Num. lra. Qed.

Lemma monthsRemaining_eval (n month : nat) :
  (month <= n)%nat ->
  Num (INR n) - #month + 1 = Num (INR (n - month + 1)).
Proof.
  intros H. js_arith. f_equal.
  rewrite plus_INR, minus_INR by assumption. cbn [INR]. reflexivity.
Qed.

Lemma stepUpMonth_no_escalation (A ti fv : R) (n month : nat) :
  (month <= n)%nat ->
  stepUpMonth (Num (INR n)) (Num 0 / 100) month (Num ti, Num fv, Num A)
  = (Num (ti + A), Num (fv + A * (1 + 0.15 / 12) ^ (n - month + 1)), Num A).
Proof.
  intros H. unfold stepUpMonth.
  rewrite monthsRemaining_eval by assumption.
  rewrite stepUpRate_eval. js_arith. rewrite Math_pow_nat by lra.
  rewrite div_Num by lra. js_arith.
  destruct (_ && _); [| reflexivity].
  do 2 f_equal. field.
Qed.

Lemma stepUp_no_escalation_fold (A : R) (n m : nat) :
  (m <= n)%nat ->
  fold_left (fun s month => stepUpMonth (Num (INR n)) (Num 0 / 100) month s)
            (seq 1 m) (Num 0, Num 0, Num A)
  = (Num (A * INR m), Num (periodSumUpTo A (0.15 / 12) n m), Num A).
Proof.
  induction m as [| m IH]; intros Hm.
  - cbn [seq fold_left INR]. unfold periodSumUpTo. cbn [seq fold_right].
    do 3 f_equal. ring.
  - rewrite seq_S, fold_left_app_one, IH by lia.
    replace (1 + m)%nat with (S m) by lia.
    rewrite stepUpMonth_no_escalation by assumption.
    rewrite periodSumUpTo_S, S_INR.
    do 3 f_equal. ring.
Qed.

Lemma months_INR (k : nat) : (INR k * 12)%R = INR (k * 12).
Proof. rewrite mult_INR, (INR_IZR_INZ 12). simpl. lra. Qed.

Lemma monthlyRateOf_small : monthlyRateOf "small" = (0.15 / 12)%R.
Proof.
  unfold monthlyRateOf, annualRateOf. cbn [String.eqb Ascii.eqb Bool.eqb].
  reflexivity.
Qed.

(** ** C4: Step-up without escalation against Regular *)

(** C4 (amended).  Under exact arithmetic, with a step-up percentage of 0
    the Step-up calculator returns, for every finite amount [A] and whole
    year count, the same [futureValue] as the Regular calculator for the
    "small" category (whose annual rate is the 0.15 the Step-up calculator
    assumes): with [r = 0.15/12] and [n = years * 12], the period-by-period
    sum of [A * (1+r)^(n-i+1)] for [i = 1 .. n] equals the closed form
    [A * ((1+r)^n - 1)/r * (1+r)]. *)
Theorem C4_stepup_no_escalation (A : R) (k : nat)
        (inflationRate inflationRate' : number) :
  exists stepUp regular,
    calculateStepUpSIP (Num A) #k (Num 0) inflationRate = Return stepUp
    /\ calculateRegularSIP (Num A) #k "small" inflationRate' = Return regular
    /\ annualRate stepUp = annualRate regular
    /\ futureValue stepUp = Num (periodSum A (0.15 / 12) (k * 12))
    /\ futureValue regular
       = Num (A * (((1 + 0.15 / 12) ^ (k * 12) - 1) / (0.15 / 12))
              * (1 + 0.15 / 12))
    /\ futureValue stepUp = futureValue regular.
Proof.
  unfold JS.of_nat.
  destruct (calculateStepUpSIP_eval (Num A) (INR k) (Num 0) inflationRate)
    as (su & Hsu & Htot & _).
  destruct (regular_eval A (INR k) (k * 12) "small" inflationRate'
                         eq_refl (months_INR k))
    as (reg & Hreg & Hfv & _).
  exists su, reg. split; [exact Hsu |]. split; [exact Hreg |].
  assert (Har : annualRate su = annualRate reg).
  { destruct (calculateRegularSIP_fields _ _ _ _ _ Hreg)
      as (_ & _ & _ & _ & Har & _).
    rewrite Har. unfold rateOf. rewrite rate_lookup by reflexivity.
    revert Hsu. unfold calculateStepUpSIP.
    destruct (for_upto (Num (INR k) * 12) _ _) as [[[ti fv] cur] | e |];
      cbn [bind]; try discriminate.
    destruct (inflationRate >? 0);
      (destruct (for_upto (Num (INR k)) _ _) as [[[[ci cv] ya] yb] | e |];
       cbn [bind]; try discriminate);
      intros [= <-]; cbn [annualRate];
      unfold annualRateOf; cbn [String.eqb Ascii.eqb Bool.eqb];
      reflexivity. }
  cbn [JS.mul] in Htot. rewrite months_INR, Zfloor_INR, Nat2Z.id in Htot.
  rewrite stepUp_no_escalation_fold in Htot by lia.
  cbn [fst] in Htot. injection Htot as _ Hfvs.
  rewrite monthlyRateOf_small in Hfv.
  split; [exact Har |]. split; [exact Hfvs |]. split; [exact Hfv |].
  rewrite Hfvs, Hfv. f_equal. apply periodSum_closed. lra.
Qed.

(** ** The rounding of binary64 *)

Lemma binary64_nearest_spec (N D : Z) :
  (0 <= N)%Z -> (0 < D)%Z ->
  (N / D <= Binary64.nearest N D <= N / D + 1)%Z
  /\ (2 * Z.abs (N - Binary64.nearest N D * D) <= D)%Z
  /\ ((2 * Z.abs (N - Binary64.nearest N D * D) = D)%Z ->
      Z.even (Binary64.nearest N D) = true).
Proof.
  intros HN HD. unfold Binary64.nearest.
  pose proof (Z.div_mod N D ltac:(lia)) as Hdm.
  pose proof (Z.mod_pos_bound N D HD) as Hr.
  set (q := (N / D)%Z) in *. set (r := (N mod D)%Z) in *.
  destruct (Z.ltb_spec D (2 * r)) as [Hlt | Hge]; cbn [orb].
  - split; [lia |]. split; [lia |]. lia.
  - destruct (Z.eqb_spec D (2 * r)) as [Heq | Hne]; cbn [andb].
    + destruct (Z.odd q) eqn:Hodd.
      * split; [lia |]. split; [lia |]. intros _.
        rewrite Z.even_add, <- Z.negb_odd, Hodd. reflexivity.
      * split; [lia |]. split; [lia |]. intros _.
        now rewrite <- Z.negb_odd, Hodd.
    + split; [lia |]. split; [lia |]. lia.
Qed.

Lemma binary64_scale_spec (a d e : Z) :
  Binary64.scale a d e
  = (a * 2 ^ Z.max (- e) 0, d * 2 ^ Z.max e 0)%Z.
Proof.
  unfold Binary64.scale.
  destruct (Z.leb_spec 0 e).
  - rewrite Z.max_r, Z.max_l by lia. rewrite Z.pow_0_r. f_equal. ring.
  - rewrite Z.max_l, Z.max_r by lia. rewrite Z.pow_0_r. f_equal. ring.
Qed.

Lemma binary64_scale_pos (a d e : Z) :
  (0 < a)%Z -> (0 < d)%Z ->
  (0 < fst (Binary64.scale a d e))%Z /\ (0 < snd (Binary64.scale a d e))%Z.
Proof.
  intros Ha Hd. rewrite binary64_scale_spec. cbn [fst snd].
  assert (0 < 2 ^ Z.max (- e) 0)%Z by (apply Z.pow_pos_nonneg; lia).
  assert (0 < 2 ^ Z.max e 0)%Z by (apply Z.pow_pos_nonneg; lia).
  split; apply Z.mul_pos_pos; assumption.
Qed.

Lemma binary64_div_lt_inv (N D q : Z) :
  (0 < D)%Z -> (N / D < q)%Z -> (N < q * D)%Z.
Proof.
  intros HD H. destruct (Z.lt_ge_cases N (q * D)) as [Hlt | Hge]; [exact Hlt |].
  assert (q <= N / D)%Z by (apply Z.div_le_lower_bound; lia). lia.
Qed.

Lemma binary64_binade_first (a d : Z) :
  (0 < a)%Z -> (0 < d)%Z ->
  let e0 := (Z.log2 a - Z.log2 d - 52)%Z in
  (2 ^ 51 * snd (Binary64.scale a d e0) <= fst (Binary64.scale a d e0)
   < 2 ^ 53 * snd (Binary64.scale a d e0))%Z.
Proof.
  intros Ha Hd e0.
  destruct (Z.log2_spec a Ha) as [Hla1 Hla2].
  destruct (Z.log2_spec d Hd) as [Hld1 Hld2].
  pose proof (Z.log2_nonneg a) as Hla0.
  pose proof (Z.log2_nonneg d) as Hld0.
  rewrite Z.pow_succ_r in Hla2, Hld2 by assumption.
  unfold Binary64.scale.
  destruct (Z.leb_spec 0 e0) as [He | He]; cbn [fst snd].
  - assert (HP : (2 ^ Z.log2 a = 2 ^ Z.log2 d * 2 ^ 52 * 2 ^ e0)%Z).
    { rewrite <- !Z.pow_add_r by lia. f_equal. unfold e0. lia. }
    assert (HE : (0 < 2 ^ e0)%Z) by (apply Z.pow_pos_nonneg; lia).
    set (P := (2 ^ Z.log2 a)%Z) in *. set (Q := (2 ^ Z.log2 d)%Z) in *.
    set (E := (2 ^ e0)%Z) in *.
    change (2 ^ 51)%Z with 2251799813685248%Z.
    change (2 ^ 53)%Z with 9007199254740992%Z.
    change (2 ^ 52)%Z with 4503599627370496%Z in HP.
    nia.
  - assert (HP : (2 ^ Z.log2 d * 2 ^ 52 = 2 ^ Z.log2 a * 2 ^ (- e0))%Z).
    { rewrite <- !Z.pow_add_r by lia. f_equal. unfold e0. lia. }
    assert (HE : (0 < 2 ^ (- e0))%Z) by (apply Z.pow_pos_nonneg; lia).
    set (P := (2 ^ Z.log2 a)%Z) in *. set (Q := (2 ^ Z.log2 d)%Z) in *.
    set (E := (2 ^ (- e0))%Z) in *.
    change (2 ^ 51)%Z with 2251799813685248%Z.
    change (2 ^ 53)%Z with 9007199254740992%Z.
    change (2 ^ 52)%Z with 4503599627370496%Z in HP.
    nia.
Qed.

Lemma binary64_scale_pred (a d e : Z) :
  (0 < a)%Z -> (0 < d)%Z ->
  (fst (Binary64.scale a d (e - 1)) * snd (Binary64.scale a d e)
   = 2 * fst (Binary64.scale a d e) * snd (Binary64.scale a d (e - 1)))%Z.
Proof.
  intros Ha Hd. unfold Binary64.scale.
  destruct (Z.leb_spec 0 e) as [He | He];
    destruct (Z.leb_spec 0 (e - 1)) as [He' | He']; cbn [fst snd]; try lia.
  - assert (H : (2 ^ e = 2 * 2 ^ (e - 1))%Z).
    { rewrite <- Z.pow_succ_r by lia. f_equal. lia. }
    rewrite H. ring.
  - assert (e = 0%Z) as -> by lia.
    replace (- (0 - 1))%Z with 1%Z by lia.
    rewrite Z.pow_0_r, Z.pow_1_r. ring.
  - assert (H : (2 ^ (- (e - 1)) = 2 * 2 ^ (- e))%Z).
    { rewrite <- Z.pow_succ_r by lia. f_equal. lia. }
    rewrite H. ring.
Qed.

Lemma binary64_binade_spec (a d : Z) :
  (0 < a)%Z -> (0 < d)%Z ->
  (2 ^ 52 <= fst (Binary64.scale a d (Binary64.binade a d))
             / snd (Binary64.scale a d (Binary64.binade a d)) < 2 ^ 53)%Z.
Proof.
  intros Ha Hd. unfold Binary64.binade.
  pose proof (binary64_binade_first a d Ha Hd) as Hfirst. cbv zeta in Hfirst.
  set (e0 := (Z.log2 a - Z.log2 d - 52)%Z) in *.
  pose proof (binary64_scale_pos a d e0 Ha Hd) as [HN0 HD0].
  pose proof (binary64_scale_pos a d (e0 - 1) Ha Hd) as [HN1 HD1].
  pose proof (binary64_scale_pred a d e0 Ha Hd) as Hpred.
  destruct (Binary64.scale a d e0) as [N0 D0] eqn:Hs0. cbn [fst snd] in *.
  destruct (Z.ltb_spec (N0 / D0) (2 ^ 52)) as [Hlt | Hge].
  - apply binary64_div_lt_inv in Hlt; [| assumption].
    destruct (Binary64.scale a d (e0 - 1)) as [N1 D1]. cbn [fst snd] in *.
    change (2 ^ 51)%Z with 2251799813685248%Z in *.
    change (2 ^ 53)%Z with 9007199254740992%Z in *.
    change (2 ^ 52)%Z with 4503599627370496%Z in *.
    split.
    + apply Z.div_le_lower_bound; [assumption |]. nia.
    + apply Z.div_lt_upper_bound; [assumption |]. nia.
  - rewrite Hs0. cbn [fst snd]. split; [assumption |].
    apply Z.div_lt_upper_bound; [assumption |]. lia.
Qed.

(** [round] is the rounding of binary64 to nearest, ties to even: its
    result [m * 2^e] has a mantissa of 53 bits with the sign of [n], an
    exponent in the normal range, lies within half a unit in the last place
    of [n / d], and has an even mantissa when [n / d] is half-way. *)
Lemma binary64_round_nearest (n d m e : Z) :
  n <> 0%Z -> (0 < d)%Z ->
  Binary64.round n d = Some (Binary64.mk m e) ->
  (2 ^ 52 <= Z.abs m < 2 ^ 53)%Z
  /\ Z.sgn m = Z.sgn n
  /\ (-1074 <= e <= 971)%Z
  /\ (2 * Z.abs (n * 2 ^ Z.max (- e) 0 - m * d * 2 ^ Z.max e 0)
      <= d * 2 ^ Z.max e 0)%Z
  /\ ((2 * Z.abs (n * 2 ^ Z.max (- e) 0 - m * d * 2 ^ Z.max e 0)
       = d * 2 ^ Z.max e 0)%Z ->
      Z.even m = true).
Proof.
  intros Hn Hd. unfold Binary64.round.
  destruct (Z.leb_spec d 0); [lia |].
  destruct (Z.eqb_spec n 0); [lia |].
  assert (Ha : (0 < Z.abs n)%Z) by lia.
  pose proof (binary64_binade_spec (Z.abs n) d Ha Hd) as Hb.
  set (e1 := Binary64.binade (Z.abs n) d) in *.
  rewrite binary64_scale_spec in *. cbn [fst snd] in Hb.
  set (N := (Z.abs n * 2 ^ Z.max (- e1) 0)%Z) in *.
  set (D := (d * 2 ^ Z.max e1 0)%Z) in *.
  assert (HD : (0 < D)%Z).
  { apply Z.mul_pos_pos; [assumption |]. apply Z.pow_pos_nonneg; lia. }
  assert (HN : (0 <= N)%Z).
  { apply Z.mul_nonneg_nonneg; [lia |]. apply Z.pow_nonneg; lia. }
  destruct (binary64_nearest_spec N D HN HD) as (Hq & Herr & Heven).
  set (q := Binary64.nearest N D) in *.
  change (2 ^ 52)%Z with 4503599627370496%Z in *.
  change (2 ^ 53)%Z with 9007199254740992%Z in *.
  assert (Hsgn : forall x : Z, (0 < x)%Z -> Z.sgn (Z.sgn n * x) = Z.sgn n)
    by (intros x Hx; destruct n; cbn [Z.sgn]; try lia; destruct x; cbn; lia).
  assert (Habs : forall x : Z, (0 < x)%Z -> Z.abs (Z.sgn n * x) = x)
    by (intros x Hx; destruct n; cbn [Z.sgn]; lia).
  assert (Herrn : forall X Y1 Y2 x : Z,
             Z.abs (n * X - Z.sgn n * x * Y1 * Y2)
             = Z.abs (Z.abs n * X - x * Y1 * Y2))
    by (intros X Y1 Y2 x; destruct n; cbn [Z.sgn Z.abs]; lia).
  assert (Hevn : forall x : Z, Z.even (Z.sgn n * x) = Z.even x).
  { intros x. rewrite Z.even_mul. destruct n; cbn [Z.sgn]; try lia;
      reflexivity. }
  destruct (Z.eqb_spec q 9007199254740992) as [Hq53 | Hq53].
  - destruct (_ && _) eqn:Hrange; [| discriminate].
    intros [= <- <-].
    apply andb_prop in Hrange. destruct Hrange as [Hr1 Hr2].
    apply Z.leb_le in Hr1, Hr2.
    rewrite Habs, Hsgn, Herrn, Hevn by lia.
    split; [lia |]. split; [reflexivity |]. split; [lia |].
    split; [| intros _; reflexivity].
    assert (Hcase : (2 ^ Z.max (- e1) 0 = 2 ^ Z.max (- (e1 + 1)) 0
                     /\ 2 ^ Z.max (e1 + 1) 0 = 2 * 2 ^ Z.max e1 0)%Z
                    \/ (2 ^ Z.max (- e1) 0 = 2 * 2 ^ Z.max (- (e1 + 1)) 0
                        /\ 2 ^ Z.max (e1 + 1) 0 = 2 ^ Z.max e1 0)%Z).
    { destruct (Z.le_gt_cases 0 e1).
      - left.
        rewrite (Z.max_r (- e1) 0), (Z.max_r (- (e1 + 1)) 0) by lia.
        rewrite (Z.max_l (e1 + 1) 0), (Z.max_l e1 0) by lia.
        split; [reflexivity |].
        rewrite <- Z.pow_succ_r by lia. reflexivity.
      - right.
        rewrite (Z.max_l (- e1) 0), (Z.max_l (- (e1 + 1)) 0) by lia.
        rewrite (Z.max_r (e1 + 1) 0), (Z.max_r e1 0) by lia.
        split; [| reflexivity].
        rewrite <- Z.pow_succ_r by lia. f_equal. lia. }
    subst N D. rewrite Hq53 in Herr.
    assert (0 < 2 ^ Z.max e1 0)%Z by (apply Z.pow_pos_nonneg; lia).
    destruct Hcase as [[HX HY] | [HX HY]]; rewrite HX in Herr; rewrite HY.
    + set (X := (2 ^ Z.max (- (e1 + 1)) 0)%Z) in *.
      set (Y := (2 ^ Z.max e1 0)%Z) in *.
      replace (4503599627370496 * d * (2 * Y))%Z
        with (9007199254740992 * (d * Y))%Z by ring.
      replace (d * (2 * Y))%Z with (2 * (d * Y))%Z by ring.
      set (DY := (d * Y)%Z) in *. set (AX := (Z.abs n * X)%Z) in *. lia.
    + set (X := (2 ^ Z.max (- (e1 + 1)) 0)%Z) in *.
      set (Y := (2 ^ Z.max e1 0)%Z) in *.
      replace (Z.abs n * (2 * X))%Z with (2 * (Z.abs n * X))%Z in Herr
        by ring.
      replace (4503599627370496 * d * Y)%Z
        with (4503599627370496 * (d * Y))%Z by ring.
      set (DY := (d * Y)%Z) in *. set (AX := (Z.abs n * X)%Z) in *. lia.
  - destruct (_ && _) eqn:Hrange; [| discriminate].
    intros [= <- <-].
    apply andb_prop in Hrange. destruct Hrange as [Hr1 Hr2].
    apply Z.leb_le in Hr1, Hr2.
    assert (Hqpos : (0 < q)%Z) by lia.
    rewrite Habs, Hsgn, Herrn, Hevn by lia.
    split; [lia |]. split; [reflexivity |]. split; [lia |].
    subst N D.
    replace (q * d * 2 ^ Z.max e1 0)%Z with (q * (d * 2 ^ Z.max e1 0))%Z
      by ring.
    split; [exact Herr | exact Heven].
Qed.

(** Known values: the doubles of 0.1 and 0.3, the sum [0.1 + 0.2], which
    is the next double above that of 0.3, two ties, and the periodic rate
    [0.15 / 12] of the Step-up calculator. *)
Lemma binary64_round_examples :
  Binary64.literal 1 10 = Some (Binary64.mk 7205759403792794 (-56))
  /\ Binary64.literal 3 10 = Some (Binary64.mk 5404319552844595 (-54))
  /\ Binary64.add (Binary64.literal 1 10) (Binary64.literal 2 10)
     = Some (Binary64.mk 5404319552844596 (-54))
  /\ Binary64.of_Z (2 ^ 53 + 1) = Some (Binary64.mk (2 ^ 52) 1)
  /\ Binary64.of_Z (2 ^ 53 + 3) = Some (Binary64.mk (2 ^ 52 + 2) 1)
  /\ Binary64.div (Binary64.literal 15 100) (Binary64.of_Z 12)
     = Some (Binary64.mk 7205759403792793 (-59))
  /\ Binary64.div (Binary64.of_Z 1) (Binary64.of_Z 0) = None.
Proof. repeat split; vm_compute; reflexivity. Qed.

(** In double arithmetic the two paths round differently.  For the amount
    1000 over 5 years with a step-up percentage of 0, both calculators
    invest 60000, but the month loop of the Step-up calculator ends on the
    double [6162878747962256 * 2^-36], which prints as 89681.68910305039,
    and the closed form of the Regular calculator at the rate 0.15 gives
    [6162878747962235 * 2^-36], which prints as 89681.68910305008. *)
Lemma C4_double_rounding_counterexample :
  Binary64.calculateStepUpSIP (Binary64.of_Z 1000) 5 (Binary64.of_Z 0)
  = (Binary64.of_Z 60000, Some (Binary64.mk 6162878747962256 (-36)))
  /\ Binary64.calculateRegularSIP (Binary64.of_Z 1000) 5
                                  (Binary64.literal 15 100)
     = (Binary64.of_Z 60000, Some (Binary64.mk 6162878747962235 (-36)))
  /\ snd (Binary64.calculateStepUpSIP (Binary64.of_Z 1000) 5
                                      (Binary64.of_Z 0))
     <> snd (Binary64.calculateRegularSIP (Binary64.of_Z 1000) 5
                                          (Binary64.literal 15 100))
  /\ Binary64.compare_rational
       (Some (Binary64.mk 6162878747962256 (-36)))
       8968168910305038 100000000000 = Some Gt
  /\ Binary64.compare_rational
       (Some (Binary64.mk 6162878747962256 (-36)))
       8968168910305040 100000000000 = Some Lt
  /\ Binary64.compare_rational
       (Some (Binary64.mk 6162878747962235 (-36)))
       8968168910305007 100000000000 = Some Gt
  /\ Binary64.compare_rational
       (Some (Binary64.mk 6162878747962235 (-36)))
       8968168910305009 100000000000 = Some Lt.
Proof.
  assert (Hs : Binary64.calculateStepUpSIP (Binary64.of_Z 1000) 5
                                           (Binary64.of_Z 0)
               = (Binary64.of_Z 60000,
                  Some (Binary64.mk 6162878747962256 (-36))))
    by (vm_compute; reflexivity).
  assert (Hr : Binary64.calculateRegularSIP (Binary64.of_Z 1000) 5
                                            (Binary64.literal 15 100)
               = (Binary64.of_Z 60000,
                  Some (Binary64.mk 6162878747962235 (-36))))
    by (vm_compute; reflexivity).
  split; [exact Hs |]. split; [exact Hr |].
  split; [rewrite Hs, Hr; cbn [snd]; intros H; discriminate H |].
  repeat split; vm_compute; reflexivity.
Qed.

(** ** Year-wise breakdown of the Regular calculator *)

Lemma ceil_whole_years (k : nat) :
  Z.to_nat (Zceil (INR (k * 12) / 12)) = k.
Proof.
  rewrite <- months_INR.
  replace (INR k * 12 / 12)%R with (INR k) by field.
  rewrite (Zceil_eq (Z.of_nat k)); [apply Nat2Z.id |].
  rewrite <- INR_IZR_INZ. lra.
Qed.

Lemma regular_timeline (amount : number) (k : nat) (category : string)
      (inflationRate : number) :
  (0 < k)%nat ->
  exists res,
    calculateRegularSIP amount #k category inflationRate = Return res
    /\ months res = #k * 12
    /\ timelineConsistent (k * 12) res.
Proof.
  intros Hk. unfold JS.of_nat.
  destruct (calculateRegularSIP_returns amount (INR k) category inflationRate)
    as [res Hres].
  exists res. split; [exact Hres |].
  destruct (calculateRegularSIP_fields _ _ _ _ _ Hres)
    as (Hti & _ & _ & _ & _ & Hmonths & n & Hn & Hyb).
  rewrite iterations_nat in Hn. injection Hn as <-.
  split; [exact Hmonths |].
  unfold timelineConsistent. rewrite Hyb, length_map, length_seq.
  split; [symmetry; apply ceil_whole_years |].
  destruct k as [| k]; [lia |].
  rewrite seq_S, map_app. cbn [map].
  eexists. eexists. split; [reflexivity |].
  cbn [Row.investment]. rewrite Hti.
  replace (1 + k)%nat with (S k) by lia. reflexivity.
Qed.

(** ** Year-wise breakdown of the Step-up calculator *)

Lemma ltb_INR (m n : nat) : (#m <? #n) = (m <? n)%nat.
Proof.
  unfold JS.of_nat. destruct (Nat.ltb_spec m n).
  - apply ltb_Num_true. now apply lt_INR.
  - apply ltb_Num_false. now apply le_INR.
Qed.

Lemma leb_INR (m n : nat) : (#m <=? #n) = (m <=? n)%nat.
Proof.
  unfold JS.of_nat. destruct (Nat.leb_spec m n).
  - apply leb_Num_true. now apply le_INR.
  - apply leb_Num_false. now apply lt_INR.
Qed.

Section StepUpTimeline.

Variable k : nat.
Variable d : number.

(** A month of the month loop is the same month of the year-wise loop; the
    amount is stepped up after the 12th month of every year but the
    last. *)
Lemma stepUpMonth_in_year (year j : nat) (ti fv cur : number) :
  (1 <= year <= k)%nat -> (1 <= j <= 12)%nat ->
  stepUpMonth #(k * 12) d ((year - 1) * 12 + j) (ti, fv, cur)
  = (let '(ti', fv') := stepUpYearMonth #(k * 12) cur year (ti, fv) j in
     (ti', fv',
      if (j =? 12)%nat && (year <? k)%nat then cur * (1 + d) else cur)).
Proof.
  intros Hy Hj. unfold stepUpMonth, stepUpYearMonth.
  rewrite leb_INR, ltb_INR.
  destruct (Nat.leb_spec ((year - 1) * 12 + j) (k * 12)); [| lia].
  assert (Hc : ((((year - 1) * 12 + j) mod 12 =? 0)%nat
                && ((year - 1) * 12 + j <? k * 12)%nat)
               = ((j =? 12)%nat && (year <? k)%nat)).
  { rewrite Nat.add_comm, Nat.Div0.mod_add.
    destruct (Nat.eqb_spec j 12) as [-> | Hne].
    - rewrite Nat.Div0.mod_same. cbn [Nat.eqb andb].
      destruct (Nat.ltb_spec year k), (Nat.ltb_spec (12 + (year - 1) * 12) (k * 12));
        try reflexivity; lia.
    - rewrite Nat.mod_small by lia.
      destruct (Nat.eqb_spec j 0); [lia | reflexivity]. }
  rewrite Hc. reflexivity.
Qed.

(** The first months of a year, none of them the 12th. *)
Lemma stepUp_months_of_year (year len : nat) :
  forall (j0 : nat) (ti fv cur : number),
    (1 <= year <= k)%nat -> (1 <= j0)%nat -> (j0 + len <= 12)%nat ->
    fold_left (fun s month => stepUpMonth #(k * 12) d month s)
              (seq ((year - 1) * 12 + j0) len) (ti, fv, cur)
    = (let '(ti', fv') :=
         fold_left (stepUpYearMonth #(k * 12) cur year) (seq j0 len) (ti, fv)
       in (ti', fv', cur)).
Proof.
  induction len as [| len IH]; intros j0 ti fv cur Hy Hj0 Hlen.
  - reflexivity.
  - cbn [seq fold_left].
    rewrite stepUpMonth_in_year by lia.
    destruct (stepUpYearMonth #(k * 12) cur year (ti, fv) j0) as [ti' fv'].
    destruct (Nat.eqb_spec j0 12); [lia |]. cbn [andb].
    replace (S ((year - 1) * 12 + j0)) with ((year - 1) * 12 + S j0)%nat
      by lia.
    now rewrite IH by lia.
Qed.

(** A whole year of the month loop against one year of the year-wise
    loop. *)
Lemma stepUp_year (year : nat) (ti fv cur : number) (rows : list Row.t) :
  (1 <= year <= k)%nat ->
  exists ti' fv' cur' row,
    fold_left (fun s month => stepUpMonth #(k * 12) d month s)
              (seq ((year - 1) * 12 + 1) 12) (ti, fv, cur)
    = (ti', fv', cur')
    /\ stepUpYear #k d year (ti, fv, cur, rows)
       = (ti', fv', cur', rows ++ [row])
    /\ Row.investment row = ti'.
Proof.
  intros Hy.
  rewrite (seq_S 11 ((year - 1) * 12 + 1)), fold_left_app_one.
  rewrite stepUp_months_of_year by lia.
  unfold stepUpYear.
  assert (Hm : #k * 12 = #(k * 12))
    by (unfold JS.of_nat; cbn [JS.mul]; now rewrite months_INR).
  rewrite Hm. rewrite (seq_S 11 1), fold_left_app_one.
  destruct (fold_left (stepUpYearMonth #(k * 12) cur year) (seq 1 11) (ti, fv))
    as [ti1 fv1].
  replace ((year - 1) * 12 + 1 + 11)%nat with ((year - 1) * 12 + 12)%nat
    by lia.
  rewrite stepUpMonth_in_year by lia.
  replace (1 + 11)%nat with 12%nat by reflexivity.
  destruct (stepUpYearMonth #(k * 12) cur year (ti1, fv1) 12) as [ti' fv'].
  cbn [Nat.eqb andb]. rewrite ltb_INR.
  do 4 eexists. split; [reflexivity |]. split; reflexivity.
Qed.

(** The two loops after [y] whole years. *)
Lemma stepUp_years (amount : number) (y : nat) :
  (y <= k)%nat ->
  exists ti fv cur rows,
    fold_left (fun s month => stepUpMonth #(k * 12) d month s)
              (seq 1 (y * 12)) (Num 0, Num 0, amount)
    = (ti, fv, cur)
    /\ fold_left (fun s year => stepUpYear #k d year s)
                 (seq 1 y) (Num 0, Num 0, amount, [])
       = (ti, fv, cur, rows)
    /\ List.length rows = y
    /\ ((0 < y)%nat ->
        exists rows' row, rows = rows' ++ [row] /\ Row.investment row = ti).
Proof.
  induction y as [| y IH]; intros Hy.
  - exists (Num 0), (Num 0), amount, []. cbn [Nat.mul seq fold_left].
    repeat split; try reflexivity. lia.
  - destruct IH as (ti & fv & cur & rows & Hm & Hyr & Hlen & _); [lia |].
    destruct (stepUp_year (S y) ti fv cur rows)
      as (ti' & fv' & cur' & row & Hm' & Hyr' & Hrow); [lia |].
    exists ti', fv', cur', (rows ++ [row]).
    split.
    { replace (S y * 12)%nat with (y * 12 + 12)%nat by lia.
      rewrite seq_app, fold_left_app, Hm.
      replace (1 + y * 12)%nat with ((S y - 1) * 12 + 1)%nat by lia.
      exact Hm'. }
    split.
    { rewrite seq_S, fold_left_app_one, Hyr.
      replace (1 + y)%nat with (S y) by lia. exact Hyr'. }
    split; [rewrite length_app; cbn [List.length]; lia |].
    intros _. exists rows, row. split; [reflexivity | exact Hrow].
Qed.

End StepUpTimeline.

Lemma stepUp_timeline (amount : number) (k : nat)
      (percent inflationRate : number) :
  (0 < k)%nat ->
  exists res,
    calculateStepUpSIP amount #k percent inflationRate = Return res
    /\ timelineConsistent (k * 12) res.
Proof.
  intros Hk. unfold JS.of_nat.
  destruct (calculateStepUpSIP_eval amount (INR k) percent inflationRate)
    as (res & Hres & Htot & Hyb & _).
  exists res. split; [exact Hres |].
  cbn [JS.mul] in Htot. rewrite months_INR, !Zfloor_INR, !Nat2Z.id in *.
  destruct (stepUp_years k (percent / 100) amount k (Nat.le_refl k))
    as (ti & fv & cur & rows & Hm & Hyr & Hlen & Hlast).
  unfold JS.of_nat in Hm, Hyr.
  rewrite Hm in Htot. rewrite Hyr in Hyb. cbn [fst snd] in *.
  injection Htot as Hti _.
  unfold timelineConsistent. rewrite Hyb, Hlen, ceil_whole_years.
  split; [reflexivity |].
  destruct (Hlast Hk) as (rows' & row & -> & Hrow).
  exists rows', row. split; [reflexivity |]. now rewrite Hrow, Hti.
Qed.

(** ** Year-wise breakdown of the Flexible calculator *)

Lemma ceil_months_bounds (n : nat) :
  (n <= 12 * Z.to_nat (Zceil (INR n / 12)) < n + 12)%nat.
Proof.
  pose proof (Zceil_bound (INR n / 12)) as [Hlo Hhi].
  pose proof (pos_INR n) as Hn.
  assert (Hc : (0 <= Zceil (INR n / 12))%Z).
  { apply le_IZR. lra. }
  set (Y := Z.to_nat (Zceil (INR n / 12))).
  assert (HY : INR Y = IZR (Zceil (INR n / 12))).
  { unfold Y. rewrite INR_IZR_INZ, Z2Nat.id by assumption. reflexivity. }
  rewrite <- HY in Hlo, Hhi.
  assert (H12 : INR 12 = 12%R) by (rewrite INR_IZR_INZ; reflexivity).
  split.
  - apply INR_le. rewrite mult_INR, H12. lra.
  - apply INR_lt. rewrite mult_INR, plus_INR, H12. lra.
Qed.

Lemma fold_left_ext_in {A B : Type} (f g : A -> B -> A) (l : list B) :
  (forall a x, In x l -> f a x = g a x) ->
  forall a, fold_left f l a = fold_left g l a.
Proof.
  induction l as [| x l IH]; intros H a; [reflexivity |].
  cbn [fold_left]. rewrite (H a x) by now left.
  apply IH. intros a' x' Hx'. apply H. now right.
Qed.

Lemma fold_left_combine_seq {A St : Type} (f : St -> nat * A -> St) (d : A)
      (l : list A) :
  forall (s : nat) (st : St),
    fold_left f (combine (seq s (List.length l)) l) st
    = fold_left (fun st m => f st (m, nth (m - s)%nat l d))
                (seq s (List.length l)) st.
Proof.
  induction l as [| e l IH]; intros s st; [reflexivity |].
  cbn [List.length seq combine fold_left].
  rewrite Nat.sub_diag. cbn [nth]. rewrite IH.
  apply fold_left_ext_in. intros a m Hm. apply in_seq in Hm.
  replace (m - s)%nat with (S (m - S s))%nat by lia. reflexivity.
Qed.

Section FlexibleTimeline.

Variable amounts : list entry.

Lemma flexibleYearMonth_fst (st : number * number * number) (m : nat) :
  fst (flexibleYearMonth amounts st m) = flexibleMonthAt amounts (fst st) m.
Proof.
  destruct st as [[ci cv] yi].
  unfold flexibleYearMonth, flexibleMonthAt, flexibleMonth. cbn [fst].
  destruct (JS.or (parseFloat (at_index amounts m)) 0 >? 0);
    reflexivity.
Qed.

Lemma flexibleYear_months (l : list nat) :
  forall st : number * number * number,
    fst (fold_left (flexibleYearMonth amounts) l st)
    = fold_left (flexibleMonthAt amounts) l (fst st).
Proof.
  induction l as [| m l IH]; intros st; [reflexivity |].
  cbn [fold_left]. now rewrite IH, flexibleYearMonth_fst.
Qed.

Lemma flexible_main_loop (st : number * number) :
  fold_left (flexibleMonth (List.length amounts))
            (combine (seq 0 (List.length amounts)) amounts) st
  = fold_left (flexibleMonthAt amounts) (seq 0 (List.length amounts)) st.
Proof.
  rewrite (fold_left_combine_seq _ NonNumeric).
  apply fold_left_ext_in. intros a m _.
  unfold flexibleMonthAt, at_index. now rewrite Nat.sub_0_r.
Qed.

Lemma flexibleYear_step (year : nat) (ci cv : number) (rows : list Row.t) :
  exists ci' cv' row,
    flexibleYear amounts year (ci, cv, rows) = (ci', cv', rows ++ [row])
    /\ (ci', cv')
       = fold_left (flexibleMonthAt amounts)
                   (seq ((year - 1) * 12)
                        (Nat.min (year * 12) (List.length amounts)
                         - (year - 1) * 12))
                   (ci, cv)
    /\ Row.investment row = ci'.
Proof.
  unfold flexibleYear.
  pose proof (flexibleYear_months
                (seq ((year - 1) * 12)
                     (Nat.min (year * 12) (List.length amounts)
                      - (year - 1) * 12))
                (ci, cv, Num 0)) as H.
  destruct (fold_left (flexibleYearMonth amounts) _ (ci, cv, Num 0))
    as [[ci' cv'] yi].
  cbn [fst] in H.
  do 3 eexists. split; [reflexivity |]. split; [exact H | reflexivity].
Qed.

Lemma flexible_years (y : nat) :
  exists ci cv rows,
    fold_left (fun s year => flexibleYear amounts year s) (seq 1 y)
              (Num 0, Num 0, [])
    = (ci, cv, rows)
    /\ (ci, cv)
       = fold_left (flexibleMonthAt amounts)
                   (seq 0 (Nat.min (y * 12) (List.length amounts)))
                   (Num 0, Num 0)
    /\ List.length rows = y
    /\ ((0 < y)%nat ->
        exists rows' row, rows = rows' ++ [row] /\ Row.investment row = ci).
Proof.
  induction y as [| y IH].
  - exists (Num 0), (Num 0), []. cbn [Nat.mul Nat.min seq fold_left].
    repeat split; try reflexivity. lia.
  - destruct IH as (ci & cv & rows & Hyr & Hm & Hlen & _).
    destruct (flexibleYear_step (S y) ci cv rows)
      as (ci' & cv' & row & Hstep & Hm' & Hrow).
    exists ci', cv', (rows ++ [row]).
    split.
    { rewrite seq_S, fold_left_app_one, Hyr.
      replace (1 + y)%nat with (S y) by lia. exact Hstep. }
    split.
    { rewrite Hm', Hm, <- fold_left_app. f_equal.
      replace ((S y - 1) * 12)%nat with (y * 12)%nat by lia.
      destruct (Nat.le_gt_cases (y * 12) (List.length amounts)) as [Hle | Hgt].
      - rewrite (Nat.min_l (y * 12) (List.length amounts)) by assumption.
        rewrite <- seq_app. f_equal. lia.
      - rewrite (Nat.min_r (y * 12) (List.length amounts)),
          (Nat.min_r (S y * 12) (List.length amounts)) by lia.
        replace ((List.length amounts) - y * 12)%nat with 0%nat by lia.
        cbn [seq]. now rewrite app_nil_r. }
    split; [rewrite length_app; cbn [List.length]; lia |].
    intros _. exists rows, row. split; [reflexivity | exact Hrow].
Qed.

Lemma flexible_timeline (inflationRate : number) :
  amounts <> [] ->
  exists res,
    calculateFlexibleSIP amounts inflationRate = Return res
    /\ months res = #(List.length amounts)
    /\ timelineConsistent (List.length amounts) res.
Proof.
  intros Hne.
  destruct (calculateFlexibleSIP_eval amounts inflationRate)
    as (res & Hres & Hti & _ & _ & _ & Hyb).
  exists res. split; [exact Hres |].
  split.
  { revert Hres. unfold calculateFlexibleSIP.
    destruct (forEach _ _ _) as [ti fv].
    destruct (for_upto _ _ _) as [[[ci cv] yb] | e |]; cbn [bind];
      try (destruct (inflationRate >? 0); intros H; discriminate H).
    destruct (inflationRate >? 0); intros [= <-]; reflexivity. }
  pose proof (ceil_months_bounds (List.length amounts)) as [Hlo Hhi].
  set (Y := Z.to_nat (Zceil (INR (List.length amounts) / 12))) in *.
  destruct (flexible_years Y) as (ci & cv & rows & Hyr & Hm & Hlen & Hlast).
  rewrite Hyr in Hyb. cbn [snd] in Hyb.
  rewrite Nat.min_r in Hm by lia.
  rewrite <- flexible_main_loop in Hm.
  rewrite flexible_fold in Hm by reflexivity.
  rewrite !add_zero_l in Hm. injection Hm as Hci _.
  unfold timelineConsistent. fold Y. rewrite Hyb, Hlen.
  split; [reflexivity |].
  assert (HY : (0 < Y)%nat).
  { assert (0 < (List.length amounts))%nat; [| lia].
    destruct amounts; [congruence | cbn [List.length]; lia]. }
  destruct (Hlast HY) as (rows' & row & -> & Hrow).
  exists rows', row. split; [reflexivity |]. now rewrite Hrow, Hci, Hti.
Qed.

End FlexibleTimeline.

(** ** C5: the year-wise breakdown against the totals *)

(** The result is consistent with its year-wise breakdown (the breakdown
    has [ceil (periodCount / 12)] rows and the cumulative investment of its
    last row is exactly [totalInvestment]) for the Regular and the Step-up
    calculator whenever the year count is a positive integer, so that the
    period count is a positive multiple of 12, and for the Flexible
    calculator on every non-empty list. *)
Lemma timeline_consistency :
  (forall (amount : number) (k : nat) (category : string)
          (inflationRate : number),
      (0 < k)%nat ->
      exists res,
        calculateRegularSIP amount #k category inflationRate = Return res
        /\ months res = #k * 12
        /\ timelineConsistent (k * 12) res)
  /\ (forall (amount : number) (k : nat) (percent inflationRate : number),
         (0 < k)%nat ->
         exists res,
           calculateStepUpSIP amount #k percent inflationRate = Return res
           /\ months res = #k * 12
           /\ timelineConsistent (k * 12) res)
  /\ (forall (amounts : list entry) (inflationRate : number),
         amounts <> [] ->
         exists res,
           calculateFlexibleSIP amounts inflationRate = Return res
           /\ months res = #(List.length amounts)
           /\ timelineConsistent (List.length amounts) res).
Proof.
  split; [| split].
  - intros amount k category inflationRate Hk. now apply regular_timeline.
  - intros amount k percent inflationRate Hk.
    destruct (stepUp_timeline amount k percent inflationRate Hk)
      as (res & Hres & Hcons).
    exists res. split; [exact Hres |]. split; [| exact Hcons].
    revert Hres. unfold calculateStepUpSIP.
    destruct (for_upto (#k * 12) _ _) as [[[ti fv] cur] | e |]; cbn [bind];
      try discriminate.
    destruct (inflationRate >? 0);
      (destruct (for_upto #k _ _) as [[[[ci cv] ya] yb] | e |];
       cbn [bind]; try discriminate);
      intros [= <-]; reflexivity.
  - intros amounts inflationRate Hne. now apply flexible_timeline.
Qed.

Lemma timeline_consistency_example :
  (0 < 2)%nat
  /\ [Numeric (Num 500); NonNumeric; Numeric (Num 700)] <> []
  /\ (exists res,
         calculateStepUpSIP 1000 #2 10 0 = Return res
         /\ timelineConsistent (2 * 12) res)
  /\ exists res,
      calculateFlexibleSIP [Numeric (Num 500); NonNumeric; Numeric (Num 700)]
                           0 = Return res
      /\ timelineConsistent 3 res.
Proof.
  assert (H2 : (0 < 2)%nat) by lia.
  assert (Hne : [Numeric (Num 500); NonNumeric; Numeric (Num 700)] <> [])
    by discriminate.
  split; [exact H2 |]. split; [exact Hne |].
  split.
  - destruct (proj1 (proj2 timeline_consistency) (Num 1000) 2%nat
                    (Num 10) (Num 0) H2) as (res & Hres & _ & Hc).
    exists res. split; [exact Hres | exact Hc].
  - destruct (proj2 (proj2 timeline_consistency) _ (Num 0) Hne)
      as (res & Hres & _ & Hc).
    exists res. split; [exact Hres | exact Hc].
Defined.

(** A Regular plan of 1000 a period over 1.5 years has 18 periods, yet its
    breakdown has one row, not [ceil (18 / 12) = 2], and that row's
    cumulative investment is 12000 while [totalInvestment] is 18000. *)
Lemma regular_partial_year :
  exists res,
    calculateRegularSIP 1000 1.5 "mid" 0 = Return res
    /\ months res = Num 18
    /\ totalInvestment res = Num 18000
    /\ (exists row,
           yearlyBreakdown res = [row] /\ Row.investment row = Num 12000)
    /\ Z.to_nat (Zceil (INR 18 / 12)) = 2%nat
    /\ ~ timelineConsistent 18 res.
Proof.
  destruct (calculateRegularSIP_returns 1000 1.5 "mid" 0) as [res Hres].
  exists res. split; [exact Hres |].
  destruct (calculateRegularSIP_fields _ _ _ _ _ Hres)
    as (Hti & _ & _ & _ & _ & Hmonths & n & Hn & Hyb).
  rewrite (iterations_floor 1.5 1) in Hn by (cbn [INR]; lra).
  injection Hn as <-. cbn [seq map] in Hyb.
  assert (H18 : INR 18 = 18%R) by (rewrite INR_IZR_INZ; reflexivity).
  assert (Hceil : Z.to_nat (Zceil (INR 18 / 12)) = 2%nat).
  { rewrite (Zceil_eq 2); [reflexivity |]. rewrite H18. lra. }
  split; [rewrite Hmonths; cbn [JS.mul]; f_equal; lra |].
  split; [rewrite Hti; cbn [JS.mul]; f_equal; lra |].
  split.
  { eexists. split; [exact Hyb |].
    cbn [Row.investment JS.mul JS.of_nat INR]. f_equal. lra. }
  split; [exact Hceil |].
  intros [Hlen _]. rewrite Hyb, Hceil in Hlen. discriminate Hlen.
Qed.

(** * Further properties of the engine *)

(** ** Tax implications *)

Lemma Math_max_zero (x : R) : Math_max 0 (Num x) = Num (Rmax 0 x).
Proof.
  unfold Math_max, JS.ltb. destruct (Rlt_dec 0 x).
  - now rewrite Rmax_right by lra.
  - now rewrite Rmax_left by lra.
Qed.

Lemma tax_equity_long (r : R) (yrs : number) (fundType : option string) :
  fundType = None \/ fundType = Some "equity"%string ->
  (yrs >? 1) = true ->
  calculateTaxImplications (Num r) yrs fundType
  = {| Tax.grossReturns := Num r;
       Tax.taxableAmount := Num (Rmax 0 (r - 100000));
       Tax.taxRate := Num (0.10 * 100);
       Tax.taxAmount := Num (Rmax 0 (r - 100000) * 0.10);
       Tax.postTaxReturns := Num (r - Rmax 0 (r - 100000) * 0.10);
       Tax.fundType := "equity";
       Tax.isLongTerm := true |}.
Proof.
  intros [-> | ->] Hy; unfold calculateTaxImplications;
    cbn [String.eqb Ascii.eqb Bool.eqb]; rewrite Hy;
    cbn [JS.sub]; rewrite Math_max_zero; reflexivity.
Qed.

Lemma tax_equity_short (r : R) (yrs : number) (fundType : option string) :
  fundType = None \/ fundType = Some "equity"%string ->
  (yrs >? 1) = false ->
  calculateTaxImplications (Num r) yrs fundType
  = {| Tax.grossReturns := Num r;
       Tax.taxableAmount := Num r;
       Tax.taxRate := Num (0.15 * 100);
       Tax.taxAmount := Num (r * 0.15);
       Tax.postTaxReturns := Num (r - r * 0.15);
       Tax.fundType := "equity";
       Tax.isLongTerm := false |}.
Proof.
  intros [-> | ->] Hy; unfold calculateTaxImplications;
    cbn [String.eqb Ascii.eqb Bool.eqb]; rewrite Hy; reflexivity.
Qed.

Lemma tax_other (r : R) (yrs : number) (fundType : string) :
  String.eqb fundType "equity" = false ->
  calculateTaxImplications (Num r) yrs (Some fundType)
  = {| Tax.grossReturns := Num r;
       Tax.taxableAmount := Num r;
       Tax.taxRate := Num (0.30 * 100);
       Tax.taxAmount := Num (r * 0.30);
       Tax.postTaxReturns := Num (r - r * 0.30);
       Tax.fundType := fundType;
       Tax.isLongTerm := String.eqb fundType "debt" && (yrs >? 3) |}.
Proof.
  intros Hf. unfold calculateTaxImplications. rewrite Hf.
  destruct (yrs >? 3); reflexivity.
Qed.

(** X1.  Equity held for more than a year (also when the fund type is
    omitted): the tax is 10% of the returns above 100000.  It is never
    negative, it is zero exactly when the returns are at most 100000, and
    the post-tax returns are the returns less that tax. *)
Theorem X1_tax_equity_long_term (r : R) (yrs : number)
        (fundType : option string) :
  fundType = None \/ fundType = Some "equity"%string ->
  (yrs >? 1) = true ->
  exists tax,
    Tax.taxAmount (calculateTaxImplications (Num r) yrs fundType) = Num tax
    /\ Tax.postTaxReturns (calculateTaxImplications (Num r) yrs fundType)
       = Num (r - tax)
    /\ Tax.isLongTerm (calculateTaxImplications (Num r) yrs fundType) = true
    /\ (0 <= tax)%R
    /\ (tax = 0%R <-> (r <= 100000)%R)
    /\ ((100000 <= r)%R -> tax = ((r - 100000) * 0.10)%R).
Proof.
  intros Hf Hy. rewrite (tax_equity_long r yrs fundType Hf Hy).
  cbn [Tax.taxAmount Tax.postTaxReturns Tax.isLongTerm].
  eexists. do 3 (split; [reflexivity |]).
  destruct (Rle_dec 0 (r - 100000)) as [Hge | Hlt].
  - rewrite Rmax_right by assumption.
    split; [lra |]. split; [split; lra | reflexivity].
  - rewrite Rmax_left by lra.
    split; [lra |]. split; [split; lra | lra].
Qed.

Lemma X1_tax_equity_long_term_witness :
  (Num 5 >? 1) = true
  /\ exists tax,
      Tax.taxAmount (calculateTaxImplications (Num 250000) (Num 5) None)
      = Num tax
      /\ (0 <= tax)%R.
Proof.
  assert (Hy : (Num 5 >? 1) = true) by (apply ltb_Num_true; lra).
  split; [exact Hy |].
  destruct (X1_tax_equity_long_term 250000 (Num 5) None (or_introl eq_refl) Hy)
    as (tax & Htax & _ & _ & Hpos & _).
  exists tax. split; [exact Htax | exact Hpos].
Defined.

(** The post-tax returns as a function of the returns, per regime. *)
Lemma tax_post (r : R) (yrs : number) (fundType : option string) :
  Tax.postTaxReturns (calculateTaxImplications (Num r) yrs fundType)
  = Num (if match fundType with
            | Some s => String.eqb s "equity"
            | None => true
            end
         then if yrs >? 1 then r - Rmax 0 (r - 100000) * 0.10
              else r - r * 0.15
         else r - r * 0.30).
Proof.
  destruct fundType as [s |].
  - destruct (String.eqb s "equity") eqn:Hs.
    + apply String.eqb_eq in Hs. subst s.
      destruct (yrs >? 1) eqn:Hy.
      * now rewrite (tax_equity_long r yrs _ (or_intror eq_refl) Hy).
      * now rewrite (tax_equity_short r yrs _ (or_intror eq_refl) Hy).
    + now rewrite (tax_other r yrs s Hs).
  - destruct (yrs >? 1) eqn:Hy.
    + now rewrite (tax_equity_long r yrs _ (or_introl eq_refl) Hy).
    + now rewrite (tax_equity_short r yrs _ (or_introl eq_refl) Hy).
Qed.

(** X2.  Under exact arithmetic, for every fund type and holding period
    the post-tax returns increase strictly with the (finite) returns: a
    larger gain is never turned into a smaller net gain by the tax. *)
Theorem X2_tax_post_increasing (r1 r2 : R) (yrs : number)
        (fundType : option string) :
  (r1 < r2)%R ->
  exists p1 p2,
    Tax.postTaxReturns (calculateTaxImplications (Num r1) yrs fundType)
    = Num p1
    /\ Tax.postTaxReturns (calculateTaxImplications (Num r2) yrs fundType)
       = Num p2
    /\ (p1 < p2)%R.
Proof.
  intros Hr. rewrite !tax_post. do 2 eexists.
  split; [reflexivity |]. split; [reflexivity |].
  destruct (match fundType with
            | Some s => String.eqb s "equity"
            | None => true
            end); [| lra].
  destruct (yrs >? 1); [| lra].
  unfold Rmax.
  destruct (Rle_dec 0 (r1 - 100000)), (Rle_dec 0 (r2 - 100000)); lra.
Qed.

Lemma X2_tax_post_increasing_witness :
  (90000 < 150000)%R
  /\ exists p1 p2,
      Tax.postTaxReturns
        (calculateTaxImplications (Num 90000) (Num 2) (Some "equity"%string))
      = Num p1
      /\ Tax.postTaxReturns
           (calculateTaxImplications (Num 150000) (Num 2)
                                     (Some "equity"%string))
         = Num p2
      /\ (p1 < p2)%R.
Proof.
  assert (H : (90000 < 150000)%R) by lra.
  split; [exact H |].
  exact (X2_tax_post_increasing 90000 150000 (Num 2) (Some "equity"%string) H).
Defined.

(** X3.  Every fund type other than "equity" is taxed as debt, at 30% of
    the returns whatever the holding period, losses included; only the
    [isLongTerm] flag looks at the period, and it is set only for the fund
    type "debt" held for more than 3 years. *)
Theorem X3_tax_non_equity (r : R) (yrs : number) (fundType : string) :
  fundType <> "equity"%string ->
  Tax.taxRate (calculateTaxImplications (Num r) yrs (Some fundType))
  = Num (0.30 * 100)
  /\ Tax.taxAmount (calculateTaxImplications (Num r) yrs (Some fundType))
     = Num (r * 0.30)
  /\ Tax.postTaxReturns (calculateTaxImplications (Num r) yrs (Some fundType))
     = Num (r - r * 0.30)
  /\ (Tax.isLongTerm (calculateTaxImplications (Num r) yrs (Some fundType))
      = true
      <-> fundType = "debt"%string /\ (yrs >? 3) = true).
Proof.
  intros Hf. apply String.eqb_neq in Hf. rewrite (tax_other r yrs _ Hf).
  cbn [Tax.taxRate Tax.taxAmount Tax.postTaxReturns Tax.isLongTerm].
  do 3 (split; [reflexivity |]).
  rewrite andb_true_iff, String.eqb_eq. reflexivity.
Qed.

Lemma X3_tax_non_equity_witness :
  "gold"%string <> "equity"%string
  /\ Tax.taxAmount
       (calculateTaxImplications (Num (-2000)) (Num 5) (Some "gold"%string))
     = Num (-2000 * 0.30).
Proof.
  assert (H : "gold"%string <> "equity"%string) by discriminate.
  split; [exact H |].
  exact (proj1 (proj2 (X3_tax_non_equity (-2000) (Num 5) "gold" H))).
Defined.

(** X4.  Equity: a holding period that is not more than 1 year (exactly 1
    year included) is short-term and taxed at 15% of the returns, so that a
    loss yields a negative tax; on a gain the long-term tax never exceeds
    the short-term one. *)
Theorem X4_tax_equity_short_term (r y_short y_long : R) :
  (y_short <= 1)%R -> (1 < y_long)%R ->
  exists short long,
    Tax.taxAmount
      (calculateTaxImplications (Num r) (Num y_short) (Some "equity"%string))
    = Num short
    /\ Tax.taxAmount
         (calculateTaxImplications (Num r) (Num y_long)
                                   (Some "equity"%string))
       = Num long
    /\ Tax.isLongTerm
         (calculateTaxImplications (Num r) (Num y_short)
                                   (Some "equity"%string))
       = false
    /\ short = (r * 0.15)%R
    /\ ((r < 0)%R -> (short < 0)%R)
    /\ ((0 <= r)%R -> (long <= short)%R).
Proof.
  intros Hs Hl.
  rewrite (tax_equity_short r (Num y_short) _ (or_intror eq_refl))
    by (apply ltb_Num_false; lra).
  rewrite (tax_equity_long r (Num y_long) _ (or_intror eq_refl))
    by (apply ltb_Num_true; lra).
  cbn [Tax.taxAmount Tax.isLongTerm]. do 2 eexists.
  do 4 (split; [reflexivity |]).
  split; [lra |]. intros Hr.
  unfold Rmax. destruct (Rle_dec 0 (r - 100000)); lra.
Qed.

Lemma X4_tax_equity_short_term_witness :
  (1 <= 1)%R /\ (1 < 2)%R
  /\ exists short long,
      Tax.taxAmount
        (calculateTaxImplications (Num 40000) (Num 1) (Some "equity"%string))
      = Num short
      /\ Tax.taxAmount
           (calculateTaxImplications (Num 40000) (Num 2)
                                     (Some "equity"%string))
         = Num long
      /\ short = (40000 * 0.15)%R.
Proof.
  assert (H1 : (1 <= 1)%R) by lra.
  assert (H2 : (1 < 2)%R) by lra.
  split; [exact H1 |]. split; [exact H2 |].
  destruct (X4_tax_equity_short_term 40000 1 2 H1 H2)
    as (short & long & Hs & Hl & _ & Heq & _).
  exists short, long. repeat split; assumption.
Defined.

(** ** Compound interest and the effective rate *)

Lemma mul_one_r (a : number) : a * Num 1 = a.
Proof.
  destruct a as [x | | |]; cbn [JS.mul]; try reflexivity.
  - f_equal. lra.
  - now rewrite sgn_pos by lra.
  - now rewrite sgn_pos by lra.
Qed.

Lemma Math_pow_zero (base : number) (y : R) :
  y = 0%R -> JS.Math_pow base (Num y) = Num 1.
Proof. intros ->. unfold JS.Math_pow. now rewrite sgn_zero. Qed.

(** X5.  Over a zero time the compound amount is the principal itself, for
    every principal, every rate and every finite compounding frequency, a
    zero frequency and the default frequency included. *)
Theorem X5_compound_zero_time (principal rate : number) :
  (forall f : R,
      calculateCompoundInterest principal rate (Num 0) (Some (Num f))
      = principal)
  /\ calculateCompoundInterest principal rate (Num 0) None = principal.
Proof.
  split; [intros f |]; unfold calculateCompoundInterest, default_to;
    cbn [JS.mul]; rewrite Math_pow_zero by lra; apply mul_one_r.
Qed.

Lemma compound_eval (P r t f : R) :
  f <> 0%R -> (0 < 1 + r / f)%R ->
  calculateCompoundInterest (Num P) (Num r) (Num t) (Some (Num f))
  = Num (P * Rpower (1 + r / f) (f * t)).
Proof.
  intros Hf Hb. unfold calculateCompoundInterest, default_to.
  rewrite div_Num by assumption. js_arith.
  now rewrite Math_pow_pos by assumption.
Qed.

(** X6.  Compounding composes: the amount reached after [t1] years,
    compounded for [t2] more years at the same rate and frequency, is the
    amount reached after [t1 + t2] years. *)
Theorem X6_compound_additive (P r t1 t2 f : R) :
  f <> 0%R -> (0 < 1 + r / f)%R ->
  calculateCompoundInterest
    (calculateCompoundInterest (Num P) (Num r) (Num t1) (Some (Num f)))
    (Num r) (Num t2) (Some (Num f))
  = calculateCompoundInterest (Num P) (Num r) (Num t1 + Num t2)
                              (Some (Num f)).
Proof.
  intros Hf Hb. js_arith. rewrite !compound_eval by assumption.
  f_equal. rewrite Rmult_plus_distr_l, Rpower_plus. ring.
Qed.

Lemma X6_compound_additive_witness :
  12%R <> 0%R /\ (0 < 1 + 0.12 / 12)%R
  /\ calculateCompoundInterest
       (calculateCompoundInterest (Num 1000) (Num 0.12) (Num 2)
                                  (Some (Num 12)))
       (Num 0.12) (Num 3) (Some (Num 12))
     = calculateCompoundInterest (Num 1000) (Num 0.12) (Num 2 + Num 3)
                                 (Some (Num 12)).
Proof.
  assert (Hf : 12%R <> 0%R) by lra.
  assert (Hb : (0 < 1 + 0.12 / 12)%R) by lra.
  split; [exact Hf |]. split; [exact Hb |].
  exact (X6_compound_additive 1000 0.12 2 3 12 Hf Hb).
Defined.

(** X7.  The effective rate inverts compounding: for a positive principal
    and a positive time, the effective annual rate of the compound amount
    over the principal is [((1 + r/f)^f - 1) * 100] whatever the principal
    and the time, and it is the rate itself, as a percentage, under annual
    compounding. *)
Theorem X7_effective_rate_of_compound (P r t f : R) :
  (0 < P)%R -> (0 < t)%R -> (0 < f)%R -> (0 < 1 + r / f)%R ->
  calculateEffectiveRate
    (calculateCompoundInterest (Num P) (Num r) (Num t) (Some (Num f)))
    (Num P) (Num t)
  = Num ((Rpower (1 + r / f) f - 1) * 100)
  /\ (f = 1%R ->
      calculateEffectiveRate
        (calculateCompoundInterest (Num P) (Num r) (Num t) (Some (Num f)))
        (Num P) (Num t)
      = Num (r * 100)).
Proof.
  intros HP Ht Hf Hb.
  assert (He : calculateEffectiveRate
                 (calculateCompoundInterest (Num P) (Num r) (Num t)
                                            (Some (Num f)))
                 (Num P) (Num t)
               = Num ((Rpower (1 + r / f) f - 1) * 100)).
  { rewrite compound_eval by lra.
    unfold calculateEffectiveRate.
    rewrite !leb_Num_false by assumption. cbn [orb].
    rewrite !div_Num by lra.
    replace (P * Rpower (1 + r / f) (f * t) / P)%R
      with (Rpower (1 + r / f) (f * t)) by (field; lra).
    rewrite Math_pow_pos by (unfold Rpower; apply exp_pos).
    rewrite Rpower_mult.
    replace (f * t * (1 / t))%R with f by (field; lra).
    reflexivity. }
  split; [exact He |].
  intros ->. rewrite He. f_equal.
  rewrite Rpower_1 by assumption. field.
Qed.

Lemma X7_effective_rate_of_compound_witness :
  (0 < 5000)%R /\ (0 < 7)%R /\ (0 < 1)%R /\ (0 < 1 + 0.08 / 1)%R
  /\ calculateEffectiveRate
       (calculateCompoundInterest (Num 5000) (Num 0.08) (Num 7)
                                  (Some (Num 1)))
       (Num 5000) (Num 7)
     = Num (0.08 * 100).
Proof.
  assert (HP : (0 < 5000)%R) by lra.
  assert (Ht : (0 < 7)%R) by lra.
  assert (Hf : (0 < 1)%R) by lra.
  assert (Hb : (0 < 1 + 0.08 / 1)%R) by lra.
  split; [exact HP |]. split; [exact Ht |]. split; [exact Hf |].
  split; [exact Hb |].
  exact (proj2 (X7_effective_rate_of_compound 5000 0.08 7 1 HP Ht Hf Hb)
               eq_refl).
Defined.

Lemma Rpower_gt_1 (x a : R) : (1 < x)%R -> (0 < a)%R -> (1 < Rpower x a)%R.
Proof.
  intros Hx Ha. rewrite <- (Rpower_O x) by lra. apply Rpower_lt; assumption.
Qed.

Lemma effective_rate_eval (v t y : R) :
  (0 < v)%R -> (0 < t)%R -> (0 < y)%R ->
  calculateEffectiveRate (Num v) (Num t) (Num y)
  = Num ((Rpower (v / t) (1 / y) - 1) * 100).
Proof.
  intros Hv Ht Hy. unfold calculateEffectiveRate.
  rewrite !leb_Num_false by assumption. cbn [orb].
  rewrite !div_Num by lra.
  now rewrite Math_pow_pos by (apply Rdiv_lt_0_compat; assumption).
Qed.

Lemma effective_rate_sign (v t y : R) :
  (0 < v)%R -> (0 < t)%R -> (0 < y)%R ->
  exists e,
    calculateEffectiveRate (Num v) (Num t) (Num y) = Num e
    /\ (-100 < e)%R
    /\ ((t < v)%R -> (0 < e)%R)
    /\ (v = t -> e = 0%R)
    /\ ((v < t)%R -> (e < 0)%R).
Proof.
  intros Hv Ht Hy. rewrite effective_rate_eval by assumption.
  eexists. split; [reflexivity |].
  assert (Hq : (0 < v / t)%R) by (apply Rdiv_lt_0_compat; assumption).
  assert (Ha : (0 < 1 / y)%R) by (apply Rdiv_lt_0_compat; lra).
  split.
  { assert (0 < Rpower (v / t) (1 / y))%R by (unfold Rpower; apply exp_pos).
    lra. }
  split; [| split].
  - intros Hlt.
    assert (1 < v / t)%R
      by (apply Rmult_lt_reg_r with t; [assumption |];
          unfold Rdiv; rewrite Rmult_assoc, Rinv_l by lra; lra).
    pose proof (Rpower_gt_1 _ _ H Ha). lra.
  - intros ->. replace (t / t)%R with 1%R by (field; lra).
    unfold Rpower. rewrite ln_1, Rmult_0_r, exp_0. lra.
  - intros Hlt.
    assert (Hq1 : (v / t < 1)%R)
      by (apply Rmult_lt_reg_r with t; [assumption |];
          unfold Rdiv; rewrite Rmult_assoc, Rinv_l by lra; lra).
    pose proof (Rlt_Rpower_l (v / t) 1 (1 / y) Ha (conj Hq Hq1)) as Hp.
    replace (Rpower 1 (1 / y)) with 1%R in Hp
      by (unfold Rpower; now rewrite ln_1, Rmult_0_r, exp_0).
    lra.
Qed.

(** X8.  Under exact arithmetic, for a finite positive value, a finite
    positive investment and a finite positive duration the effective rate
    is above -100 and its sign is the sign of the gain: positive when the
    value exceeds the investment, zero when they are equal, negative when
    the value is below it. *)
Theorem X8_effective_rate_sign (v t y : R) :
  (0 < v)%R -> (0 < t)%R -> (0 < y)%R ->
  exists e,
    calculateEffectiveRate (Num v) (Num t) (Num y) = Num e
    /\ (-100 < e)%R
    /\ ((t < v)%R -> (0 < e)%R)
    /\ (v = t -> e = 0%R)
    /\ ((v < t)%R -> (e < 0)%R).
Proof. apply effective_rate_sign. Qed.

Lemma X8_effective_rate_sign_witness :
  (0 < 150)%R /\ (0 < 100)%R /\ (0 < 3)%R
  /\ exists e,
      calculateEffectiveRate (Num 150) (Num 100) (Num 3) = Num e
      /\ (0 < e)%R.
Proof.
  assert (Hv : (0 < 150)%R) by lra.
  assert (Ht : (0 < 100)%R) by lra.
  assert (Hy : (0 < 3)%R) by lra.
  split; [exact Hv |]. split; [exact Ht |]. split; [exact Hy |].
  destruct (X8_effective_rate_sign 150 100 3 Hv Ht Hy)
    as (e & He & _ & Hpos & _).
  exists e. split; [exact He |]. apply Hpos. lra.
Defined.

(** ** Regular SIP over any positive duration *)

(** [ln (1 + r) >= r / (1 + r)]. *)
Lemma ln_lower (r : R) : (0 < r)%R -> (r / (1 + r) <= ln (1 + r))%R.
Proof.
  intros Hr.
  destruct (Rle_lt_dec (r / (1 + r)) (ln (1 + r))) as [H | H];
    [assumption | exfalso].
  assert (Hexp : (exp (- (r / (1 + r))) < exp (- ln (1 + r)))%R)
    by (apply exp_increasing; lra).
  rewrite (exp_Ropp (ln (1 + r))), exp_ln in Hexp by lra.
  pose proof (exp_ineq1_le (- (r / (1 + r)))) as Hle.
  assert (Heq : (1 + - (r / (1 + r)) = / (1 + r))%R) by (field; lra).
  lra.
Qed.

(** The annuity factor over [m] periods, [m] any positive real, exceeds
    [m]. *)
Lemma annuity_real_lower (r m : R) :
  (0 < r)%R -> (0 < m)%R ->
  (m < (Rpower (1 + r) m - 1) / r * (1 + r))%R.
Proof.
  intros Hr Hm.
  pose proof (ln_lower r Hr) as HL.
  assert (Hq : (0 < r / (1 + r))%R) by (apply Rdiv_lt_0_compat; lra).
  assert (HmL : (m * (r / (1 + r)) <= m * ln (1 + r))%R)
    by (apply Rmult_le_compat_l; lra).
  assert (Hpos : (0 < m * (r / (1 + r)))%R)
    by (apply Rmult_lt_0_compat; assumption).
  pose proof (exp_ineq1 (m * ln (1 + r))) as He.
  assert (He' : (1 + m * ln (1 + r) < Rpower (1 + r) m)%R)
    by (unfold Rpower; apply He; lra).
  assert (Hx : (m * (r / (1 + r)) < Rpower (1 + r) m - 1)%R) by lra.
  apply Rmult_lt_reg_r with (r / (1 + r))%R; [assumption |].
  replace ((Rpower (1 + r) m - 1) / r * (1 + r) * (r / (1 + r)))%R
    with (Rpower (1 + r) m - 1)%R by (field; lra).
  exact Hx.
Qed.

Lemma regular_eval_real (A y : R) (category : string)
      (inflationRate : number) :
  inherited category = false ->
  exists res,
    calculateRegularSIP (Num A) (Num y) category inflationRate = Return res
    /\ futureValue res
       = Num (A * ((Rpower (1 + monthlyRateOf category) (y * 12) - 1)
                   / monthlyRateOf category)
              * (1 + monthlyRateOf category))
    /\ totalInvestment res = Num (A * (y * 12))
    /\ List.length (yearlyBreakdown res) = Z.to_nat (Zfloor y).
Proof.
  intros Hc.
  destruct (calculateRegularSIP_returns (Num A) y category inflationRate)
    as [res Hres].
  exists res. split; [assumption |].
  destruct (calculateRegularSIP_fields _ _ _ _ _ Hres)
    as (Hti & Hfv & _ & _ & _ & _ & n & Hn & Hyb).
  pose proof (monthlyRateOf_pos category) as Hr.
  unfold rateOf in Hfv. rewrite monthlyRate_eval in Hfv by assumption.
  rewrite Hfv, Hti. js_arith.
  rewrite Math_pow_pos by lra. js_arith.
  rewrite div_Num by lra. js_arith.
  do 2 (split; [reflexivity |]).
  cbn [iterations] in Hn. injection Hn as <-.
  now rewrite Hyb, length_map, length_seq.
Qed.

(** X9.  Under exact arithmetic, for every finite amount [A > 0], every
    finite duration [years > 0], whole or not, and every category that is
    not the name of a property inherited from [Object.prototype], the
    Regular calculator returns totals such that
    [0 < totalInvestment < futureValue] and a positive effective rate; its
    year-wise breakdown has [floor years] rows. *)
Theorem X9_regular_positive_growth (A y : R) (category : string)
        (inflationRate : number) :
  (0 < A)%R -> (0 < y)%R -> inherited category = false ->
  exists res ti fv e,
    calculateRegularSIP (Num A) (Num y) category inflationRate = Return res
    /\ totalInvestment res = Num ti
    /\ futureValue res = Num fv
    /\ effectiveRate res = Num e
    /\ (0 < ti < fv)%R
    /\ (0 < e)%R
    /\ List.length (yearlyBreakdown res) = Z.to_nat (Zfloor y).
Proof.
  intros HA Hy Hc.
  destruct (regular_eval_real A y category inflationRate Hc)
    as (res & Hres & Hfv & Hti & Hlen).
  pose proof (monthlyRateOf_pos category) as Hr.
  assert (Hm : (0 < y * 12)%R) by lra.
  pose proof (annuity_real_lower _ _ Hr Hm) as Hlow.
  set (F := ((Rpower (1 + monthlyRateOf category) (y * 12) - 1)
             / monthlyRateOf category * (1 + monthlyRateOf category))%R)
    in *.
  assert (Hfv' : futureValue res = Num (A * F))
    by (rewrite Hfv; f_equal; unfold F; ring).
  assert (Htipos : (0 < A * (y * 12))%R)
    by (apply Rmult_lt_0_compat; assumption).
  assert (Hlt : (A * (y * 12) < A * F)%R)
    by (apply Rmult_lt_compat_l; assumption).
  destruct (effective_rate_sign (A * F) (A * (y * 12)) y)
    as (e & He & _ & Hpos & _); [lra | lra | lra |].
  exists res, (A * (y * 12))%R, (A * F)%R, e.
  split; [exact Hres |]. split; [exact Hti |]. split; [exact Hfv' |].
  split.
  { rewrite (calculateRegularSIP_effectiveRate _ _ _ _ _ Hres).
    destruct (calculateRegularSIP_fields _ _ _ _ _ Hres)
      as (_ & _ & _ & Hyrs & _).
    now rewrite Hfv', Hti, Hyrs. }
  split; [lra |]. split; [now apply Hpos | exact Hlen].
Qed.

Lemma X9_regular_positive_growth_witness :
  (0 < 500)%R /\ (0 < 1.5)%R /\ inherited "large" = false
  /\ exists res ti fv,
      calculateRegularSIP (Num 500) (Num 1.5) "large" 0 = Return res
      /\ totalInvestment res = Num ti
      /\ futureValue res = Num fv
      /\ (0 < ti < fv)%R.
Proof.
  assert (HA : (0 < 500)%R) by lra.
  assert (Hy : (0 < 1.5)%R) by lra.
  split; [exact HA |]. split; [exact Hy |]. split; [reflexivity |].
  destruct (X9_regular_positive_growth 500 1.5 "large" (Num 0) HA Hy eq_refl)
    as (res & ti & fv & e & Hres & Hti & Hfv & _ & Hlt & _).
  exists res, ti, fv. repeat split; try assumption; apply Hlt.
Defined.

(** ** The year-wise breakdown of the Regular calculator, row by row *)

(** X10.  Each row of the year-wise breakdown of a Regular plan agrees with
    the plan cut at that year: the row for year [y] holds the
    [totalInvestment], [futureValue] and [returns] that the Regular
    calculator returns for the same amount and category over [y] years.  The
    rows are those of the years 1, 2, ... in order. *)
Theorem X10_regular_rows_are_shorter_plans (amount yrs : number)
        (category : string) (inflationRate inflationRate' : number)
        (res : result) :
  calculateRegularSIP amount yrs category inflationRate = Return res ->
  map Row.year (yearlyBreakdown res)
  = seq 1 (List.length (yearlyBreakdown res))
  /\ forall row,
      In row (yearlyBreakdown res) ->
      exists res_y,
        calculateRegularSIP amount #(Row.year row) category inflationRate'
        = Return res_y
        /\ Row.investment row = totalInvestment res_y
        /\ Row.value row = futureValue res_y
        /\ rowReturns row = returns res_y.
Proof.
  intros Hres.
  destruct (calculateRegularSIP_fields _ _ _ _ _ Hres)
    as (_ & _ & _ & _ & _ & _ & n & _ & Hyb).
  rewrite Hyb. split.
  - rewrite map_map, length_map, length_seq. cbn [Row.year]. apply map_id.
  - intros row Hin. apply in_map_iff in Hin. destruct Hin as (y & <- & _).
    unfold rowReturns. cbn [Row.year Row.investment Row.value].
    destruct (calculateRegularSIP_returns amount (INR y) category
                                          inflationRate') as [res_y Hy].
    exists res_y. split; [exact Hy |].
    destruct (calculateRegularSIP_fields _ _ _ _ _ Hy) as (Hti & Hfv & _).
    rewrite (calculateRegularSIP_returns_field _ _ _ _ _ Hy), Hti, Hfv.
    repeat split; reflexivity.
Qed.

Lemma X10_regular_rows_are_shorter_plans_witness :
  exists res,
    calculateRegularSIP 1000 3 "mid" 0 = Return res
    /\ map Row.year (yearlyBreakdown res)
       = seq 1 (List.length (yearlyBreakdown res)).
Proof.
  destruct (calculateRegularSIP_returns 1000 3 "mid" 0) as [res Hres].
  exists res. split; [exact Hres |].
  exact (proj1 (X10_regular_rows_are_shorter_plans
                  1000 3 "mid" 0 0 res Hres)).
Defined.

(** ** Inflation adjustment *)

Lemma calculateRegularSIP_inflation (amount yrs : number)
      (category : string) (inflationRate : number) (res : result) :
  calculateRegularSIP amount yrs category inflationRate = Return res ->
  inflationAdjustedValue res
  = (if inflationRate >? 0
     then futureValue res / JS.Math_pow (1 + inflationRate / 100) (years res)
     else futureValue res)
  /\ realReturns res
     = (if inflationRate >? 0
        then inflationAdjustedValue res - totalInvestment res
        else returns res).
Proof.
  unfold calculateRegularSIP.
  destruct (inflationRate >? 0);
    (destruct (for_upto yrs _ _); cbn [bind];
     try (intros H; discriminate H));
    intros [= <-]; split; reflexivity.
Qed.

Lemma calculateStepUpSIP_inflation (amount yrs percent inflationRate : number)
      (res : result) :
  calculateStepUpSIP amount yrs percent inflationRate = Return res ->
  inflationAdjustedValue res
  = (if inflationRate >? 0
     then futureValue res / JS.Math_pow (1 + inflationRate / 100) (years res)
     else futureValue res)
  /\ realReturns res
     = (if inflationRate >? 0
        then inflationAdjustedValue res - totalInvestment res
        else returns res).
Proof.
  unfold calculateStepUpSIP.
  destruct (for_upto (yrs * 12) _ _) as [[[ti fv] cur] | e |]; cbn [bind];
    try (intros H; discriminate H).
  destruct (inflationRate >? 0);
    (destruct (for_upto yrs _ _) as [[[[ci cv] ya] yb] | e |]; cbn [bind];
     try (intros H; discriminate H));
    intros [= <-]; split; reflexivity.
Qed.

Lemma calculateFlexibleSIP_inflation (amounts : list entry)
      (inflationRate : number) (res : result) :
  calculateFlexibleSIP amounts inflationRate = Return res ->
  inflationAdjustedValue res
  = (if inflationRate >? 0
     then futureValue res / JS.Math_pow (1 + inflationRate / 100) (years res)
     else futureValue res)
  /\ realReturns res
     = (if inflationRate >? 0
        then inflationAdjustedValue res - totalInvestment res
        else returns res).
Proof.
  unfold calculateFlexibleSIP.
  destruct (forEach amounts _ _) as [ti fv].
  destruct (inflationRate >? 0);
    (destruct (for_upto _ _ _) as [[[ci cv] yb] | e |]; cbn [bind];
     try (intros H; discriminate H));
    intros [= <-]; split; reflexivity.
Qed.

Lemma calculator_inflation (inflationRate : number) (res : result) :
  (exists amount yrs category,
      calculateRegularSIP amount yrs category inflationRate = Return res)
  \/ (exists amount yrs percent,
         calculateStepUpSIP amount yrs percent inflationRate = Return res)
  \/ (exists amounts,
         calculateFlexibleSIP amounts inflationRate = Return res) ->
  inflationAdjustedValue res
  = (if inflationRate >? 0
     then futureValue res / JS.Math_pow (1 + inflationRate / 100) (years res)
     else futureValue res)
  /\ realReturns res
     = (if inflationRate >? 0
        then inflationAdjustedValue res - totalInvestment res
        else returns res).
Proof.
  intros [(a & y & c & H) | [(a & y & p & H) | (l & H)]].
  - eapply calculateRegularSIP_inflation; eassumption.
  - eapply calculateStepUpSIP_inflation; eassumption.
  - eapply calculateFlexibleSIP_inflation; eassumption.
Qed.

(** X11.  Inflation adjustment in the three calculators.  An inflation
    rate that is not greater than 0 (zero, negative or [NaN]) is ignored:
    the adjusted value is the future value and the real returns are the
    returns.  Under exact arithmetic, a finite rate [i > 0] applied to a
    positive finite future value over a positive finite duration [y] gives
    the adjusted value [futureValue / (1 + i/100)^y], which is positive and
    strictly below the future value, and the real returns are the adjusted
    value less the total investment. *)
Theorem X11_inflation_adjustment (inflationRate : number) (res : result) :
  (exists amount yrs category,
      calculateRegularSIP amount yrs category inflationRate = Return res)
  \/ (exists amount yrs percent,
         calculateStepUpSIP amount yrs percent inflationRate = Return res)
  \/ (exists amounts,
         calculateFlexibleSIP amounts inflationRate = Return res) ->
  ((inflationRate >? 0) = false ->
   inflationAdjustedValue res = futureValue res
   /\ realReturns res = returns res)
  /\ (forall i fv y : R,
         inflationRate = Num i -> (0 < i)%R ->
         futureValue res = Num fv -> (0 < fv)%R ->
         years res = Num y -> (0 < y)%R ->
         inflationAdjustedValue res = Num (fv / Rpower (1 + i / 100) y)
         /\ (0 < fv / Rpower (1 + i / 100) y < fv)%R
         /\ realReturns res
            = Num (fv / Rpower (1 + i / 100) y) - totalInvestment res).
Proof.
  intros Hres. destruct (calculator_inflation _ _ Hres) as [Hiav Hreal].
  split.
  - intros Hno. rewrite Hno in Hiav, Hreal. now split.
  - intros i fv y -> Hi Hfv Hfvpos Hy Hypos.
    rewrite ltb_Num_true in Hiav, Hreal by assumption.
    rewrite Hfv, Hy in Hiav.
    rewrite div_Num in Hiav by lra. js_arith.
    rewrite Math_pow_pos in Hiav by lra.
    assert (Hp : (1 < Rpower (1 + i / 100) y)%R)
      by (apply Rpower_gt_1; lra).
    rewrite div_Num in Hiav by lra.
    split; [exact Hiav |]. split.
    + split.
      * apply Rdiv_lt_0_compat; lra.
      * apply Rmult_lt_reg_r with (Rpower (1 + i / 100) y); [lra |].
        unfold Rdiv. rewrite Rmult_assoc, Rinv_l by lra. nra.
    + now rewrite Hreal, Hiav.
Qed.

Lemma X11_inflation_adjustment_witness :
  exists res,
    calculateRegularSIP 1000 2 "mid" (Num (-3)) = Return res
    /\ (Num (-3) >? 0) = false
    /\ inflationAdjustedValue res = futureValue res
    /\ realReturns res = returns res.
Proof.
  destruct (calculateRegularSIP_returns 1000 2 "mid" (Num (-3)))
    as [res Hres].
  assert (Hno : (Num (-3) >? 0) = false) by (apply ltb_Num_false; lra).
  exists res. split; [exact Hres |]. split; [exact Hno |].
  apply (proj1 (X11_inflation_adjustment (Num (-3)) res
                  (or_introl (ex_intro _ (Num 1000)
                     (ex_intro _ (Num 2)
                        (ex_intro _ "mid"%string Hres)))))).
  exact Hno.
Defined.

(** ** Goal-based SIP over a positive duration *)

Lemma goal_eval_real (T y : R) (category : string) :
  inherited category = false ->
  (0 < y)%R ->
  let r := monthlyRateOf category in
  let F := ((Rpower (1 + r) (y * 12) - 1) / r * (1 + r))%R in
  (y * 12 < F)%R
  /\ GoalSIP.requiredMonthlyAmount
       (calculateGoalBasedSIP (Num T) (Num y) category)
     = Num (T / F)
  /\ GoalSIP.totalInvestment (calculateGoalBasedSIP (Num T) (Num y) category)
     = Num (T / F * (y * 12))
  /\ GoalSIP.returns (calculateGoalBasedSIP (Num T) (Num y) category)
     = Num (T - T / F * (y * 12)).
Proof.
  intros Hc Hy r F.
  pose proof (monthlyRateOf_pos category) as Hr. fold r in Hr.
  assert (Hm : (0 < y * 12)%R) by lra.
  pose proof (annuity_real_lower r (y * 12) Hr Hm) as Hlow. fold F in Hlow.
  split; [exact Hlow |].
  unfold calculateGoalBasedSIP.
  cbn [GoalSIP.requiredMonthlyAmount GoalSIP.totalInvestment GoalSIP.returns].
  rewrite monthlyRate_eval by assumption. fold r. js_arith.
  rewrite Math_pow_pos by lra. js_arith.
  rewrite div_Num by lra. js_arith. fold F.
  rewrite div_Num by lra. js_arith.
  repeat split; reflexivity.
Qed.

(** X12.  Under exact arithmetic, for a finite target [T > 0], a finite
    duration [years > 0], whole or not, and a category that is not the name
    of a property inherited from [Object.prototype], the Goal solver
    returns a positive required amount smaller than the target spread
    evenly over the periods, a total investment strictly between 0 and the
    target, and positive returns that make up the difference. *)
Theorem X12_goal_invests_less_than_target (T y : R) (category : string) :
  (0 < T)%R -> (0 < y)%R -> inherited category = false ->
  exists amount ti ret,
    GoalSIP.requiredMonthlyAmount
      (calculateGoalBasedSIP (Num T) (Num y) category) = Num amount
    /\ GoalSIP.totalInvestment
         (calculateGoalBasedSIP (Num T) (Num y) category) = Num ti
    /\ GoalSIP.returns (calculateGoalBasedSIP (Num T) (Num y) category)
       = Num ret
    /\ (0 < amount < T / (y * 12))%R
    /\ (0 < ti < T)%R
    /\ (0 < ret)%R
    /\ (ti + ret = T)%R.
Proof.
  intros HT Hy Hc.
  destruct (goal_eval_real T y category Hc Hy) as (Hlow & Ha & Hti & Hret).
  set (F := ((Rpower (1 + monthlyRateOf category) (y * 12) - 1)
             / monthlyRateOf category * (1 + monthlyRateOf category))%R)
    in *.
  exists (T / F)%R, (T / F * (y * 12))%R, (T - T / F * (y * 12))%R.
  do 3 (split; [assumption |]).
  assert (Hm : (0 < y * 12)%R) by lra.
  assert (HF : (0 < F)%R) by lra.
  assert (Hq : (0 < T / F)%R) by (apply Rdiv_lt_0_compat; assumption).
  assert (Hlt : (T / F * (y * 12) < T)%R).
  { apply Rmult_lt_reg_r with F; [assumption |].
    replace (T / F * (y * 12) * F)%R with (T * (y * 12))%R by (field; lra).
    apply Rmult_lt_compat_l; assumption. }
  split.
  { split; [assumption |].
    apply Rmult_lt_reg_r with (y * 12)%R; [assumption |].
    replace (T / (y * 12) * (y * 12))%R with T by (field; lra).
    exact Hlt. }
  split; [split; [apply Rmult_lt_0_compat; assumption | exact Hlt] |].
  split; lra.
Qed.

Lemma X12_goal_invests_less_than_target_witness :
  (0 < 1000000)%R /\ (0 < 7.5)%R /\ inherited "small" = false
  /\ exists ti,
      GoalSIP.totalInvestment
        (calculateGoalBasedSIP (Num 1000000) (Num 7.5) "small") = Num ti
      /\ (0 < ti < 1000000)%R.
Proof.
  assert (HT : (0 < 1000000)%R) by lra.
  assert (Hy : (0 < 7.5)%R) by lra.
  split; [exact HT |]. split; [exact Hy |]. split; [reflexivity |].
  destruct (X12_goal_invests_less_than_target 1000000 7.5 "small" HT Hy
                                              eq_refl)
    as (amount & ti & ret & _ & Hti & _ & _ & Hlt & _).
  exists ti. split; [exact Hti | exact Hlt].
Defined.

(** ** The annuity factor as a function of the rate and of the horizon *)

Lemma pow_lt_base (x y : R) (e : nat) :
  (0 < x < y)%R -> (0 < e)%nat -> (x ^ e < y ^ e)%R.
Proof.
  intros Hxy He. destruct e as [| e]; [lia |].
  cbn [pow].
  assert (Hle : (x ^ e <= y ^ e)%R) by (apply pow_incr; lra).
  assert (Hpx : (0 < x ^ e)%R) by (apply pow_lt; lra).
  apply Rle_lt_trans with (x * y ^ e)%R.
  - apply Rmult_le_compat_l; lra.
  - apply Rmult_lt_compat_r; lra.
Qed.

Lemma periodSumUpTo_rate (r1 r2 : R) (n m : nat) :
  (0 < r1 < r2)%R -> (0 < m <= n)%nat ->
  (periodSumUpTo 1 r1 n m < periodSumUpTo 1 r2 n m)%R.
Proof.
  intros Hr [Hm Hmn]. induction m as [| m IH]; [lia |].
  rewrite !periodSumUpTo_S.
  assert (Ht : ((1 + r1) ^ (n - S m + 1) < (1 + r2) ^ (n - S m + 1))%R)
    by (apply pow_lt_base; [lra | lia]).
  destruct m as [| m].
  - unfold periodSumUpTo. cbn [seq fold_right]. lra.
  - assert (periodSumUpTo 1 r1 n (S m) < periodSumUpTo 1 r2 n (S m))%R
      by (apply IH; lia).
    lra.
Qed.

Lemma annuityFactor_periodSum (r : R) (n : nat) :
  r <> 0%R -> annuityFactor r n = periodSum 1 r n.
Proof.
  intros Hr. rewrite periodSum_closed by assumption.
  unfold annuityFactor. ring.
Qed.

Lemma annuityFactor_rate (r1 r2 : R) (n : nat) :
  (0 < r1 < r2)%R -> (0 < n)%nat ->
  (annuityFactor r1 n < annuityFactor r2 n)%R.
Proof.
  intros Hr Hn. rewrite !annuityFactor_periodSum by lra.
  unfold periodSum. apply periodSumUpTo_rate; [assumption | lia].
Qed.

Lemma annuityFactor_S (r : R) (n : nat) :
  (0 < r)%R ->
  annuityFactor r (S n) = (annuityFactor r n + (1 + r) ^ S n)%R.
Proof.
  intros Hr. unfold annuityFactor. cbn [pow]. field. lra.
Qed.

Lemma annuityFactor_horizon (r : R) (n1 n2 : nat) :
  (0 < r)%R -> (n1 < n2)%nat ->
  (annuityFactor r n1 < annuityFactor r n2)%R.
Proof.
  intros Hr Hn. induction Hn as [| n2 Hn IH].
  - rewrite annuityFactor_S by assumption.
    assert (0 < (1 + r) ^ S n1)%R by (apply pow_lt; lra). lra.
  - rewrite annuityFactor_S by assumption.
    assert (0 < (1 + r) ^ S n2)%R by (apply pow_lt; lra). lra.
Qed.

Lemma goal_required_lt (T F1 F2 : R) :
  (0 < T)%R -> (0 < F1 < F2)%R -> (T / F2 < T / F1)%R.
Proof.
  intros HT HF. unfold Rdiv. apply Rmult_lt_compat_l; [assumption |].
  apply Rinv_lt_contravar; [apply Rmult_lt_0_compat |]; lra.
Qed.

Lemma monthlyRateOf_large : monthlyRateOf "large" = (0.10 / 12)%R.
Proof.
  unfold monthlyRateOf, annualRateOf. cbn [String.eqb Ascii.eqb Bool.eqb].
  reflexivity.
Qed.

(** X13.  Under exact arithmetic, for a finite target [T > 0] over a whole
    number of years [k >= 1], the amount the Goal solver requires is
    positive and ordered by the assumed rate: "small" (15%) requires less
    than "mid" (12%), which requires less than "large" (10%); a category for
    which the rate lookup finds nothing (neither a rate of the table nor a
    property inherited from [Object.prototype]) requires what "mid"
    requires; and for every category that is not an inherited name a longer
    horizon requires less than a shorter one. *)
Theorem X13_goal_required_amount_order (T : R) (k : nat) :
  (0 < T)%R -> (0 < k)%nat ->
  exists small mid large,
    GoalSIP.requiredMonthlyAmount (calculateGoalBasedSIP (Num T) #k "small")
    = Num small
    /\ GoalSIP.requiredMonthlyAmount (calculateGoalBasedSIP (Num T) #k "mid")
       = Num mid
    /\ GoalSIP.requiredMonthlyAmount
         (calculateGoalBasedSIP (Num T) #k "large")
       = Num large
    /\ (0 < small < mid)%R /\ (mid < large)%R
    /\ (forall category,
           lookup returnRates category = Undefined ->
           GoalSIP.requiredMonthlyAmount
             (calculateGoalBasedSIP (Num T) #k category)
           = Num mid)
    /\ (forall (k' : nat) (category : string),
           (k < k')%nat -> inherited category = false ->
           exists a a',
             GoalSIP.requiredMonthlyAmount
               (calculateGoalBasedSIP (Num T) #k category) = Num a
             /\ GoalSIP.requiredMonthlyAmount
                  (calculateGoalBasedSIP (Num T) #k' category) = Num a'
             /\ (0 < a' < a)%R).
Proof.
  intros HT Hk. unfold JS.of_nat.
  assert (Hpos : (0 < k * 12)%nat) by lia.
  rewrite (goal_eval T (INR k) (k * 12) "small" eq_refl (months_INR k) Hpos).
  rewrite (goal_eval T (INR k) (k * 12) "mid" eq_refl (months_INR k) Hpos).
  rewrite (goal_eval T (INR k) (k * 12) "large" eq_refl (months_INR k) Hpos).
  rewrite monthlyRateOf_small, monthlyRateOf_mid, monthlyRateOf_large.
  do 3 eexists. do 3 (split; [reflexivity |]).
  assert (Hs : (0 < annuityFactor (0.15 / 12) (k * 12))%R)
    by (apply annuityFactor_pos; [lra | lia]).
  assert (Hm : (0 < annuityFactor 0.01 (k * 12))%R)
    by (apply annuityFactor_pos; [lra | lia]).
  assert (Hl : (0 < annuityFactor (0.10 / 12) (k * 12))%R)
    by (apply annuityFactor_pos; [lra | lia]).
  assert (Hlm : (annuityFactor (0.10 / 12) (k * 12)
                 < annuityFactor 0.01 (k * 12))%R)
    by (apply annuityFactor_rate; [lra | lia]).
  assert (Hms : (annuityFactor 0.01 (k * 12)
                 < annuityFactor (0.15 / 12) (k * 12))%R)
    by (apply annuityFactor_rate; [lra | lia]).
  split.
  { split; [apply Rdiv_lt_0_compat; assumption |].
    apply goal_required_lt; [assumption | lra]. }
  split; [apply goal_required_lt; [assumption | lra] |].
  split.
  - intros category Hnone.
    assert (Hinh : inherited category = false).
    { revert Hnone. unfold lookup.
      destruct (get returnRates category); [discriminate |].
      destruct (inherited category); [discriminate | reflexivity]. }
    rewrite (goal_eval T (INR k) (k * 12) _ Hinh (months_INR k) Hpos).
    do 2 f_equal. rewrite <- monthlyRateOf_mid.
    unfold monthlyRateOf. f_equal.
    pose proof (rate_lookup category Hinh) as Hc. rewrite Hnone in Hc.
    cbn [or_default] in Hc.
    assert (Hmid : annualRateOf "mid" = 0.12%R)
      by (unfold annualRateOf; cbn [String.eqb Ascii.eqb Bool.eqb];
          reflexivity).
    injection Hc as Hc. lra.
  - intros k' category Hkk' Hinh.
    assert (Hpos' : (0 < k' * 12)%nat) by lia.
    rewrite (goal_eval T (INR k) (k * 12) _ Hinh (months_INR k) Hpos).
    rewrite (goal_eval T (INR k') (k' * 12) _ Hinh (months_INR k') Hpos').
    do 2 eexists. do 2 (split; [reflexivity |]).
    pose proof (monthlyRateOf_pos category) as Hr.
    assert (H1 : (0 < annuityFactor (monthlyRateOf category) (k * 12))%R)
      by (apply annuityFactor_pos; [assumption | lia]).
    assert (H2 : (annuityFactor (monthlyRateOf category) (k * 12)
                  < annuityFactor (monthlyRateOf category) (k' * 12))%R)
      by (apply annuityFactor_horizon; [assumption | lia]).
    split; [apply Rdiv_lt_0_compat; lra |].
    apply goal_required_lt; [assumption | lra].
Qed.

Lemma X13_goal_required_amount_order_witness :
  (0 < 500000)%R /\ (0 < 5)%nat
  /\ exists small mid large,
      GoalSIP.requiredMonthlyAmount
        (calculateGoalBasedSIP (Num 500000) #5 "small") = Num small
      /\ GoalSIP.requiredMonthlyAmount
           (calculateGoalBasedSIP (Num 500000) #5 "mid") = Num mid
      /\ GoalSIP.requiredMonthlyAmount
           (calculateGoalBasedSIP (Num 500000) #5 "large") = Num large
      /\ (0 < small < mid)%R /\ (mid < large)%R.
Proof.
  assert (HT : (0 < 500000)%R) by lra.
  assert (Hk : (0 < 5)%nat) by lia.
  split; [exact HT |]. split; [exact Hk |].
  destruct (X13_goal_required_amount_order 500000 5 HT Hk)
    as (s & m & l & Hs & Hm & Hl & Hsm & Hml & _).
  exists s, m, l. repeat split; try assumption; apply Hsm.
Defined.

(** ** Flexible SIP on finite entries *)

Lemma contribution_finite (e : entry) :
  e = NonNumeric \/ (exists x, e = Numeric (Num x)) ->
  exists c,
    contribution e = Num c
    /\ (0 <= c)%R
    /\ ((exists x, e = Numeric (Num x) /\ (0 < x)%R) -> (0 < c)%R).
Proof.
  intros [-> | (x & ->)]; cbn [contribution].
  - exists 0%R. split; [reflexivity |]. split; [lra |].
    intros (x & Hx & _). discriminate Hx.
  - destruct (Rlt_dec 0 x) as [Hpos | Hneg].
    + rewrite ltb_Num_true by assumption.
      exists x. split; [reflexivity |]. split; [lra |]. intros _. exact Hpos.
    + rewrite ltb_Num_false by lra.
      exists 0%R. split; [reflexivity |]. split; [lra |].
      intros (x' & [= ->] & Hx'). lra.
Qed.

Lemma flexible_real_bounds (r : R) (amounts : list entry) :
  (0 < r)%R ->
  Forall (fun e => e = NonNumeric \/ exists x, e = Numeric (Num x)) amounts ->
  exists t v,
    flexibleTotal amounts = Num t
    /\ flexibleValue r amounts = Num v
    /\ (0 <= t <= v)%R
    /\ (v <= t * (1 + r) ^ List.length amounts)%R
    /\ (Exists (fun e => exists x, e = Numeric (Num x) /\ (0 < x)%R) amounts ->
        (0 < t < v)%R).
Proof.
  intros Hr. unfold flexibleTotal.
  induction 1 as [| e l He _ (t & v & Ht & Hv & Hb & Hub & Hs)].
  - exists 0%R, 0%R. cbn [map sum flexibleValue List.length pow].
    do 2 (split; [reflexivity |]). split; [lra |]. split; [lra |].
    intros Hex. inversion Hex.
  - destruct (contribution_finite e He) as (c & Hc & Hc0 & Hcpos).
    cbn [map sum flexibleValue List.length]. rewrite Hc, Ht, Hv. js_arith.
    set (n := List.length l) in *.
    assert (Hq1 : (1 <= (1 + r) ^ n)%R) by (apply pow_R1_Rle; lra).
    assert (HqS : ((1 + r) ^ n <= (1 + r) ^ S n)%R)
      by (cbn [pow]; nra).
    assert (HqS1 : (1 < (1 + r) ^ S n)%R) by (cbn [pow]; nra).
    do 2 eexists. do 2 (split; [reflexivity |]).
    assert (Hcq : (c <= c * (1 + r) ^ S n)%R) by nra.
    split; [lra |]. split.
    + assert (t * (1 + r) ^ n <= t * (1 + r) ^ S n)%R
        by (apply Rmult_le_compat_l; lra).
      lra.
    + intros Hex. inversion Hex as [? ? Hhere | ? ? Hthere]; subst.
      * specialize (Hcpos Hhere).
        assert (c < c * (1 + r) ^ S n)%R by nra. lra.
      * specialize (Hs Hthere). lra.
Qed.

(** X14.  Under exact arithmetic, on a list whose entries are all blank,
    unreadable or finite numbers, the Flexible calculator returns totals
    with [0 <= totalInvestment <= futureValue <= totalInvestment * 1.01^n],
    [n] being the number of periods.  If some entry is greater than 0, then
    [0 < totalInvestment < futureValue], the reported average is
    [totalInvestment / n], and the effective rate is positive. *)
Theorem X14_flexible_growth_bounds (amounts : list entry)
        (inflationRate : number) :
  Forall (fun e => e = NonNumeric \/ exists x, e = Numeric (Num x)) amounts ->
  exists res t v,
    calculateFlexibleSIP amounts inflationRate = Return res
    /\ totalInvestment res = Num t
    /\ futureValue res = Num v
    /\ (0 <= t <= v)%R
    /\ (v <= t * (1 + 0.12 / 12) ^ List.length amounts)%R
    /\ (Exists (fun e => exists x, e = Numeric (Num x) /\ (0 < x)%R) amounts ->
        (0 < t < v)%R
        /\ averageMonthlyAmount res
           = Some (Num (t / INR (List.length amounts)))
        /\ exists e, effectiveRate res = Num e /\ (0 < e)%R).
Proof.
  intros Hfin.
  destruct (calculateFlexibleSIP_eval amounts inflationRate)
    as (res & Hres & Hti & Hfv & Hy & Havg & _).
  destruct (flexible_real_bounds (0.12 / 12) amounts) as
    (t & v & Ht & Hv & Hb & Hub & Hs); [lra | assumption |].
  exists res, t, v. split; [exact Hres |].
  rewrite Ht in Hti, Havg. rewrite Hv in Hfv.
  do 2 (split; [assumption |]). split; [exact Hb |]. split; [exact Hub |].
  intros Hex. specialize (Hs Hex). split; [exact Hs |].
  assert (Hn : (0 < INR (List.length amounts))%R).
  { apply lt_0_INR. destruct amounts; [inversion Hex | cbn; lia]. }
  split.
  - rewrite Havg. unfold JS.of_nat. now rewrite div_Num by lra.
  - destruct (effective_rate_sign v t (INR (List.length amounts) / 12))
      as (e & He & _ & Hpos & _); [lra | lra | lra |].
    exists e. split; [| apply Hpos; lra].
    now rewrite (calculateFlexibleSIP_effectiveRate _ _ _ Hres), Hfv, Hti, Hy.
Qed.

Lemma X14_flexible_growth_bounds_witness :
  Forall (fun e => e = NonNumeric \/ exists x, e = Numeric (Num x))
         [Numeric (Num 800); NonNumeric]
  /\ exists res t v,
      calculateFlexibleSIP [Numeric (Num 800); NonNumeric] 0 = Return res
      /\ totalInvestment res = Num t
      /\ futureValue res = Num v
      /\ (0 <= t <= v)%R.
Proof.
  assert (H : Forall (fun e => e = NonNumeric
                               \/ exists x, e = Numeric (Num x))
                     [Numeric (Num 800); NonNumeric]).
  { apply Forall_cons; [right; exists 800%R; reflexivity |].
    apply Forall_cons; [left; reflexivity | apply Forall_nil]. }
  split; [exact H |].
  destruct (X14_flexible_growth_bounds _ (Num 0) H)
    as (res & t & v & Hres & Hti & Hfv & Hb & _).
  exists res, t, v. repeat split; try assumption; apply Hb.
Defined.

(** ** The comparison: the Flexible result against the "mid" result *)

Lemma flexible_constant (A r : R) (n : nat) :
  (0 < A)%R -> (0 < r)%R ->
  flexibleTotal (repeat (Numeric (Num A)) n) = Num (A * INR n)
  /\ flexibleValue r (repeat (Numeric (Num A)) n)
     = Num (A * annuityFactor r n).
Proof.
  intros HA Hr. unfold flexibleTotal. induction n as [| n [IHt IHv]].
  - cbn [repeat map sum flexibleValue INR]. unfold annuityFactor.
    cbn [pow]. split; f_equal; field; lra.
  - cbn [repeat map sum flexibleValue List.length contribution].
    rewrite repeat_length, IHt, IHv, ltb_Num_true by assumption. js_arith.
    rewrite annuityFactor_S, S_INR by assumption.
    split; f_equal; ring.
Qed.

(** X15.  In the comparison for an amount [A > 0] over a whole number of
    years, the fifth result (Flexible, built from the same amount in every
    period) repeats the second one (Regular, "mid"): same
    [totalInvestment], same [futureValue], same [annualRate] and same
    [effectiveRate]. *)
Theorem X15_comparison_flexible_repeats_mid (A : R) (k : nat)
        (percent inflation : option number) :
  (0 < A)%R -> (Z.of_nat (k * 12) < 2 ^ 32)%Z ->
  exists large mid small stepUp flexible,
    compareAllSIPTypes (Params.mk (Num A) #k percent inflation)
    = Return [large; mid; small; stepUp; flexible]
    /\ totalInvestment flexible = totalInvestment mid
    /\ futureValue flexible = futureValue mid
    /\ annualRate flexible = annualRate mid
    /\ effectiveRate flexible = effectiveRate mid.
Proof.
  intros HA Hk.
  destruct (compareAllSIPTypes_returns (Num A) k percent inflation Hk)
    as [results Hres].
  destruct (compareAllSIPTypes_inv _ _ Hres)
    as (r1 & r2 & r3 & r4 & r5 & amounts & -> & _ & Hmid & _ & _ & Hfill
        & Hflex).
  cbn [Params.monthlyAmount Params.years Params.inflationRate] in *.
  exists r1, r2, r3, r4, r5. split; [exact Hres |].
  unfold JS.of_nat in Hfill, Hmid. cbn [JS.mul] in Hfill.
  rewrite months_INR, Array_fill_nat in Hfill by assumption.
  injection Hfill as <-.
  destruct (calculateFlexibleSIP_eval
              (repeat (Numeric (Num A)) (k * 12))
              (default_to inflation 0))
    as (res & Hres5 & Hti5 & Hfv5 & Hy5 & _).
  rewrite Hflex in Hres5. injection Hres5 as <-.
  destruct (flexible_constant A (0.12 / 12) (k * 12)) as [Ht Hv];
    [assumption | lra |].
  rewrite Ht in Hti5. rewrite Hv in Hfv5.
  destruct (regular_eval A (INR k) (k * 12) "mid" (default_to inflation 0)
                         eq_refl (months_INR k))
    as (res & Hres2 & Hfv2 & Hti2).
  rewrite Hmid in Hres2. injection Hres2 as <-.
  assert (Hrate : monthlyRateOf "mid" = (0.12 / 12)%R)
    by (rewrite monthlyRateOf_mid; lra).
  rewrite Hrate in Hfv2.
  assert (Hfv : futureValue r5 = futureValue r2)
    by (rewrite Hfv5, Hfv2; f_equal; unfold annuityFactor; ring).
  assert (Hti : totalInvestment r5 = totalInvestment r2)
    by (now rewrite Hti5, Hti2).
  split; [exact Hti |]. split; [exact Hfv |]. split.
  - destruct (calculateRegularSIP_fields _ _ _ _ _ Hmid)
      as (_ & _ & _ & _ & Har & _).
    rewrite Har. unfold rateOf. rewrite rate_lookup by reflexivity.
    revert Hflex. unfold calculateFlexibleSIP.
    destruct (forEach _ _ _) as [ti fv].
    destruct (default_to inflation 0 >? 0);
      (destruct (for_upto _ _ _) as [[[ci cv] yb] | e |]; cbn [bind];
       try (intros H; discriminate H));
      intros [= <-]; cbn [annualRate];
      unfold annualRateOf; cbn [String.eqb Ascii.eqb Bool.eqb];
      reflexivity.
  - rewrite (calculateFlexibleSIP_effectiveRate _ _ _ Hflex).
    rewrite (calculateRegularSIP_effectiveRate _ _ _ _ _ Hmid).
    rewrite Hfv, Hti. f_equal.
    destruct (calculateRegularSIP_fields _ _ _ _ _ Hmid)
      as (_ & _ & _ & Hy2 & _).
    rewrite Hy5, Hy2, repeat_length, <- months_INR. f_equal. field.
Qed.

Lemma X15_comparison_flexible_repeats_mid_witness :
  (0 < 2000)%R /\ (Z.of_nat (3 * 12) < 2 ^ 32)%Z
  /\ exists large mid small stepUp flexible,
      compareAllSIPTypes (Params.mk (Num 2000) #3 None None)
      = Return [large; mid; small; stepUp; flexible]
      /\ futureValue flexible = futureValue mid.
Proof.
  assert (HA : (0 < 2000)%R) by lra.
  assert (Hk : (Z.of_nat (3 * 12) < 2 ^ 32)%Z) by (vm_compute; reflexivity).
  split; [exact HA |]. split; [exact Hk |].
  destruct (X15_comparison_flexible_repeats_mid 2000 3 None None HA Hk)
    as (l & m & s & su & f & Hres & _ & Hfv & _).
  exists l, m, s, su, f. split; [exact Hres | exact Hfv].
Defined.

(** ** Step-up SIP: the effect of the step-up percentage *)

(** Over a single year no month satisfies the step-up condition, so the
    month loop does not depend on the step-up factor. *)
Lemma stepUp_single_year_fold (d d' : number) (l : list nat)
      (s : number * number * number) :
  (forall month, In month l -> (1 <= month <= 12)%nat) ->
  fold_left (fun s month => stepUpMonth #12 d month s) l s
  = fold_left (fun s month => stepUpMonth #12 d' month s) l s.
Proof.
  intros Hl. apply fold_left_ext_in. intros [[ti fv] cur] month Hin.
  specialize (Hl month Hin). unfold stepUpMonth.
  assert (Hc : ((month mod 12 =? 0)%nat && (#month <? #12)) = false).
  { rewrite ltb_INR.
    destruct (Nat.eqb_spec (month mod 12) 0) as [Hz | Hnz];
      [| reflexivity].
    destruct (Nat.ltb_spec month 12) as [Hlt | Hge]; [| reflexivity].
    rewrite Nat.mod_small in Hz by assumption. lia. }
  now rewrite Hc.
Qed.

(** X16.  Over a single year the step-up percentage has no effect on the
    totals of the Step-up calculator: both [totalInvestment] and
    [futureValue] are the same for any two percentages (the amount is
    stepped up only after a 12th month that is not the last month), and for
    a finite amount they are those of the Regular calculator for the
    "small" category. *)
Theorem X16_stepup_single_year_ignores_percent :
  (forall (amount percent percent' inflationRate inflationRate' : number),
      exists res res',
        calculateStepUpSIP amount #1 percent inflationRate = Return res
        /\ calculateStepUpSIP amount #1 percent' inflationRate' = Return res'
        /\ totalInvestment res = totalInvestment res'
        /\ futureValue res = futureValue res')
  /\ (forall (A : R) (percent inflationRate inflationRate' : number),
         exists res regular,
           calculateStepUpSIP (Num A) #1 percent inflationRate = Return res
           /\ calculateRegularSIP (Num A) #1 "small" inflationRate'
              = Return regular
           /\ totalInvestment res = totalInvestment regular
           /\ futureValue res = futureValue regular).
Proof.
  assert (Hm : (INR 1 * 12)%R = INR 12) by (apply (months_INR 1)).
  assert (Hfold : forall amount percent percent',
             fold_left (fun s month =>
                          stepUpMonth (Num (INR 1) * 12) (percent / 100)
                                      month s)
                       (seq 1 (Z.to_nat (Zfloor (INR 1 * 12))))
                       (Num 0, Num 0, amount)
             = fold_left (fun s month =>
                            stepUpMonth (Num (INR 1) * 12) (percent' / 100)
                                        month s)
                         (seq 1 (Z.to_nat (Zfloor (INR 1 * 12))))
                         (Num 0, Num 0, amount)).
  { intros amount percent percent'. cbn [JS.mul].
    rewrite Hm, Zfloor_INR, Nat2Z.id.
    apply (stepUp_single_year_fold (percent / 100) (percent' / 100)).
    intros month Hin. apply in_seq in Hin. lia. }
  split.
  - intros amount percent percent' inflationRate inflationRate'.
    unfold JS.of_nat.
    destruct (calculateStepUpSIP_eval amount (INR 1) percent inflationRate)
      as (res & Hres & Htot & _).
    destruct (calculateStepUpSIP_eval amount (INR 1) percent' inflationRate')
      as (res' & Hres' & Htot' & _).
    exists res, res'. split; [exact Hres |]. split; [exact Hres' |].
    rewrite (Hfold amount percent percent') in Htot.
    rewrite <- Htot' in Htot. injection Htot as Hti Hfv. now split.
  - intros A percent inflationRate inflationRate'. unfold JS.of_nat.
    destruct (calculateStepUpSIP_eval (Num A) (INR 1) percent inflationRate)
      as (res & Hres & Htot & _).
    destruct (regular_eval A (INR 1) 12 "small" inflationRate' eq_refl Hm)
      as (reg & Hreg & Hfv & Hti).
    exists res, reg. split; [exact Hres |]. split; [exact Hreg |].
    rewrite (Hfold (Num A) percent (Num 0)) in Htot.
    cbn [JS.mul] in Htot. rewrite Hm, Zfloor_INR, Nat2Z.id in Htot.
    rewrite stepUp_no_escalation_fold in Htot by lia.
    cbn [fst] in Htot. injection Htot as Hti' Hfv'.
    rewrite Hti', Hfv', Hti, Hfv, monthlyRateOf_small.
    split; [reflexivity |]. f_equal. apply periodSum_closed. lra.
Qed.

Lemma stepUpMonth_real (ti fv cur d : R) (n month : nat) :
  (month <= n)%nat ->
  stepUpMonth (Num (INR n)) (Num d) month (Num ti, Num fv, Num cur)
  = (Num (ti + cur),
     Num (fv + cur * (1 + 0.15 / 12) ^ (n - month + 1)),
     Num (if (month mod 12 =? 0)%nat && (month <? n)%nat
          then cur * (1 + d) else cur)).
Proof.
  intros H. unfold stepUpMonth.
  rewrite monthsRemaining_eval by assumption.
  rewrite stepUpRate_eval. js_arith. rewrite Math_pow_nat by lra.
  change (Num (INR month)) with (JS.of_nat month).
  change (Num (INR n)) with (JS.of_nat n).
  rewrite ltb_INR.
  destruct ((month mod 12 =? 0)%nat && (month <? n)%nat); reflexivity.
Qed.

(** The month loop under a step-up factor [d >= 0], against the loop
    without escalation. *)
Lemma stepUp_escalation_fold (A d : R) (n m : nat) :
  (0 <= A)%R -> (0 <= d)%R -> (m <= n)%nat ->
  exists ti fv cur,
    fold_left (fun s month => stepUpMonth (Num (INR n)) (Num d) month s)
              (seq 1 m) (Num 0, Num 0, Num A)
    = (Num ti, Num fv, Num cur)
    /\ (A * INR m <= ti)%R
    /\ (periodSumUpTo A (0.15 / 12) n m <= fv)%R
    /\ (A <= cur)%R
    /\ ((0 < A)%R -> (0 < d)%R -> (12 <= m < n)%nat -> (A < cur)%R)
    /\ ((0 < A)%R -> (0 < d)%R -> (13 <= m)%nat ->
        (A * INR m < ti)%R /\ (periodSumUpTo A (0.15 / 12) n m < fv)%R).
Proof.
  intros HA Hd. induction m as [| m IH]; intros Hm.
  - exists 0%R, 0%R, A. cbn [seq fold_left INR].
    unfold periodSumUpTo. cbn [seq fold_right].
    split; [reflexivity |]. repeat split; try lra; lia.
  - destruct IH as (ti & fv & cur & Hf & Hti & Hfv & Hcur & Hgt & Hstrict);
      [lia |].
    rewrite seq_S, fold_left_app_one, Hf.
    replace (1 + m)%nat with (S m) by lia.
    rewrite stepUpMonth_real by assumption.
    rewrite periodSumUpTo_S, S_INR.
    set (q := ((1 + 0.15 / 12) ^ (n - S m + 1))%R).
    assert (Hq : (0 < q)%R) by (apply pow_lt; lra).
    assert (Hterm : (A * q <= cur * q)%R)
      by (apply Rmult_le_compat_r; lra).
    assert (Hstep : (cur <= cur * (1 + d))%R) by nra.
    do 3 eexists. split; [reflexivity |].
    split; [lra |]. split; [lra |].
    split; [destruct (_ && _); lra |].
    split.
    + intros HA' Hd' Hrange.
      destruct (Nat.eq_dec m 11) as [-> | Hne].
      * assert (Hc : ((12 mod 12 =? 0)%nat && (12 <? n)%nat) = true).
        { cbn [Nat.modulo]. destruct (Nat.ltb_spec 12 n); [reflexivity | lia]. }
        rewrite Hc. nra.
      * assert (A < cur)%R by (apply Hgt; [assumption | assumption | lia]).
        destruct (_ && _); nra.
    + intros HA' Hd' Hrange.
      assert (Hcur' : (A < cur)%R)
        by (apply Hgt; [assumption | assumption | lia]).
      assert (A * q < cur * q)%R by (apply Rmult_lt_compat_r; assumption).
      split; lra.
Qed.

(** X17.  Under exact arithmetic, escalation never lowers a Step-up plan:
    for a finite amount [A >= 0], a finite step-up percentage [p >= 0] and
    a whole number of years [k], the Step-up calculator returns totals with
    [totalInvestment >= A * 12 * k] and [futureValue] at least the
    [futureValue] of the Regular calculator for the "small" category; with
    [A > 0], [p > 0] and [k >= 2] both inequalities are strict. *)
Theorem X17_stepup_escalation_never_lowers (A p : R) (k : nat)
        (inflationRate inflationRate' : number) :
  (0 <= A)%R -> (0 <= p)%R ->
  exists res regular ti fv fv0,
    calculateStepUpSIP (Num A) #k (Num p) inflationRate = Return res
    /\ calculateRegularSIP (Num A) #k "small" inflationRate' = Return regular
    /\ totalInvestment res = Num ti
    /\ futureValue res = Num fv
    /\ totalInvestment regular = Num (A * INR (k * 12))
    /\ futureValue regular = Num fv0
    /\ (A * INR (k * 12) <= ti)%R
    /\ (fv0 <= fv)%R
    /\ ((0 < A)%R -> (0 < p)%R -> (2 <= k)%nat ->
        (A * INR (k * 12) < ti)%R /\ (fv0 < fv)%R).
Proof.
  intros HA Hp. unfold JS.of_nat.
  destruct (calculateStepUpSIP_eval (Num A) (INR k) (Num p) inflationRate)
    as (res & Hres & Htot & _).
  destruct (regular_eval A (INR k) (k * 12) "small" inflationRate'
                         eq_refl (months_INR k))
    as (reg & Hreg & Hfv0 & Hti0).
  cbn [JS.mul] in Htot. rewrite months_INR, Zfloor_INR, Nat2Z.id in Htot.
  rewrite div_Num in Htot by lra.
  destruct (stepUp_escalation_fold A (p / 100) (k * 12) (k * 12))
    as (ti & fv & cur & Hf & Hti & Hfv & _ & _ & Hstrict);
    [assumption | lra | lia |].
  rewrite Hf in Htot. cbn [fst] in Htot. injection Htot as Hti' Hfv'.
  rewrite monthlyRateOf_small in Hfv0.
  rewrite <- (periodSum_closed A (0.15 / 12) (k * 12)) in Hfv0 by lra.
  exists res, reg, ti, fv, (periodSum A (0.15 / 12) (k * 12)).
  split; [exact Hres |]. split; [exact Hreg |].
  do 4 (split; [assumption |]).
  split; [exact Hti |]. split; [exact Hfv |].
  intros HA' Hp' Hk. apply Hstrict; [assumption | lra | lia].
Qed.

Lemma X17_stepup_escalation_never_lowers_witness :
  (0 <= 1000)%R /\ (0 <= 10)%R
  /\ exists res regular ti fv fv0,
      calculateStepUpSIP (Num 1000) #3 (Num 10) 0 = Return res
      /\ calculateRegularSIP (Num 1000) #3 "small" 0 = Return regular
      /\ totalInvestment res = Num ti
      /\ futureValue res = Num fv
      /\ futureValue regular = Num fv0
      /\ (fv0 <= fv)%R.
Proof.
  assert (HA : (0 <= 1000)%R) by lra.
  assert (Hp : (0 <= 10)%R) by lra.
  split; [exact HA |]. split; [exact Hp |].
  destruct (X17_stepup_escalation_never_lowers 1000 10 3 (Num 0) (Num 0)
                                               HA Hp)
    as (res & reg & ti & fv & fv0 & H1 & H2 & H3 & H4 & _ & H6 & _ & H8 & _).
  exists res, reg, ti, fv, fv0. repeat split; assumption.
Defined.

(** * Form validation *)

(** ** Validation of one field *)

Lemma get_In {A : Type} (obj : list (string * A)) (key : string) (v : A) :
  get obj key = Some v -> In (key, v) obj.
Proof.
  induction obj as [| [k a] obj IH]; cbn [get]; [discriminate |].
  destruct (String.eqb_spec k key) as [-> | Hne].
  - intros [= ->]. now left.
  - intros H. right. now apply IH.
Qed.

Lemma rule_bounds (fieldName : string) (rule : Rule.t) :
  get validationRules fieldName = Some rule ->
  exists lo hi,
    Rule.min rule = Some (Num lo) /\ Rule.max rule = Some (Num hi)
    /\ (lo <= hi)%R.
Proof.
  intros H. apply get_In in H. unfold validationRules in H.
  cbn [In] in H.
  repeat (destruct H as [[= <- <-] | H];
          [do 2 eexists; cbn [Rule.min Rule.max];
           split; [reflexivity |]; split; [reflexivity | lra] |]).
  contradiction.
Qed.

Lemma validateField_rule (fieldName : string) (rule : Rule.t) (lo hi : R)
      (value : formValue) :
  get validationRules fieldName = Some rule ->
  Rule.min rule = Some (Num lo) -> Rule.max rule = Some (Num hi) ->
  Field.isValid (validateField fieldName value) = true
  <-> (value = Empty /\ Rule.required rule = false)
      \/ (exists e x,
             value = Filled e /\ parseFloat e = Num x /\ (lo <= x <= hi)%R).
Proof.
  intros Hget Hmin Hmax. unfold validateField, ruleOf.
  rewrite (lookup_own _ _ _ Hget), Hmin, Hmax.
  destruct value as [| e]; cbn [isEmpty parseValue].
  - destruct (Rule.required rule); cbn [andb negb Field.isValid].
    + split; [discriminate |].
      intros [[_ H] | (e & x & H & _)]; discriminate H.
    + split; [intros _; now left | reflexivity].
  - rewrite !andb_false_r.
    destruct (parseFloat e) as [x | | |] eqn:Hp; cbn [isNaN JS.ltb].
    + destruct (Rlt_dec x lo) as [Hlo | Hlo]; cbn [Field.isValid].
      * split; [discriminate |].
        intros [[H _] | (e' & x' & [= <-] & Hx & Hr)]; [discriminate |].
        rewrite Hp in Hx. injection Hx as <-. lra.
      * destruct (Rlt_dec hi x) as [Hhi | Hhi]; cbn [Field.isValid].
        -- split; [discriminate |].
           intros [[H _] | (e' & x' & [= <-] & Hx & Hr)]; [discriminate |].
           rewrite Hp in Hx. injection Hx as <-. lra.
        -- split; [| reflexivity].
           intros _. right. exists e, x. repeat split; try assumption; lra.
    + cbn [Field.isValid]. split; [discriminate |].
      intros [[H _] | (e' & x' & [= <-] & Hx & _)]; [discriminate |].
      rewrite Hp in Hx. discriminate Hx.
    + cbn [Field.isValid]. split; [discriminate |].
      intros [[H _] | (e' & x' & [= <-] & Hx & _)]; [discriminate |].
      rewrite Hp in Hx. discriminate Hx.
    + cbn [Field.isValid]. split; [discriminate |].
      intros [[H _] | (e' & x' & [= <-] & Hx & _)]; [discriminate |].
      rewrite Hp in Hx. discriminate Hx.
Qed.

(** X18.  [validateField] accepts exactly the range of the rule.  For a
    field that has a rule of its own in the table, with bounds [lo] and
    [hi], a value is valid if and only if it is empty and the field is
    optional, or it reads as a finite number [x] with [lo <= x <= hi];
    unreadable text, [NaN] and the infinities are rejected.  A field name
    for which the lookup finds nothing is always valid, and its result
    carries no message.  A field name that is a property inherited from
    [Object.prototype] is checked as an optional field without bounds: an
    empty value and every value that reads as a number, the infinities
    included, are valid with an empty message, and unreadable text is
    rejected. *)
Theorem X18_validateField_accepts_range :
  (forall (fieldName : string) (rule : Rule.t),
      get validationRules fieldName = Some rule ->
      exists lo hi,
        Rule.min rule = Some (Num lo) /\ Rule.max rule = Some (Num hi)
        /\ (lo <= hi)%R
        /\ forall value,
            Field.isValid (validateField fieldName value) = true
            <-> (value = Empty /\ Rule.required rule = false)
                \/ (exists e x,
                       value = Filled e /\ parseFloat e = Num x
                       /\ (lo <= x <= hi)%R))
  /\ (forall (fieldName : string) (value : formValue),
         lookup validationRules fieldName = Undefined ->
         validateField fieldName value = Field.mk true None)
  /\ (forall (fieldName : string) (value : formValue),
         lookup validationRules fieldName = Inherited ->
         validateField fieldName value
         = if isEmpty value then Field.mk true (Some EmptyString)
           else if isNaN (parseValue value)
                then Field.mk false (Some "Please enter a valid number"%string)
                else Field.mk true (Some EmptyString)).
Proof.
  split; [| split].
  - intros fieldName rule Hget.
    destruct (rule_bounds _ _ Hget) as (lo & hi & Hmin & Hmax & Hle).
    exists lo, hi. do 3 (split; [assumption |]).
    intros value. now apply validateField_rule.
  - intros fieldName value Hget. unfold validateField, ruleOf.
    now rewrite Hget.
  - intros fieldName value Hget. unfold validateField, ruleOf.
    rewrite Hget.
    cbn [inheritedRule Rule.required Rule.min Rule.max andb negb].
    destruct (isEmpty value); [reflexivity |].
    destruct (isNaN (parseValue value)); reflexivity.
Qed.

Lemma X18_validateField_accepts_range_witness :
  get validationRules "years"
  = Some (Rule.mk true (Some (Num 1)) (Some (Num 50))
                  "Investment period must be between 1 and 50 years")
  /\ lookup validationRules "tenure" = Undefined
  /\ lookup validationRules "toString" = Inherited
  /\ validateField "tenure" (Filled NonNumeric) = Field.mk true None
  /\ validateField "toString" (Filled NonNumeric)
     = Field.mk false (Some "Please enter a valid number"%string)
  /\ validateField "toString" Empty = Field.mk true (Some EmptyString)
  /\ exists lo hi,
      Rule.min (Rule.mk true (Some (Num 1)) (Some (Num 50))
                        "Investment period must be between 1 and 50 years")
      = Some (Num lo)
      /\ (lo <= hi)%R.
Proof.
  assert (H1 : get validationRules "years"
               = Some (Rule.mk true (Some (Num 1)) (Some (Num 50))
                         "Investment period must be between 1 and 50 years"))
    by reflexivity.
  assert (H2 : lookup validationRules "tenure" = Undefined) by reflexivity.
  assert (H3 : lookup validationRules "toString" = Inherited) by reflexivity.
  split; [exact H1 |]. split; [exact H2 |]. split; [exact H3 |].
  split; [exact (proj1 (proj2 X18_validateField_accepts_range)
                       "tenure"%string (Filled NonNumeric) H2) |].
  split; [exact (proj2 (proj2 X18_validateField_accepts_range)
                       "toString"%string (Filled NonNumeric) H3) |].
  split; [exact (proj2 (proj2 X18_validateField_accepts_range)
                       "toString"%string Empty H3) |].
  destruct (proj1 X18_validateField_accepts_range _ _ H1)
    as (lo & hi & Hmin & _ & Hle & _).
  exists lo, hi. split; [exact Hmin | exact Hle].
Defined.

(** ** Validation of the Flexible amounts *)

Lemma amounts_fold (l : list formValue) :
  forall (s : nat) (invalid : list (nat * string)) (has : bool),
    fold_left
      (fun st '(index, amount) =>
         (fun amount index '(invalidMonths, hasValidAmount) =>
            let numAmount := parseValue amount in
            if negb (isEmpty amount) then
              if isNaN numAmount then
                (invalidMonths ++ [((index + 1)%nat, "Invalid number"%string)],
                 hasValidAmount)
              else if numAmount <? 0 then
                (invalidMonths
                   ++ [((index + 1)%nat, "Amount cannot be negative"%string)],
                 hasValidAmount)
              else if numAmount >? 1000000 then
                (invalidMonths
                   ++ [((index + 1)%nat,
                        "Amount too large (max ₹10,00,000)"%string)],
                 hasValidAmount)
              else if numAmount >? 0 then (invalidMonths, true)
              else (invalidMonths, hasValidAmount)
            else (invalidMonths, hasValidAmount)) amount index st)
      (combine (seq s (List.length l)) l) (invalid, has)
    = (invalid ++ problemMonths s l, has || existsb amountCounts l).
Proof.
  induction l as [| v l IH]; intros s invalid has.
  - cbn. now rewrite app_nil_r, orb_false_r.
  - cbn [List.length seq combine fold_left problemMonths existsb].
    unfold amountCounts at 1. unfold amountProblem.
    destruct (isEmpty v); cbn [negb andb].
    + rewrite IH. reflexivity.
    + destruct (isNaN (parseValue v));
        [rewrite IH, <- app_assoc; reflexivity |].
      destruct (parseValue v <? 0);
        [rewrite IH, <- app_assoc; reflexivity |].
      destruct (parseValue v >? 1000000);
        [rewrite IH, <- app_assoc; reflexivity |].
      destruct (parseValue v >? 0); rewrite IH.
      * now rewrite orb_true_r.
      * reflexivity.
Qed.

Lemma amountProblem_none (v : formValue) :
  amountProblem v = None
  <-> v = Empty
      \/ exists e x,
          v = Filled e /\ parseFloat e = Num x /\ (0 <= x <= 1000000)%R.
Proof.
  unfold amountProblem. destruct v as [| e]; cbn [isEmpty parseValue].
  - split; [now left | reflexivity].
  - destruct (parseFloat e) as [x | | |] eqn:Hp; cbn [isNaN JS.ltb].
    + destruct (Rlt_dec x 0) as [H0 | H0].
      * split; [discriminate |].
        intros [H | (e' & x' & [= <-] & Hx & Hr)]; [discriminate |].
        rewrite Hp in Hx. injection Hx as <-. lra.
      * destruct (Rlt_dec 1000000 x) as [H1 | H1].
        -- split; [discriminate |].
           intros [H | (e' & x' & [= <-] & Hx & Hr)]; [discriminate |].
           rewrite Hp in Hx. injection Hx as <-. lra.
        -- split; [| reflexivity].
           intros _. right. exists e, x. repeat split; try assumption; lra.
    + split; [discriminate |].
      intros [H | (e' & x' & [= <-] & Hx & _)]; [discriminate |].
      rewrite Hp in Hx. discriminate Hx.
    + split; [discriminate |].
      intros [H | (e' & x' & [= <-] & Hx & _)]; [discriminate |].
      rewrite Hp in Hx. discriminate Hx.
    + split; [discriminate |].
      intros [H | (e' & x' & [= <-] & Hx & _)]; [discriminate |].
      rewrite Hp in Hx. discriminate Hx.
Qed.

Lemma amountCounts_true (v : formValue) :
  amountCounts v = true
  <-> exists e x,
      v = Filled e /\ parseFloat e = Num x /\ (0 < x <= 1000000)%R.
Proof.
  unfold amountCounts. split.
  - destruct (amountProblem v) eqn:Hp; [discriminate |].
    apply amountProblem_none in Hp.
    destruct Hp as [-> | (e & x & -> & Hx & Hr)]; [discriminate |].
    cbn [isEmpty negb andb parseValue]. rewrite Hx. intros Hpos.
    apply ltb_Num in Hpos. exists e, x. repeat split; try assumption; lra.
  - intros (e & x & -> & Hx & Hr).
    assert (Hp : amountProblem (Filled e) = None).
    { apply amountProblem_none. right. exists e, x.
      repeat split; try assumption; lra. }
    rewrite Hp. cbn [isEmpty negb andb parseValue]. rewrite Hx.
    apply ltb_Num_true. lra.
Qed.

Lemma problemMonths_nil (l : list formValue) :
  forall s, problemMonths s l = []
            <-> Forall (fun v => amountProblem v = None) l.
Proof.
  induction l as [| v l IH]; intros s; cbn [problemMonths].
  - split; [constructor | reflexivity].
  - destruct (amountProblem v) eqn:Hp.
    + split; [discriminate |]. intros H. inversion H; congruence.
    + rewrite IH. split.
      * intros H. now constructor.
      * intros H. now inversion H.
Qed.

Lemma problemMonths_In (l : list formValue) :
  forall (s m : nat) (msg : string),
    In (m, msg) (problemMonths s l)
    <-> exists i v,
        nth_error l i = Some v /\ m = (s + i + 1)%nat
        /\ amountProblem v = Some msg.
Proof.
  induction l as [| v l IH]; intros s m msg; cbn [problemMonths].
  - split; [contradiction |].
    intros (i & v & H & _). destruct i; discriminate H.
  - assert (Htail : In (m, msg) (problemMonths (S s) l)
                    <-> exists i v',
                        nth_error (v :: l) (S i) = Some v'
                        /\ m = (s + S i + 1)%nat
                        /\ amountProblem v' = Some msg).
    { rewrite IH. split; intros (i & v' & H1 & H2 & H3);
        exists i, v'; cbn [nth_error] in *;
        (split; [assumption |]); split; [lia | assumption | lia | assumption]. }
    destruct (amountProblem v) as [msg' |] eqn:Hp.
    + cbn [In]. rewrite Htail. split.
      * intros [[= <- <-] | (i & v' & H)].
        -- exists 0%nat, v. cbn [nth_error].
           split; [reflexivity |]. split; [lia | assumption].
        -- exists (S i), v'. exact H.
      * intros ([| i] & v' & H1 & H2 & H3).
        -- cbn [nth_error] in H1. injection H1 as <-.
           left. rewrite Hp in H3. injection H3 as <-. f_equal. lia.
        -- right. exists i, v'. now repeat split.
    + rewrite Htail. split.
      * intros (i & v' & H). exists (S i), v'. exact H.
      * intros ([| i] & v' & H1 & H2 & H3).
        -- cbn [nth_error] in H1. injection H1 as <-. congruence.
        -- exists i, v'. now repeat split.
Qed.

Lemma validateFlexibleAmounts_eval (amounts : list formValue) :
  Amounts.invalidMonths (validateFlexibleAmounts (Some amounts))
  = problemMonths 0 amounts
  /\ Amounts.isValid (validateFlexibleAmounts (Some amounts))
     = existsb amountCounts amounts
       && negb (0 <? List.length (problemMonths 0 amounts))%nat.
Proof.
  unfold validateFlexibleAmounts. destruct amounts as [| v l].
  - split; reflexivity.
  - unfold forEach. rewrite amounts_fold.
    cbn [app orb].
    destruct (existsb amountCounts (v :: l)); cbn [negb andb].
    + destruct (0 <? List.length (problemMonths 0 (v :: l)))%nat;
        split; reflexivity.
    + split; reflexivity.
Qed.

(** X19.  [validateFlexibleAmounts] rejects an absent or empty array.
    Otherwise it records, in order, the months (numbered from 1) whose
    amount is a non-empty value that is unreadable, negative or above
    1000000, each with its message, and the amounts are valid if and only
    if every one of them is empty or reads as a finite number between 0 and
    1000000 and at least one reads as a number greater than 0. *)
Theorem X19_validateFlexibleAmounts_accepts :
  Amounts.isValid (validateFlexibleAmounts None) = false
  /\ Amounts.isValid (validateFlexibleAmounts (Some [])) = false
  /\ forall amounts : list formValue,
      Amounts.invalidMonths (validateFlexibleAmounts (Some amounts))
      = problemMonths 0 amounts
      /\ (forall m msg,
             In (m, msg)
                (Amounts.invalidMonths
                   (validateFlexibleAmounts (Some amounts)))
             <-> exists i v,
                 nth_error amounts i = Some v /\ m = (i + 1)%nat
                 /\ amountProblem v = Some msg)
      /\ (Amounts.isValid (validateFlexibleAmounts (Some amounts)) = true
          <-> Forall (fun v =>
                        v = Empty
                        \/ exists e x,
                            v = Filled e /\ parseFloat e = Num x
                            /\ (0 <= x <= 1000000)%R)
                     amounts
              /\ Exists (fun v =>
                           exists e x,
                             v = Filled e /\ parseFloat e = Num x
                             /\ (0 < x <= 1000000)%R)
                        amounts).
Proof.
  split; [reflexivity |]. split; [reflexivity |].
  intros amounts.
  destruct (validateFlexibleAmounts_eval amounts) as [Hinv Hvalid].
  split; [exact Hinv |]. split.
  - intros m msg. rewrite Hinv, problemMonths_In. reflexivity.
  - rewrite Hvalid, andb_true_iff, negb_true_iff, Nat.ltb_ge.
    rewrite existsb_exists, Exists_exists.
    split.
    + intros [(v & Hin & Hc) Hlen]. split.
      * assert (Hnil : problemMonths 0 amounts = [])
          by (destruct (problemMonths 0 amounts); [reflexivity | cbn in Hlen; lia]).
        apply problemMonths_nil in Hnil.
        eapply Forall_impl; [| exact Hnil].
        intros v' Hv'. now apply amountProblem_none.
      * exists v. split; [assumption |]. now apply amountCounts_true.
    + intros [Hall (v & Hin & Hc)]. split.
      * exists v. split; [assumption |]. now apply amountCounts_true.
      * assert (Hnil : problemMonths 0 amounts = []).
        { apply problemMonths_nil.
          eapply Forall_impl; [| exact Hall].
          intros v' Hv'. now apply amountProblem_none. }
        rewrite Hnil. cbn. lia.
Qed.

Lemma X19_validateFlexibleAmounts_accepts_witness :
  Amounts.isValid
    (validateFlexibleAmounts
       (Some [Filled (Numeric (Num 1000)); Empty; Filled (Numeric (Num 0))]))
  = true.
Proof.
  apply (proj2 (proj2 (proj2 (proj2 X19_validateFlexibleAmounts_accepts)
                               [Filled (Numeric (Num 1000)); Empty;
                                Filled (Numeric (Num 0))]))).
  split.
  - apply Forall_cons;
      [right; exists (Numeric (Num 1000)), 1000%R;
       split; [reflexivity |]; split; [reflexivity | lra] |].
    apply Forall_cons; [left; reflexivity |].
    apply Forall_cons; [| apply Forall_nil].
    right. exists (Numeric (Num 0)), 0%R.
    split; [reflexivity |]. split; [reflexivity | lra].
  - apply Exists_cons_hd. exists (Numeric (Num 1000)), 1000%R.
    split; [reflexivity |]. split; [reflexivity | lra].
Defined.

(** ** Validated Flexible amounts in the Flexible calculator *)

Lemma parseFloat_Num (e : entry) (x : R) :
  parseFloat e = Num x -> e = Numeric (Num x).
Proof. destruct e as [y |]; cbn [parseFloat]; [now intros -> | discriminate]. Qed.

Lemma flexibleTotal_upper (amounts : list formValue) :
  Forall (fun v =>
            v = Empty
            \/ exists e x,
                v = Filled e /\ parseFloat e = Num x
                /\ (0 <= x <= 1000000)%R)
         amounts ->
  exists t,
    flexibleTotal (map toEntry amounts) = Num t
    /\ (t <= 1000000 * INR (List.length amounts))%R.
Proof.
  unfold flexibleTotal.
  induction 1 as [| v l Hv _ (t & Ht & Hb)].
  - exists 0%R. cbn [map sum List.length INR]. split; [reflexivity | lra].
  - cbn [map sum]. rewrite Ht.
    change (List.length (v :: l)) with (S (List.length l)). rewrite S_INR.
    destruct Hv as [-> | (e & x & -> & Hx & Hr)]; cbn [toEntry contribution].
    + js_arith. eexists. split; [reflexivity | lra].
    + apply parseFloat_Num in Hx. subst e. cbn [contribution].
      destruct (Rlt_dec 0 x).
      * rewrite ltb_Num_true by assumption. js_arith.
        eexists. split; [reflexivity | lra].
      * rewrite ltb_Num_false by lra. js_arith.
        eexists. split; [reflexivity | lra].
Qed.

Lemma validated_amounts_result (amounts : list formValue)
      (inflationRate : number) :
  Amounts.isValid (validateFlexibleAmounts (Some amounts)) = true ->
  exists res t v avg e,
    calculateFlexibleSIP (map toEntry amounts) inflationRate = Return res
    /\ totalInvestment res = Num t
    /\ futureValue res = Num v
    /\ (0 < t < v)%R
    /\ averageMonthlyAmount res = Some (Num avg)
    /\ (0 < avg <= 1000000)%R
    /\ effectiveRate res = Num e
    /\ (0 < e)%R.
Proof.
  intros Hvalid.
  destruct (validateFlexibleAmounts_eval amounts) as [_ Hv].
  rewrite Hvalid in Hv. symmetry in Hv.
  apply andb_true_iff in Hv. destruct Hv as [Hex Hlen].
  apply negb_true_iff, Nat.ltb_ge in Hlen.
  assert (Hnil : problemMonths 0 amounts = [])
    by (destruct (problemMonths 0 amounts); [reflexivity | cbn in Hlen; lia]).
  apply problemMonths_nil in Hnil.
  assert (Hok : Forall (fun v =>
                          v = Empty
                          \/ exists e x,
                              v = Filled e /\ parseFloat e = Num x
                              /\ (0 <= x <= 1000000)%R) amounts).
  { eapply Forall_impl; [| exact Hnil].
    intros v Hv. now apply amountProblem_none. }
  apply existsb_exists in Hex. destruct Hex as (v0 & Hin0 & Hc0).
  apply amountCounts_true in Hc0.
  assert (Hfin : Forall (fun e => e = NonNumeric
                                  \/ exists x, e = Numeric (Num x))
                        (map toEntry amounts)).
  { apply Forall_map. eapply Forall_impl; [| exact Hok].
    intros v [-> | (e & x & -> & Hx & _)]; cbn [toEntry].
    - now left.
    - right. exists x. now apply parseFloat_Num. }
  assert (Hpos : Exists (fun e => exists x, e = Numeric (Num x) /\ (0 < x)%R)
                        (map toEntry amounts)).
  { apply Exists_exists. exists (toEntry v0).
    split; [now apply in_map |].
    destruct Hc0 as (e & x & -> & Hx & Hr). cbn [toEntry].
    exists x. split; [now apply parseFloat_Num | lra]. }
  destruct (calculateFlexibleSIP_eval (map toEntry amounts) inflationRate)
    as (res & Hres & Hti & Hfv & Hy & Havg & _).
  destruct (flexible_real_bounds (0.12 / 12) (map toEntry amounts))
    as (t & v & Ht & Hvv & _ & _ & Hs); [lra | assumption |].
  specialize (Hs Hpos).
  destruct (flexibleTotal_upper amounts Hok) as (t' & Ht' & Hub).
  rewrite Ht in Ht'. injection Ht' as <-.
  rewrite Ht in Hti, Havg. rewrite Hvv in Hfv.
  rewrite length_map in Havg, Hy.
  assert (Hn : (0 < INR (List.length amounts))%R).
  { apply lt_0_INR. destruct amounts; [contradiction | cbn; lia]. }
  destruct (effective_rate_sign v t (INR (List.length amounts) / 12))
    as (e & He & _ & Hepos & _); [lra | lra | lra |].
  exists res, t, v, (t / INR (List.length amounts))%R, e.
  split; [exact Hres |]. do 2 (split; [assumption |]).
  split; [exact Hs |]. split.
  { rewrite Havg. unfold JS.of_nat. now rewrite div_Num by lra. }
  split.
  { split; [apply Rdiv_lt_0_compat; lra |].
    apply Rmult_le_reg_r with (INR (List.length amounts)); [assumption |].
    unfold Rdiv. rewrite Rmult_assoc, Rinv_l by lra. lra. }
  split; [| apply Hepos; lra].
  now rewrite (calculateFlexibleSIP_effectiveRate _ _ _ Hres), Hfv, Hti, Hy.
Qed.

(** X20.  Under exact arithmetic, amounts that [validateFlexibleAmounts]
    accepts do not lead the Flexible calculator to a degenerate result: it
    returns totals with [0 < totalInvestment < futureValue], an average
    amount in (0, 1000000] and a positive effective rate. *)
Theorem X20_validated_amounts_are_not_degenerate
        (amounts : list formValue) (inflationRate : number) :
  Amounts.isValid (validateFlexibleAmounts (Some amounts)) = true ->
  exists res t v avg e,
    calculateFlexibleSIP (map toEntry amounts) inflationRate = Return res
    /\ totalInvestment res = Num t
    /\ futureValue res = Num v
    /\ (0 < t < v)%R
    /\ averageMonthlyAmount res = Some (Num avg)
    /\ (0 < avg <= 1000000)%R
    /\ effectiveRate res = Num e
    /\ (0 < e)%R.
Proof. apply validated_amounts_result. Qed.

Lemma X20_validated_amounts_are_not_degenerate_witness :
  Amounts.isValid
    (validateFlexibleAmounts (Some [Filled (Numeric (Num 750)); Empty]))
  = true
  /\ exists res t v,
      calculateFlexibleSIP
        (map toEntry [Filled (Numeric (Num 750)); Empty]) 0 = Return res
      /\ totalInvestment res = Num t
      /\ futureValue res = Num v
      /\ (0 < t < v)%R.
Proof.
  assert (H : Amounts.isValid
                (validateFlexibleAmounts
                   (Some [Filled (Numeric (Num 750)); Empty])) = true).
  { rewrite (proj2 (validateFlexibleAmounts_eval _)).
    cbn [existsb problemMonths]. unfold amountCounts, amountProblem.
    cbn [isEmpty parseValue parseFloat isNaN negb andb orb].
    rewrite (ltb_Num_false 750 0), (ltb_Num_false 1000000 750),
      (ltb_Num_true 0 750) by lra.
    reflexivity. }
  split; [exact H |].
  destruct (X20_validated_amounts_are_not_degenerate _ (Num 0) H)
    as (res & t & v & _ & _ & Hres & Hti & Hfv & Hlt & _).
  exists res, t, v. repeat split; try assumption; apply Hlt.
Defined.

(** ** Validation of the whole form *)

Lemma checkField_valid (fieldName key : string) (value : formValue)
      (result : Validation.t) :
  Validation.isValid (checkField fieldName key value result) = true
  <-> Validation.isValid result = true
      /\ Field.isValid (validateField fieldName value) = true.
Proof.
  unfold checkField.
  destruct (Field.isValid (validateField fieldName value));
    cbn [negb Validation.isValid].
  - split; [intros H; now split | now intros [H _]].
  - split; [discriminate | intros [_ H]; discriminate H].
Qed.

(** A result is coherent when it is valid exactly when it has no error. *)
Lemma checkField_coherent (fieldName key : string) (value : formValue)
      (result : Validation.t) :
  (Validation.isValid result = true <-> Validation.errors result = []) ->
  (Validation.isValid (checkField fieldName key value result) = true
   <-> Validation.errors (checkField fieldName key value result) = []).
Proof.
  intros H. unfold checkField.
  destruct (Field.isValid (validateField fieldName value));
    cbn [negb Validation.isValid Validation.errors]; [exact H |].
  split; [discriminate |].
  intros Habs. destruct (Validation.errors result); discriminate Habs.
Qed.

Lemma amounts_step_coherent (amounts : option (list formValue))
      (result : Validation.t) :
  (Validation.isValid result = true <-> Validation.errors result = []) ->
  let result' :=
    if negb (Amounts.isValid (validateFlexibleAmounts amounts)) then
      Validation.mk false
        (Validation.errors result
           ++ [("flexibleAmounts"%string,
                Some (Amounts.message (validateFlexibleAmounts amounts)))])
    else result in
  Validation.isValid result' = true <-> Validation.errors result' = [].
Proof.
  intros H. cbn zeta.
  destruct (Amounts.isValid (validateFlexibleAmounts amounts));
    cbn [negb Validation.isValid Validation.errors]; [exact H |].
  split; [discriminate |].
  intros Habs. destruct (Validation.errors result); discriminate Habs.
Qed.

(** X21.  [validateForm] reports a valid form exactly when it records no
    error, whatever the form holds. *)
Theorem X21_validateForm_valid_iff_no_errors (formData : Form.t) :
  Validation.isValid (validateForm formData) = true
  <-> Validation.errors (validateForm formData) = [].
Proof.
  unfold validateForm.
  assert (H0 : Validation.isValid (Validation.mk true []) = true
               <-> Validation.errors (Validation.mk true []) = [])
    by (split; reflexivity).
  set (r0 := Validation.mk true []) in *.
  set (r1 := if String.eqb (Form.sipType formData) "regular" then _ else r0).
  assert (H1 : Validation.isValid r1 = true <-> Validation.errors r1 = []).
  { subst r1. destruct (String.eqb (Form.sipType formData) "regular");
      [| exact H0].
    now do 2 apply checkField_coherent. }
  set (r2 := if String.eqb (Form.sipType formData) "stepup" then _ else r1).
  assert (H2 : Validation.isValid r2 = true <-> Validation.errors r2 = []).
  { subst r2. destruct (String.eqb (Form.sipType formData) "stepup");
      [| exact H1].
    now do 3 apply checkField_coherent. }
  set (r3 := if String.eqb (Form.sipType formData) "flexible" then _ else r2).
  assert (H3 : Validation.isValid r3 = true <-> Validation.errors r3 = []).
  { subst r3. destruct (String.eqb (Form.sipType formData) "flexible");
      [| exact H2].
    apply amounts_step_coherent. now apply checkField_coherent. }
  set (r4 := if negb (isEmpty (Form.inflationRate formData)) then _ else r3).
  assert (H4 : Validation.isValid r4 = true <-> Validation.errors r4 = []).
  { subst r4. destruct (negb (isEmpty (Form.inflationRate formData)));
      [| exact H3].
    now apply checkField_coherent. }
  destruct (negb (isEmpty (Form.goalAmount formData))); [| exact H4].
  now apply checkField_coherent.
Qed.

Lemma validateForm_valid (formData : Form.t) :
  Validation.isValid (validateForm formData) = true ->
  (Form.sipType formData = "regular"%string ->
   Field.isValid (validateField "monthlyAmount" (Form.monthlyAmount formData))
   = true
   /\ Field.isValid (validateField "years" (Form.years formData)) = true)
  /\ (Form.sipType formData = "stepup"%string ->
      Field.isValid
        (validateField "monthlyAmount" (Form.stepupMonthlyAmount formData))
      = true
      /\ Field.isValid (validateField "years" (Form.stepupYears formData))
         = true
      /\ Field.isValid
           (validateField "stepUpPercent" (Form.stepUpPercent formData))
         = true)
  /\ (Form.sipType formData = "flexible"%string ->
      Amounts.isValid (validateFlexibleAmounts (Form.flexibleAmounts formData))
      = true).
Proof.
  unfold validateForm.
  set (r0 := Validation.mk true []).
  set (r1 := if String.eqb (Form.sipType formData) "regular" then _ else r0).
  set (r2 := if String.eqb (Form.sipType formData) "stepup" then _ else r1).
  set (r3 := if String.eqb (Form.sipType formData) "flexible" then _ else r2).
  set (r4 := if negb (isEmpty (Form.inflationRate formData)) then _ else r3).
  intros H5.
  assert (H4 : Validation.isValid r4 = true).
  { destruct (negb (isEmpty (Form.goalAmount formData))); [| exact H5].
    now apply checkField_valid in H5. }
  assert (H3 : Validation.isValid r3 = true).
  { subst r4. destruct (negb (isEmpty (Form.inflationRate formData)));
      [| exact H4].
    now apply checkField_valid in H4. }
  assert (H2 : Validation.isValid r2 = true
               /\ (Form.sipType formData = "flexible"%string ->
                   Amounts.isValid
                     (validateFlexibleAmounts (Form.flexibleAmounts formData))
                   = true)).
  { subst r3.
    destruct (String.eqb_spec (Form.sipType formData) "flexible")
      as [Heq | Hne]; [| split; [exact H3 | contradiction]].
    destruct (Amounts.isValid
                (validateFlexibleAmounts (Form.flexibleAmounts formData)));
      cbn [negb] in H3; [| discriminate H3].
    apply checkField_valid in H3. split; [apply H3 | reflexivity]. }
  destruct H2 as [H2 Hflex].
  assert (H1 : Validation.isValid r1 = true
               /\ (Form.sipType formData = "stepup"%string ->
                   Field.isValid
                     (validateField "monthlyAmount"
                                    (Form.stepupMonthlyAmount formData))
                   = true
                   /\ Field.isValid
                        (validateField "years" (Form.stepupYears formData))
                      = true
                   /\ Field.isValid
                        (validateField "stepUpPercent"
                                       (Form.stepUpPercent formData))
                      = true)).
  { subst r2.
    destruct (String.eqb_spec (Form.sipType formData) "stepup")
      as [Heq | Hne]; [| split; [exact H2 | contradiction]].
    apply checkField_valid in H2. destruct H2 as [H2 Hp].
    apply checkField_valid in H2. destruct H2 as [H2 Hy].
    apply checkField_valid in H2. destruct H2 as [H2 Ha].
    split; [exact H2 |]. intros _. now repeat split. }
  destruct H1 as [H1 Hstep].
  split; [| split; assumption].
  intros Heq. subst r1. rewrite Heq in H1.
  cbn [String.eqb Ascii.eqb Bool.eqb] in H1.
  apply checkField_valid in H1. destruct H1 as [H1 Hy].
  apply checkField_valid in H1. destruct H1 as [_ Ha].
  now split.
Qed.

Lemma field_in_range (fieldName : string) (value : formValue)
      (rule : Rule.t) (lo hi : R) :
  get validationRules fieldName = Some rule ->
  Rule.required rule = true ->
  Rule.min rule = Some (Num lo) -> Rule.max rule = Some (Num hi) ->
  Field.isValid (validateField fieldName value) = true ->
  exists x, parseValue value = Num x /\ (lo <= x <= hi)%R.
Proof.
  intros Hget Hreq Hmin Hmax Hvalid.
  apply (validateField_rule _ _ lo hi _ Hget Hmin Hmax) in Hvalid.
  destruct Hvalid as [[_ Hopt] | (e & x & -> & Hx & Hr)]; [congruence |].
  exists x. split; [exact Hx | exact Hr].
Qed.

(** ** Step-up SIP over any duration *)

Lemma stepUpMonth_real_months (M ti fv cur d : R) (month : nat) :
  stepUpMonth (Num M) (Num d) month (Num ti, Num fv, Num cur)
  = (Num (ti + cur),
     Num (fv + cur * Rpower (1 + 0.15 / 12) (M - INR month + 1)),
     Num (if (month mod 12 =? 0)%nat && (Num (INR month) <? Num M)
          then cur * (1 + d) else cur)).
Proof.
  unfold stepUpMonth. rewrite stepUpRate_eval. js_arith.
  rewrite Math_pow_pos by lra.
  destruct (_ && _); reflexivity.
Qed.

Lemma stepUp_real_fold (A d M : R) (m : nat) :
  (0 < A)%R -> (0 <= d)%R -> (INR m <= M)%R ->
  exists ti fv cur,
    fold_left (fun s month => stepUpMonth (Num M) (Num d) month s)
              (seq 1 m) (Num 0, Num 0, Num A)
    = (Num ti, Num fv, Num cur)
    /\ (A <= cur)%R
    /\ (A * INR m <= ti)%R
    /\ (ti <= fv)%R
    /\ ((1 <= m)%nat -> (ti < fv)%R).
Proof.
  intros HA Hd. induction m as [| m IH]; intros Hm.
  - exists 0%R, 0%R, A. cbn [seq fold_left INR].
    split; [reflexivity |]. repeat split; try lra. lia.
  - rewrite S_INR in Hm.
    destruct IH as (ti & fv & cur & Hf & Hcur & Hti & Hfv & _); [lra |].
    rewrite seq_S, fold_left_app_one, Hf.
    replace (1 + m)%nat with (S m) by lia.
    rewrite stepUpMonth_real_months, S_INR.
    assert (Hp : (1 < Rpower (1 + 0.15 / 12) (M - (INR m + 1) + 1))%R)
      by (apply Rpower_gt_1; lra).
    assert (Hterm : (cur < cur * Rpower (1 + 0.15 / 12)
                                        (M - (INR m + 1) + 1))%R) by nra.
    assert (Hstep : (cur <= cur * (1 + d))%R) by nra.
    do 3 eexists. split; [reflexivity |].
    split; [destruct (_ && _); lra |].
    split; [lra |]. split; [lra |]. intros _. lra.
Qed.

Lemma stepUpYear_rows (yrs d : number) (l : list nat) :
  forall s : number * number * number * list Row.t,
    List.length
      (snd (fold_left (fun s year => stepUpYear yrs d year s) l s))
    = (List.length (snd s) + List.length l)%nat.
Proof.
  induction l as [| year l IH]; intros s; cbn [fold_left List.length];
    [lia |].
  rewrite IH. destruct s as [[[ci cv] ya] rows]. unfold stepUpYear.
  destruct (fold_left _ (seq 1 12) (ci, cv)) as [ci' cv'].
  cbn [snd]. rewrite length_app. cbn [List.length]. lia.
Qed.

Lemma floor_range (y lo hi : R) (a b : nat) :
  (INR a <= lo)%R -> (hi <= INR b)%R -> (lo <= y <= hi)%R ->
  (a <= Z.to_nat (Zfloor y) <= b)%nat
  /\ (INR (Z.to_nat (Zfloor y)) <= y)%R.
Proof.
  intros Ha Hb Hy.
  pose proof (Zfloor_bound y) as [Hlo Hhi].
  pose proof (pos_INR a) as Ha0.
  assert (Hz : (0 <= Zfloor y)%Z).
  { apply Zfloor_lub. simpl. lra. }
  assert (HI : INR (Z.to_nat (Zfloor y)) = IZR (Zfloor y))
    by (rewrite INR_IZR_INZ, Z2Nat.id by assumption; reflexivity).
  split; [| rewrite HI; exact Hlo].
  split.
  - apply INR_le. rewrite HI.
    assert (Hza : (Z.of_nat a <= Zfloor y)%Z)
      by (apply Zfloor_lub; rewrite <- INR_IZR_INZ; lra).
    apply IZR_le in Hza. rewrite <- INR_IZR_INZ in Hza. exact Hza.
  - apply INR_le. rewrite HI. lra.
Qed.

(** ** C5: the year-wise breakdown on a partial year *)

Lemma stepUpYearMonth_real (M a : R) (len : nat) :
  forall (j0 : nat) (ci cv : R),
    (INR (j0 + len) <= M + 1)%R ->
    exists cv',
      fold_left (stepUpYearMonth (Num M) (Num a) 1) (seq j0 len)
                (Num ci, Num cv)
      = (Num (ci + INR len * a), Num cv').
Proof.
  induction len as [| len IH]; intros j0 ci cv Hle.
  - exists cv. cbn [seq fold_left INR]. do 2 f_equal. lra.
  - cbn [seq fold_left].
    assert (Hj : (INR j0 <= M)%R).
    { rewrite plus_INR, S_INR in Hle. pose proof (pos_INR len). lra. }
    unfold stepUpYearMonth at 2. cbn [Nat.sub Nat.mul Nat.add].
    unfold JS.of_nat. rewrite leb_Num_true by assumption.
    rewrite stepUpRate_eval. js_arith. rewrite Math_pow_pos by lra.
    js_arith.
    destruct (IH (S j0) (ci + a)%R
                 (cv + a * Rpower (1 + 0.15 / 12) (M - INR j0 + 1))%R)
      as [cv' Hcv'].
    { replace (S j0 + len)%nat with (j0 + S len)%nat by lia. exact Hle. }
    exists cv'. rewrite Hcv'. do 2 f_equal. rewrite S_INR. lra.
Qed.

(** C5.  With the year count 1.5, which the form validation accepts, a
    plan has 18 periods, and [ceil (18 / 12) = 2].  The Regular calculator
    for the amount 1000 returns a breakdown of one row, whose cumulative
    investment is 12000, while [totalInvestment] is 18000; the Step-up
    calculator for the amount 1000 and a step-up of 10% returns one row as
    well, with the cumulative investment 12000, while [totalInvestment] is
    at least 18000.  Neither result is consistent with its breakdown.  The
    Flexible calculator is consistent on every list of 18 entries. *)
Theorem C5_partial_year_breakdown :
  Z.to_nat (Zceil (INR 18 / 12)) = 2%nat
  /\ (exists res,
         calculateRegularSIP 1000 1.5 "mid" 0 = Return res
         /\ months res = Num 18
         /\ totalInvestment res = Num 18000
         /\ (exists row,
                yearlyBreakdown res = [row]
                /\ Row.investment row = Num 12000)
         /\ ~ timelineConsistent 18 res)
  /\ (exists res ti,
         calculateStepUpSIP 1000 1.5 10 0 = Return res
         /\ years res = Num 1.5
         /\ totalInvestment res = Num ti
         /\ (18000 <= ti)%R
         /\ (exists row,
                yearlyBreakdown res = [row]
                /\ Row.investment row = Num 12000)
         /\ ~ timelineConsistent 18 res)
  /\ (forall (amounts : list entry) (inflationRate : number),
         List.length amounts = 18%nat ->
         exists res,
           calculateFlexibleSIP amounts inflationRate = Return res
           /\ timelineConsistent 18 res).
Proof.
  destruct regular_partial_year
    as (reg & Hreg & Hm & Hti & Hrow & Hceil & Hno).
  split; [exact Hceil |].
  split; [exists reg; repeat (split; [assumption |]); exact Hno |].
  split.
  - destruct (calculateStepUpSIP_eval (Num 1000) 1.5 (Num 10) (Num 0))
      as (res & Hres & Htot & Hyb & Hyrs).
    assert (H18 : INR 18 = 18%R) by (rewrite INR_IZR_INZ; reflexivity).
    assert (Hf18 : Z.to_nat (Zfloor (1.5 * 12)) = 18%nat).
    { rewrite (Zfloor_eq 18); [reflexivity |]. lra. }
    assert (Hf1 : Z.to_nat (Zfloor 1.5) = 1%nat).
    { rewrite (Zfloor_eq 1); [reflexivity |]. lra. }
    rewrite Hf18 in Htot. rewrite Hf1 in Hyb.
    cbn [JS.mul] in Htot. rewrite div_Num in Htot, Hyb by lra.
    destruct (stepUp_real_fold 1000 (10 / 100) (1.5 * 12) 18)
      as (ti & fv & cur & Hfold & _ & Hle & _); [lra | lra | lra |].
    rewrite Hfold in Htot. cbn [fst] in Htot. injection Htot as Hti' _.
    cbn [seq fold_left] in Hyb. unfold stepUpYear in Hyb.
    cbn [JS.mul] in Hyb.
    destruct (stepUpYearMonth_real (1.5 * 12) 1000 12 1 0 0) as [cv Hcv].
    { replace (1 + 12)%nat with 13%nat by reflexivity.
      rewrite INR_IZR_INZ. simpl. lra. }
    rewrite Hcv in Hyb. cbn [snd app] in Hyb.
    assert (H12 : INR 12 = 12%R) by (rewrite INR_IZR_INZ; reflexivity).
    exists res, ti. split; [exact Hres |]. split; [exact Hyrs |].
    split; [exact Hti' |]. split; [lra |].
    split.
    { eexists. split; [exact Hyb |]. cbn [Row.investment].
      f_equal. rewrite H12. lra. }
    intros [Hlen _]. rewrite Hyb, Hceil in Hlen. discriminate Hlen.
  - intros amounts inflationRate Hlen.
    assert (Hne : amounts <> [])
      by (intros ->; discriminate Hlen).
    destruct (flexible_timeline amounts inflationRate Hne)
      as (res & Hres & _ & Hc).
    exists res. split; [exact Hres |]. now rewrite Hlen in Hc.
Qed.

(** ** From a validated form to its calculation *)

Lemma regular_growth_real (A y : R) (category : string)
      (inflationRate : number) :
  inherited category = false ->
  (0 < A)%R -> (0 < y)%R ->
  exists res ti fv,
    calculateRegularSIP (Num A) (Num y) category inflationRate = Return res
    /\ totalInvestment res = Num ti
    /\ futureValue res = Num fv
    /\ (0 < ti < fv)%R
    /\ List.length (yearlyBreakdown res) = Z.to_nat (Zfloor y).
Proof.
  intros Hc HA Hy.
  destruct (regular_eval_real A y category inflationRate Hc)
    as (res & Hres & Hfv & Hti & Hlen).
  pose proof (monthlyRateOf_pos category) as Hr.
  assert (Hm : (0 < y * 12)%R) by lra.
  pose proof (annuity_real_lower _ _ Hr Hm) as Hlow.
  set (F := ((Rpower (1 + monthlyRateOf category) (y * 12) - 1)
             / monthlyRateOf category * (1 + monthlyRateOf category))%R)
    in *.
  exists res, (A * (y * 12))%R, (A * F)%R.
  split; [exact Hres |]. split; [exact Hti |].
  split; [rewrite Hfv; f_equal; unfold F; ring |].
  split; [| exact Hlen].
  split; [apply Rmult_lt_0_compat; assumption |].
  apply Rmult_lt_compat_l; assumption.
Qed.

Lemma stepUp_growth_real (A y p : R) (inflationRate : number) :
  (0 < A)%R -> (1 <= y <= 50)%R -> (0 <= p)%R ->
  exists res ti fv,
    calculateStepUpSIP (Num A) (Num y) (Num p) inflationRate = Return res
    /\ totalInvestment res = Num ti
    /\ futureValue res = Num fv
    /\ (0 < ti < fv)%R
    /\ (1 <= List.length (yearlyBreakdown res) <= 50)%nat.
Proof.
  intros HA Hy Hp.
  destruct (calculateStepUpSIP_eval (Num A) y (Num p) inflationRate)
    as (res & Hres & Htot & Hyb & _).
  cbn [JS.mul] in Htot. rewrite div_Num in Htot by lra.
  assert (H12 : INR 12 = 12%R) by (rewrite INR_IZR_INZ; reflexivity).
  assert (H600 : INR 600 = 600%R) by (rewrite INR_IZR_INZ; reflexivity).
  assert (H1 : INR 1 = 1%R) by reflexivity.
  assert (H50 : INR 50 = 50%R) by (rewrite INR_IZR_INZ; reflexivity).
  destruct (floor_range (y * 12) 12 600 12 600) as [[Hn12 _] Hn];
    [lra | lra | lra |].
  destruct (floor_range y 1 50 1 50) as [Hrows _]; [lra | lra | lra |].
  destruct (stepUp_real_fold A (p / 100) (y * 12)
                             (Z.to_nat (Zfloor (y * 12))))
    as (ti & fv & cur & Hf & _ & Hti & _ & Hlt); [assumption | lra | exact Hn |].
  rewrite Hf in Htot. cbn [fst] in Htot. injection Htot as Hti' Hfv'.
  exists res, ti, fv. split; [exact Hres |].
  do 2 (split; [assumption |]).
  split.
  - pose proof (le_INR _ _ Hn12) as Hnpos. rewrite H12 in Hnpos.
    split; [nra | apply Hlt; lia].
  - rewrite Hyb, stepUpYear_rows, length_seq. cbn [snd List.length]. lia.
Qed.

(** X22.  Under exact arithmetic, a form that [validateForm] accepts
    yields a calculation with [0 < totalInvestment < futureValue] when its
    type is "stepup" or "flexible", and when its type is "regular" and its
    category is a string that is not the name of a property inherited from
    [Object.prototype]; for "regular" and "stepup" the year-wise breakdown
    then has between 1 and 50 rows.  [validateForm] never checks the
    category: an accepted "regular" form whose category names an inherited
    property yields a result whose [annualRate], [futureValue] and
    [returns] are [NaN], and one without a category makes
    [performCalculation] fail with a [TypeError]. *)
Theorem X22_validated_form_calculates (formData : Form.t) :
  Validation.isValid (validateForm formData) = true ->
  (Form.sipType formData = "regular"%string ->
   (forall category,
       Form.investmentCategory formData = Some category ->
       inherited category = false ->
       exists res ti fv,
         performCalculation formData = Return res
         /\ totalInvestment res = Num ti
         /\ futureValue res = Num fv
         /\ (0 < ti < fv)%R
         /\ (1 <= List.length (yearlyBreakdown res) <= 50)%nat)
   /\ (forall category,
          Form.investmentCategory formData = Some category ->
          inherited category = true ->
          exists res,
            performCalculation formData = Return res
            /\ annualRate res = NaN
            /\ futureValue res = NaN
            /\ returns res = NaN)
   /\ (Form.investmentCategory formData = None ->
       performCalculation formData
       = Throw "TypeError: Cannot read properties of undefined"))
  /\ (Form.sipType formData = "stepup"%string ->
      exists res ti fv,
        performCalculation formData = Return res
        /\ totalInvestment res = Num ti
        /\ futureValue res = Num fv
        /\ (0 < ti < fv)%R
        /\ (1 <= List.length (yearlyBreakdown res) <= 50)%nat)
  /\ (Form.sipType formData = "flexible"%string ->
      exists res ti fv,
        performCalculation formData = Return res
        /\ totalInvestment res = Num ti
        /\ futureValue res = Num fv
        /\ (0 < ti < fv)%R).
Proof.
  intros Hvalid.
  destruct (validateForm_valid formData Hvalid) as (Hreg & Hstep & Hflex).
  unfold performCalculation.
  split; [| split]; intros Ht; rewrite Ht;
    cbn [String.eqb Ascii.eqb Bool.eqb].
  - destruct (Hreg Ht) as [Ha Hy].
    destruct (field_in_range "monthlyAmount" _ _ 500 1000000
                             eq_refl eq_refl eq_refl eq_refl Ha)
      as (A & HA & HAr).
    destruct (field_in_range "years" _ _ 1 50
                             eq_refl eq_refl eq_refl eq_refl Hy)
      as (y & HY & HYr).
    rewrite HA, HY.
    split; [| split].
    + intros category Hcat Hinh. rewrite Hcat.
      cbn [calculateRegularSIP_call].
      destruct (regular_growth_real A y category
                  (JS.or (parseValue (Form.inflationRate formData)) 0) Hinh)
        as (res & ti & fv & Hres & Hti & Hfv & Hlt & Hlen); [lra | lra |].
      exists res, ti, fv. do 4 (split; [assumption |]).
      rewrite Hlen.
      assert (H1 : INR 1 = 1%R) by reflexivity.
      assert (H50 : INR 50 = 50%R) by (rewrite INR_IZR_INZ; reflexivity).
      destruct (floor_range y 1 50 1 50) as [Hrows _]; [lra | lra | lra |].
      exact Hrows.
    + intros category Hcat Hinh. rewrite Hcat.
      cbn [calculateRegularSIP_call].
      destruct (calculateRegularSIP_returns (Num A) y category
                  (JS.or (parseValue (Form.inflationRate formData)) 0))
        as [res Hres].
      exists res. split; [exact Hres |].
      exact (regular_inherited _ _ _ _ _ Hinh Hres).
    + intros Hcat. rewrite Hcat. cbn [calculateRegularSIP_call].
      destruct (calculateRegularSIP_returns (Num A) y "undefined"
                  (JS.or (parseValue (Form.inflationRate formData)) 0))
        as [res Hres].
      rewrite Hres. reflexivity.
  - destruct (Hstep Ht) as (Ha & Hy & Hp).
    destruct (field_in_range "monthlyAmount" _ _ 500 1000000
                             eq_refl eq_refl eq_refl eq_refl Ha)
      as (A & HA & HAr).
    destruct (field_in_range "years" _ _ 1 50
                             eq_refl eq_refl eq_refl eq_refl Hy)
      as (y & HY & HYr).
    destruct (field_in_range "stepUpPercent" _ _ 1 50
                             eq_refl eq_refl eq_refl eq_refl Hp)
      as (p & HP & HPr).
    rewrite HA, HY, HP.
    destruct (stepUp_growth_real A y p
                (JS.or (parseValue (Form.inflationRate formData)) 0))
      as (res & ti & fv & Hres & Hti & Hfv & Hlt & Hlen);
      [lra | lra | lra |].
    exists res, ti, fv. do 4 (split; [assumption |]). exact Hlen.
  - specialize (Hflex Ht).
    destruct (Form.flexibleAmounts formData) as [amounts |];
      [| discriminate Hflex].
    destruct (validated_amounts_result amounts
                (JS.or (parseValue (Form.inflationRate formData)) 0) Hflex)
      as (res & ti & fv & _ & _ & Hres & Hti & Hfv & Hlt & _).
    exists res, ti, fv. do 3 (split; [assumption |]). exact Hlt.
Qed.

Lemma X22_validated_form_calculates_witness :
  Validation.isValid
    (validateForm
       (Form.mk "regular" (Filled (Numeric (Num 5000)))
                (Filled (Numeric (Num 2.5))) (Some "mid"%string)
                Empty Empty Empty Empty None Empty Empty))
  = true
  /\ exists res ti fv,
      performCalculation
        (Form.mk "regular" (Filled (Numeric (Num 5000)))
                 (Filled (Numeric (Num 2.5))) (Some "mid"%string)
                 Empty Empty Empty Empty None Empty Empty)
      = Return res
      /\ totalInvestment res = Num ti
      /\ futureValue res = Num fv
      /\ (0 < ti < fv)%R.
Proof.
  assert (Hv : Validation.isValid
                 (validateForm
                    (Form.mk "regular" (Filled (Numeric (Num 5000)))
                             (Filled (Numeric (Num 2.5)))
                             (Some "mid"%string)
                             Empty Empty Empty Empty None Empty Empty))
               = true).
  { unfold validateForm.
    cbn [Form.sipType Form.monthlyAmount Form.years Form.inflationRate
         Form.goalAmount String.eqb Ascii.eqb Bool.eqb isEmpty negb].
    apply checkField_valid. split.
    - apply checkField_valid. split; [reflexivity |].
      apply (validateField_rule "monthlyAmount" _ 500 1000000 _
                                eq_refl eq_refl eq_refl).
      right. exists (Numeric (Num 5000)), 5000%R.
      split; [reflexivity |]. split; [reflexivity | lra].
    - apply (validateField_rule "years" _ 1 50 _ eq_refl eq_refl eq_refl).
      right. exists (Numeric (Num 2.5)), 2.5%R.
      split; [reflexivity |]. split; [reflexivity | lra]. }
  split; [exact Hv |].
  destruct (proj1 (X22_validated_form_calculates _ Hv) eq_refl)
    as (Hown & _ & _).
  destruct (Hown "mid"%string eq_refl eq_refl)
    as (res & ti & fv & Hres & Hti & Hfv & Hlt & _).
  exists res, ti, fv. repeat split; try assumption; apply Hlt.
Defined.

(** X23.  A form whose type is none of "regular", "stepup" and "flexible"
    is not rejected for it: [validateForm] checks only the two advanced
    fields, so that with both of them empty the form is valid and has no
    errors; yet [performCalculation] has no calculator for it and fails
    with "Calculation failed". *)
Theorem X23_unknown_type_passes_validation (formData : Form.t) :
  Form.sipType formData <> "regular"%string ->
  Form.sipType formData <> "stepup"%string ->
  Form.sipType formData <> "flexible"%string ->
  performCalculation formData = Throw "Calculation failed"
  /\ (Validation.isValid (validateForm formData) = true
      <-> (Form.inflationRate formData = Empty
           \/ Field.isValid
                (validateField "inflationRate" (Form.inflationRate formData))
              = true)
          /\ (Form.goalAmount formData = Empty
              \/ Field.isValid
                   (validateField "goalAmount" (Form.goalAmount formData))
                 = true))
  /\ (Form.inflationRate formData = Empty ->
      Form.goalAmount formData = Empty ->
      validateForm formData = Validation.mk true []).
Proof.
  intros H1 H2 H3.
  apply String.eqb_neq in H1, H2, H3.
  split; [unfold performCalculation; now rewrite H1, H2, H3 |].
  unfold validateForm. rewrite H1, H2, H3.
  split.
  - destruct (Form.inflationRate formData) as [| ei];
      destruct (Form.goalAmount formData) as [| eg];
      cbn [isEmpty negb].
    + split; [intros _; split; now left | reflexivity].
    + rewrite checkField_valid. split.
      * intros [_ H]. split; [now left | now right].
      * intros [_ [H | H]]; [discriminate H | now split].
    + rewrite checkField_valid. split.
      * intros [_ H]. split; [now right | now left].
      * intros [[H | H] _]; [discriminate H | now split].
    + rewrite !checkField_valid. split.
      * intros [[_ Hi] Hg]. split; now right.
      * intros [[H | Hi] [H' | Hg]];
          try discriminate H; try discriminate H'.
        now repeat split.
  - intros -> ->. reflexivity.
Qed.

Lemma X23_unknown_type_passes_validation_witness :
  "lumpsum"%string <> "regular"%string
  /\ "lumpsum"%string <> "stepup"%string
  /\ "lumpsum"%string <> "flexible"%string
  /\ performCalculation
       (Form.mk "lumpsum" Empty Empty (Some "mid"%string) Empty Empty Empty
                Empty None Empty Empty)
     = Throw "Calculation failed"
  /\ validateForm
       (Form.mk "lumpsum" Empty Empty (Some "mid"%string) Empty Empty Empty
                Empty None Empty Empty)
     = Validation.mk true [].
Proof.
  assert (H1 : "lumpsum"%string <> "regular"%string) by discriminate.
  assert (H2 : "lumpsum"%string <> "stepup"%string) by discriminate.
  assert (H3 : "lumpsum"%string <> "flexible"%string) by discriminate.
  split; [exact H1 |]. split; [exact H2 |]. split; [exact H3 |].
  destruct (X23_unknown_type_passes_validation
              (Form.mk "lumpsum" Empty Empty (Some "mid"%string) Empty Empty
                       Empty Empty None Empty Empty) H1 H2 H3) as (Hp & _ & Hv).
  split; [exact Hp |]. apply Hv; reflexivity.
Defined.
